(** * Oxford Vocabulary Trainer: answer validation, adaptive word picking,
    translation and the game loop

    A shallow embedding of [src/utils.py] ([validate_user_input],
    [parse_llm_response]), of [src/word_picker.py] ([WordPicker]), of
    [src/translator.py] ([translate_word] and its fallback) and of the
    state-changing part of [src/game.py] (history, session statistics,
    high scores and the rounds of [_play_game]), with the properties of
    the specification and further properties of the code stated and
    proved over it.

    Conventions of the embedding.
    - A Python [str] is a [string]; every character stands for the code
      point of the same number (0..255).  [str.strip], [str.lower] and
      [str.split] are the CPython built-ins restricted to these code points.
      (On them [str.lower] keeps the length of a string, which it does
      not on all of Unicode; where the code measures a lowercased string,
      so do the statements.)
    - A Python [float] is an IEEE 754 binary64 number: a [spec_float] of the
      Standard Library, with the operations of [SpecFloat] at precision 53
      and maximal exponent 1024 (round to nearest, ties to even).  A
      decimal literal is the correctly rounded quotient.
    - A Python exception is a result [Raise e] of a computation in
      [PyResult].  The division [a / b] of two [int]s raises
      [ZeroDivisionError] for [b = 0] and [OverflowError] when the
      correctly rounded quotient is 2^1024 or more, and returns the
      rounded quotient otherwise.  A method that mutates the store before
      it raises gives the store at that point together with the
      exception; a run of calls ends with the first exception.
    - The counters of a word record are Python [int]s that start at 0 and
      are only incremented or zeroed: they are binary naturals ([N]), of
      any size (a weights file can hold any number).
    - [self.word_weights] (a [dict] from key to record) is a
      [gmap string WordStats], threaded explicitly through the methods that
      mutate it.  Saving to disk and logging do not change it and are left
      out.  The methods that read the dictionary in its own order
      ([get_level_statistics], [get_difficult_words],
      [get_mastered_words]) take its items as a list.
    - [random.random()] and [random.choice] draw from the environment: the
      drawn numbers are arguments of the model.  So are the answers of the
      translation API, the lines that the player types and the time
      stamps.
    - Printing, pauses and the files are left out; the objects loaded from
      the files have the keys that the code reads, except where the code
      itself provides for a missing key. *)

From Stdlib Require Import Ascii ZArith QArith SpecFloat Permutation Sorted.
From stdpp Require Import gmap strings list fin_maps.
From Equations Require Import Equations.

Open Scope string_scope.
Open Scope list_scope.

(** ** Python string built-ins *)

Module PyStr.

(** [str.isspace] on one code point: TAB..CR, FS..US, SPACE, NEL, NBSP. *)
Definition isspace (c : ascii) : bool :=
  let n := N_of_ascii c in
  ((9 <=? n) && (n <=? 13) || (28 <=? n) && (n <=? 32)
   || (n =? 133) || (n =? 160))%N.

(** [str.lower] on one code point: A..Z and the accented capitals
    U+00C0..U+00DE (without the multiplication sign U+00D7) move up
    by 32.  On these code points [lower] keeps the length of a string;
    beyond them it need not (U+0130 becomes two code points), so the
    properties below measure the normalized string wherever the code
    does. *)
Definition lower_char (c : ascii) : ascii :=
  let n := N_of_ascii c in
  if ((65 <=? n) && (n <=? 90)
      || (192 <=? n) && (n <=? 222) && negb (n =? 215))%N
  then ascii_of_N (n + 32) else c.

Fixpoint lower (s : string) : string :=
  match s with
  | EmptyString => EmptyString
  | String c s' => String (lower_char c) (lower s')
  end.

Fixpoint lstrip (s : string) : string :=
  match s with
  | EmptyString => EmptyString
  | String c s' => if isspace c then lstrip s' else s
  end.

Fixpoint rstrip (s : string) : string :=
  match s with
  | EmptyString => EmptyString
  | String c s' =>
      match rstrip s' with
      | EmptyString => if isspace c then EmptyString else String c EmptyString
      | r => String c r
      end
  end.

(** [s.strip()]: whitespace removed at both ends. *)
Definition strip (s : string) : string := rstrip (lstrip s).

(** [s.split()] scans left to right; [cur] is the word being read. *)
Fixpoint split_from (cur s : string) : list string :=
  match s with
  | EmptyString => match cur with EmptyString => [] | _ => [cur] end
  | String c s' =>
      if isspace c
      then match cur with
           | EmptyString => split_from EmptyString s'
           | _ => cur :: split_from EmptyString s'
           end
      else split_from (cur +:+ String c EmptyString) s'
  end.

Definition split (s : string) : list string := split_from EmptyString s.

(** Every character is whitespace ([""] included), resp. none is. *)
Fixpoint all_space (s : string) : bool :=
  match s with
  | EmptyString => true
  | String c s' => isspace c && all_space s'
  end.

Fixpoint no_space (s : string) : bool :=
  match s with
  | EmptyString => true
  | String c s' => negb (isspace c) && no_space s'
  end.

(** Truth value of a [str]: false exactly for the empty string. *)
Definition truthy (s : string) : bool :=
  match s with EmptyString => false | _ => true end.

End PyStr.

(** ** utils.py *)

Module Utils.
Import PyStr.

(** [for meaning_word in meaning_words: if user_words[0] == meaning_word:
    return True] -- [true] when the loop returns. *)
Fixpoint word_in_meaning (user_word : string) (meaning_words : list string)
  : bool :=
  match meaning_words with
  | [] => false
  | meaning_word :: rest =>
      if String.eqb user_word meaning_word then true
      else word_in_meaning user_word rest
  end.

(** The body of [for meaning in valid_meanings] for one meaning:
    [true] when it executes [return True]. *)
Definition meaning_matches (user_input meaning : string) : bool :=
  let meaning_clean := lower (strip meaning) in
  if String.eqb user_input meaning_clean then true
  else
    let user_words := split user_input in
    let meaning_words := split meaning_clean in
    match user_words with
    | [user_word] =>
        if (3 <=? String.length user_word)%nat
        then word_in_meaning user_word meaning_words
        else false
    | _ :: _ :: _ =>
        let user_words_set : gset string := list_to_set user_words in
        let meaning_words_set : gset string := list_to_set meaning_words in
        bool_decide (user_words_set ⊆ meaning_words_set)
    | [] => false
    end.

Fixpoint check_meanings (user_input : string) (valid_meanings : list string)
  : bool :=
  match valid_meanings with
  | [] => false
  | meaning :: rest =>
      if meaning_matches user_input meaning then true
      else check_meanings user_input rest
  end.

Definition validate_user_input (user_input : string)
    (valid_meanings : list string) : bool :=
  if negb (truthy user_input) || (Nat.eqb (length valid_meanings) 0)
  then false
  else
    let user_input := lower (strip user_input) in
    check_meanings user_input valid_meanings.

End Utils.

(** ** Exceptions *)

Module PyExc.

Inductive PyExn :=
| ValueError
| IndexError
| OverflowError
| ZeroDivisionError.

(** What a call gives: the value returned, or the exception raised. *)
Inductive PyResult (A : Type) :=
| Return (a : A)
| Raise (e : PyExn).
Arguments Return {A} a.
Arguments Raise {A} e.

(** Sequencing: the first exception ends the computation. *)
#[export] Instance PyResult_ret : MRet PyResult := @Return.

#[export] Instance PyResult_bind : MBind PyResult :=
  λ A B f m,
    match m with
    | Return a => f a
    | Raise e => Raise e
    end.

End PyExc.

(** ** Python floats *)

Module PyFloat.
Import PyExc.

Abbreviation float := spec_float.

Definition fadd : float → float → float := SFadd 53 1024.
Definition fmul : float → float → float := SFmul 53 1024.
Definition fltb : float → float → bool := SFltb.
Definition fleb : float → float → bool := SFleb.

(** An [int] as operand of [/]: the integer itself, not rounded. *)
Definition of_int (n : N) : float :=
  match n with
  | N0 => S754_zero false
  | Npos p => S754_finite false p 0
  end.

(** The quotient of two integers, rounded once. *)
Definition quotient (a b : N) : float := SFdiv 53 1024 (of_int a) (of_int b).

(** The value of a (non-negative) decimal literal such as [0.8]. *)
Definition lit (q : Q) : float := quotient (Z.to_N (Qnum q)) (Npos (Qden q)).
Arguments lit q%_Q_scope.

(** [math.isfinite] *)
Definition isfinite (x : float) : bool :=
  match x with
  | S754_zero _ | S754_finite _ _ _ => true
  | S754_infinity _ | S754_nan => false
  end.

(** [a / b] on two [int]s.  A zero divisor raises [ZeroDivisionError];
    a quotient that rounds to 2^1024 or more, where the rounding gives an
    infinity, raises [OverflowError]; otherwise the rounded quotient is
    returned. *)
Definition truediv (a b : N) : PyResult float :=
  if (b =? 0)%N then Raise ZeroDivisionError
  else if isfinite (quotient a b) then Return (quotient a b)
  else Raise OverflowError.

(** A [spec_float] that is a binary64 number: its mantissa and exponent
    are the canonical ones. *)
Definition binary64 (x : float) : Prop := valid_binary 53 1024 x = true.

(** Two ranges used for the sums of weights: a positive finite number of
    at most 2^60, resp. below 8.  The value is counted in units of
    2^-1074. *)
Definition capped (x : float) : Prop :=
  ∃ m e, x = S754_finite false m e ∧ (-1074 ≤ e)%Z ∧
         (Zpos m * 2 ^ (e + 1074) ≤ 2 ^ 1134)%Z.

Definition small (x : float) : Prop :=
  ∃ m e, x = S754_finite false m e ∧ (-1074 ≤ e ≤ -50)%Z ∧
         (Zpos m < 2 ^ 53)%Z.

End PyFloat.

(** ** The part of the [random] module that the picker calls *)

Module PyRandom.
Import PyExc PyFloat.

(** [itertools.accumulate(weights)]: the running sums. *)
Fixpoint accumulate_from (acc : float) (ws : list float) : list float :=
  match ws with
  | [] => []
  | w :: ws' => let acc' := fadd acc w in acc' :: accumulate_from acc' ws'
  end.

Definition accumulate (ws : list float) : list float :=
  match ws with
  | [] => []
  | w :: ws' => w :: accumulate_from w ws'
  end.

(** [bisect.bisect_right(a, x, lo, hi)]; [None] is the [IndexError] of
    [a[mid]]. *)
Equations? bisect (a : list float) (x : float) (lo hi : nat) : option nat
  by wf (hi - lo) lt :=
  bisect a x lo hi with decide (lo < hi)%nat => {
    | right _ => Some lo
    | left _ with a !! ((lo + hi) / 2)%nat => {
        | None => None
        | Some v with fltb x v => {
            | true => bisect a x lo ((lo + hi) / 2)
            | false => bisect a x ((lo + hi) / 2 + 1) hi } } }.
Proof.
  all: change (Nat.divmod (lo + hi) 1 0 1).1 with ((lo + hi) / 2)%nat;
    pose proof (Nat.div_mod_eq (lo + hi) 2);
    pose proof (Nat.mod_upper_bound (lo + hi) 2); lia.
Qed.

(** [random.choices(population, weights=weights, k=1)[0]] as in CPython's
    [Lib/random.py], where [u] is the value of [random()]. *)
Definition random_choices {A : Type} (population : list A)
    (weights : list float) (u : float) : PyResult A :=
  let n := length population in
  let cum_weights := accumulate weights in
  if negb (Nat.eqb (length cum_weights) n) then Raise ValueError
  else
    match last cum_weights with
    | None => Raise IndexError
    | Some c =>
        let total := fadd c (lit 0.0) in
        if fleb total (lit 0.0) then Raise ValueError
        else if negb (isfinite total) then Raise ValueError
        else
          match bisect cum_weights (fmul u total) 0 (n - 1) with
          | None => Raise IndexError
          | Some i =>
              match population !! i with
              | Some x => Return x
              | None => Raise IndexError
              end
          end
    end.

(** [random.choice(seq)], where [k] is the number drawn below
    [len(seq)]. *)
Definition random_choice {A : Type} (seq : list A) (k : nat) : PyResult A :=
  match seq !! (k mod length seq)%nat with
  | Some x => Return x
  | None => Raise IndexError
  end.

End PyRandom.

(** ** word_picker.py *)

Module WordPicker.
Import PyStr PyExc PyFloat PyRandom.

(** The statistics dictionary of one word. *)
Record WordStats := mkWordStats {
  weight : float;
  correct_count : N;
  wrong_count : N;
  total_attempts : N;
  last_seen : option string;
  consecutive_correct : N;
  consecutive_wrong : N
}.

(** The dictionary literal that creates or resets a record. *)
Definition new_word_stats : WordStats :=
  {| weight := lit 1.0;
     correct_count := 0;
     wrong_count := 0;
     total_attempts := 0;
     last_seen := None;
     consecutive_correct := 0;
     consecutive_wrong := 0 |}.

(** A row of [data_df]. *)
Record Row := mkRow {
  row_word : string;
  row_class : string;
  row_level : string
}.

(** [f"{word}_{word_class}_{level}"] *)
Definition word_key (word word_class level : string) : string :=
  word +:+ "_" +:+ word_class +:+ "_" +:+ level.

Definition row_key (row : Row) : string :=
  word_key (row_word row) (row_class row) (row_level row).

Fixpoint _initialize_new_words (data_df : list Row)
    (word_weights : gmap string WordStats) : gmap string WordStats :=
  match data_df with
  | [] => word_weights
  | row :: rest =>
      let word_key := row_key row in
      _initialize_new_words rest
        (match word_weights !! word_key with
         | None => <[word_key := new_word_stats]> word_weights
         | Some _ => word_weights
         end)
  end.

(** [accuracy >= 0.8] is [0.8 <= accuracy]. *)
Definition base_weight (accuracy : float) : float :=
  if fleb (lit 0.8) accuracy then lit 0.3
  else if fleb (lit 0.6) accuracy then lit 0.7
  else if fleb (lit 0.4) accuracy then lit 1.2
  else lit 2.0.

Definition consecutive_modifier (consecutive_correct consecutive_wrong : N)
  : float :=
  if (3 <=? consecutive_correct)%N then lit 0.5
  else if (2 <=? consecutive_wrong)%N then lit 2.5
  else lit 1.0.

Definition attempt_modifier (total_attempts : N) : float :=
  if (total_attempts <=? 3)%N then lit 1.2
  else if (10 <=? total_attempts)%N then lit 0.9
  else lit 1.0.

(** The built-ins [min(a, b)] and [max(a, b)]: the second argument is
    taken only when it is strictly smaller, resp. larger. *)
Definition py_min (a b : float) : float := if fltb b a then b else a.
Definition py_max (a b : float) : float := if fltb a b then b else a.

(** The weight, or the exception of the division. *)
Definition _calculate_adaptive_weight (stats : WordStats) : PyResult float :=
  if (total_attempts stats =? 0)%N then Return (lit 1.0)
  else
    accuracy ← truediv (correct_count stats) (total_attempts stats);
    let base_weight := base_weight accuracy in
    let consecutive_modifier :=
      consecutive_modifier (consecutive_correct stats)
        (consecutive_wrong stats) in
    let attempt_modifier := attempt_modifier (total_attempts stats) in
    let final_weight :=
      fmul (fmul base_weight consecutive_modifier) attempt_modifier in
    Return (py_max (lit 0.1) (py_min (lit 5.0) final_weight)).

(** The in-place updates of [word_stats] between the lookup and the call
    of [_calculate_adaptive_weight]; [now] is the time stamp. *)
Definition record_attempt (word_stats : WordStats) (is_correct : bool)
    (now : string) : WordStats :=
  let total_attempts := (total_attempts word_stats + 1)%N in
  if is_correct then
    {| weight := weight word_stats;
       correct_count := correct_count word_stats + 1;
       wrong_count := wrong_count word_stats;
       total_attempts := total_attempts;
       last_seen := Some now;
       consecutive_correct := consecutive_correct word_stats + 1;
       consecutive_wrong := 0 |}
  else
    {| weight := weight word_stats;
       correct_count := correct_count word_stats;
       wrong_count := wrong_count word_stats + 1;
       total_attempts := total_attempts;
       last_seen := Some now;
       consecutive_correct := 0;
       consecutive_wrong := consecutive_wrong word_stats + 1 |}.

Definition set_weight (word_stats : WordStats) (new_weight : float)
  : WordStats :=
  {| weight := new_weight;
     correct_count := correct_count word_stats;
     wrong_count := wrong_count word_stats;
     total_attempts := total_attempts word_stats;
     last_seen := last_seen word_stats;
     consecutive_correct := consecutive_correct word_stats;
     consecutive_wrong := consecutive_wrong word_stats |}.

(** The store after the call, and how the call ends.  The counters of
    the record are updated in place before the weight is computed: when
    the computation raises, the store holds the updated counters with the
    weight of before.  The quotient of the log line has the operands of
    the one inside [_calculate_adaptive_weight]. *)
Definition update_word_performance (word_weights : gmap string WordStats)
    (word word_class level : string) (is_correct : bool) (now : string)
  : gmap string WordStats * PyResult unit :=
  let word_key := word_key word word_class level in
  let word_weights :=
    match word_weights !! word_key with
    | None => <[word_key := new_word_stats]> word_weights
    | Some _ => word_weights
    end in
  match word_weights !! word_key with
  | None => (word_weights, Return tt)
  | Some word_stats =>
      let word_stats := record_attempt word_stats is_correct now in
      let word_weights := <[word_key := word_stats]> word_weights in
      match _calculate_adaptive_weight word_stats with
      | Raise e => (word_weights, Raise e)
      | Return new_weight =>
          let word_weights :=
            <[word_key := set_weight word_stats new_weight]> word_weights in
          match
            truediv (correct_count word_stats) (total_attempts word_stats)
          with
          | Raise e => (word_weights, Raise e)
          | Return accuracy => (word_weights, Return tt)
          end
      end
  end.

Definition reset_word_stats (word_weights : gmap string WordStats)
    (word word_class level : string) : gmap string WordStats :=
  let word_key := word_key word word_class level in
  match word_weights !! word_key with
  | Some _ => <[word_key := new_word_stats]> word_weights
  | None => word_weights
  end.

Definition reset_all_stats (word_weights : gmap string WordStats)
  : gmap string WordStats :=
  (λ _, new_word_stats) <$> word_weights.

(** [filtered_df]: the rows of the requested level, or all rows when
    [level] is [None] or empty. *)
Definition filter_level (data_df : list Row) (level : option string)
  : list Row :=
  match level with
  | Some l =>
      if truthy l then filter (λ row, row_level row = lower l) data_df
      else data_df
  | None => data_df
  end.

(** [self.word_weights.get(word_key, {}).get('weight', 1.0)] *)
Definition lookup_weight (word_weights : gmap string WordStats)
    (word_key : string) : float :=
  match word_weights !! word_key with
  | Some stats => weight stats
  | None => lit 1.0
  end.

Definition words_data_of (filtered_df : list Row)
  : list (string * string * string) :=
  map (λ row, (row_word row, row_class row, row_level row)) filtered_df.

Definition weights_of (word_weights : gmap string WordStats)
    (filtered_df : list Row) : list float :=
  map (λ row, lookup_weight word_weights (row_key row)) filtered_df.

(** [u] is the value of [random()] inside [random.choices], [k] the index
    drawn by the fall-back [random.choice].  The result is the value
    returned ([None] or a tuple), or the exception that leaves the
    method. *)
Definition get_weighted_word (data_df : list Row)
    (word_weights : gmap string WordStats) (level : option string)
    (u : float) (k : nat) : PyResult (option (string * string * string)) :=
  let filtered_df := filter_level data_df level in
  match filtered_df with
  | [] => Return None
  | _ :: _ =>
      let words_data := words_data_of filtered_df in
      let weights := weights_of word_weights filtered_df in
      match words_data with
      | [] => Return None
      | _ :: _ =>
          match random_choices words_data weights u with
          | Return selected_word => Return (Some selected_word)
          | Raise _ =>
              match random_choice words_data k with
              | Return selected_word => Return (Some selected_word)
              | Raise e => Raise e
              end
          end
      end
  end.

(** One call on the picker, and a run of calls: the store afterwards and
    how the call or the run ends.  A run ends with the first call that
    raises. *)
Inductive call :=
| UpdateWordPerformance (word word_class level : string)
    (is_correct : bool) (now : string)
| ResetWordStats (word word_class level : string)
| ResetAllStats
| InitializeNewWords (data_df : list Row).

Definition exec (word_weights : gmap string WordStats) (c : call)
  : gmap string WordStats * PyResult unit :=
  match c with
  | UpdateWordPerformance word word_class level is_correct now =>
      update_word_performance word_weights word word_class level
        is_correct now
  | ResetWordStats word word_class level =>
      (reset_word_stats word_weights word word_class level, Return tt)
  | ResetAllStats => (reset_all_stats word_weights, Return tt)
  | InitializeNewWords data_df =>
      (_initialize_new_words data_df word_weights, Return tt)
  end.

Fixpoint run (word_weights : gmap string WordStats) (calls : list call)
  : gmap string WordStats * PyResult unit :=
  match calls with
  | [] => (word_weights, Return tt)
  | c :: rest =>
      match exec word_weights c with
      | (word_weights, Return _) => run word_weights rest
      | (word_weights, Raise e) => (word_weights, Raise e)
      end
  end.

End WordPicker.


(** ** The adaptive weight and the record invariant, in the words of the
    specification *)

Module WeightSpec.
Import PyFloat WordPicker.

(** [accuracy = correct_count / total_attempts] *)
Definition accuracy_of (stats : WordStats) : float :=
  quotient (correct_count stats) (total_attempts stats).

(** Base weight by accuracy bracket. *)
Inductive base_of (accuracy : float) : float → Prop :=
| base_high :
    fleb (lit 0.8) accuracy = true → base_of accuracy (lit 0.3)
| base_moderate :
    fleb (lit 0.6) accuracy = true → fltb accuracy (lit 0.8) = true →
    base_of accuracy (lit 0.7)
| base_low :
    fleb (lit 0.4) accuracy = true → fltb accuracy (lit 0.6) = true →
    base_of accuracy (lit 1.2)
| base_very_low :
    fltb accuracy (lit 0.4) = true → base_of accuracy (lit 2.0).

(** Consecutive-performance multiplier. *)
Inductive consecutive_mult_of (stats : WordStats) : float → Prop :=
| mult_streak :
    (3 ≤ consecutive_correct stats)%N → consecutive_mult_of stats (lit 0.5)
| mult_misses :
    (consecutive_correct stats < 3)%N → (2 ≤ consecutive_wrong stats)%N →
    consecutive_mult_of stats (lit 2.5)
| mult_neutral :
    (consecutive_correct stats < 3)%N → (consecutive_wrong stats < 2)%N →
    consecutive_mult_of stats (lit 1.0).

(** Attempt-count multiplier. *)
Inductive attempt_mult_of (stats : WordStats) : float → Prop :=
| mult_new : (total_attempts stats ≤ 3)%N → attempt_mult_of stats (lit 1.2)
| mult_practiced :
    (10 ≤ total_attempts stats)%N → attempt_mult_of stats (lit 0.9)
| mult_between :
    (3 < total_attempts stats)%N → (total_attempts stats < 10)%N →
    attempt_mult_of stats (lit 1.0).

Definition clamp (x lo hi : float) : float :=
  if fltb x lo then lo else if fltb hi x then hi else x.

(** Exactly one of the two streak counters is non-zero. *)
Definition exactly_one_streak (stats : WordStats) : Prop :=
  (consecutive_correct stats ≠ 0%N ∧ consecutive_wrong stats = 0%N) ∨
  (consecutive_correct stats = 0%N ∧ consecutive_wrong stats ≠ 0%N).

Definition counts_add_up (stats : WordStats) : Prop :=
  total_attempts stats = (correct_count stats + wrong_count stats)%N.

(** What [counts_add_up] gives for the accuracy: there are no more
    correct answers than attempts. *)
Definition counts_bounded (stats : WordStats) : Prop :=
  (correct_count stats ≤ total_attempts stats)%N.

(** What holds of every record at any time: the counts add up, a record
    without attempts has no streak, a record with attempts has exactly
    one. *)
Definition record_invariant (stats : WordStats) : Prop :=
  counts_add_up stats ∧
  (total_attempts stats = 0%N →
     consecutive_correct stats = 0%N ∧ consecutive_wrong stats = 0%N) ∧
  ((0 < total_attempts stats)%N → exactly_one_streak stats).

(** A weight as the picker stores it: a binary64 number between 0.1 and
    5.0. *)
Definition stored_weight (w : float) : Prop :=
  binary64 w ∧ fleb (lit 0.1) w = true ∧ fleb w (lit 5.0) = true.

End WeightSpec.

(** ** More string built-ins *)

Module PyStrOps.
Import PyStr.

(** [s.split(sep)] for a separator of one character: the string is cut
    at every occurrence, and empty pieces are kept.  [cur] is the piece
    being read. *)
Fixpoint split_on_from (sep : ascii) (cur s : string) : list string :=
  match s with
  | EmptyString => [cur]
  | String c s' =>
      if Ascii.eqb c sep then cur :: split_on_from sep EmptyString s'
      else split_on_from sep (cur +:+ String c EmptyString) s'
  end.

Definition split_on (sep : ascii) (s : string) : list string :=
  split_on_from sep EmptyString s.

(** [s.startswith(prefix)], the prefix given by its code points (a
    prefix may hold code points above 255, which no character of [s]
    has). *)
Fixpoint startswith (s : string) (prefix : list N) : bool :=
  match prefix with
  | [] => true
  | n :: prefix' =>
      match s with
      | EmptyString => false
      | String c s' => (N_of_ascii c =? n)%N && startswith s' prefix'
      end
  end.

(** [s[n:]] *)
Fixpoint slice_from (n : nat) (s : string) : string :=
  match n with
  | O => s
  | S n' =>
      match s with
      | EmptyString => EmptyString
      | String _ s' => slice_from n' s'
      end
  end.

(** [s.endswith(suffix)] *)
Fixpoint endswith (s suffix : string) : bool :=
  if String.eqb s suffix then true
  else
    match s with
    | EmptyString => false
    | String _ s' => endswith s' suffix
    end.

(** [c in s] for one character. *)
Fixpoint contains (c : ascii) (s : string) : bool :=
  match s with
  | EmptyString => false
  | String c' s' => Ascii.eqb c' c || contains c s'
  end.

End PyStrOps.

(** ** utils.py: the parser of the translator's answer *)

Module UtilsParse.
Import PyStr PyStrOps.

(** [',', ';', '\n', '|', '-'] *)
Definition separators : list ascii :=
  [","%char; ";"%char; "010"%char; "|"%char; "-"%char].

(** One round of [for sep in separators]: every piece is split again. *)
Definition split_meanings (meanings : list string) (sep : ascii)
  : list string :=
  flat_map (split_on sep) meanings.

(** ['*', '-', U+00E2 U+20AC U+00A2, '1.', '2.', '3.', '4.', '5.'] *)
Definition prefixes_to_remove : list (list N) :=
  [[42]; [45]; [226; 8364; 162]; [49; 46]; [50; 46]; [51; 46]; [52; 46];
   [53; 46]]%N.

Definition remove_prefix (cleaned : string) (prefix : list N) : string :=
  if startswith cleaned prefix
  then strip (slice_from (length prefix) cleaned)
  else cleaned.

Definition clean_meaning (meaning : string) : string :=
  foldl remove_prefix (strip meaning) prefixes_to_remove.

(** [cleaned and len(cleaned) >= 2] *)
Definition keep_meaning (cleaned : string) : bool :=
  truthy cleaned && (2 <=? String.length cleaned)%nat.

Definition parse_llm_response (response : string) : list string :=
  if negb (truthy response) then []
  else
    let meanings := foldl split_meanings [response] separators in
    let cleaned_meanings :=
      List.filter keep_meaning (map clean_meaning meanings) in
    take 10 cleaned_meanings.

End UtilsParse.

(** ** List built-ins *)

Module PyList.

(** [l[:limit]]: a negative [limit] counts from the end. *)
Definition slice_to {A : Type} (l : list A) (limit : Z) : list A :=
  if (0 <=? limit)%Z then take (Z.to_nat limit) l
  else take (length l - Z.to_nat (- limit)) l.

(** [l[-n:]] for [0 < n]: the last [n] elements. *)
Definition slice_last {A : Type} (l : list A) (n : nat) : list A :=
  drop (length l - n) l.

(** [l.sort(key=..., reverse=True)]: the stable sort into descending
    order, [lt a b] being [key(a) < key(b)].  It is written as an
    insertion sort; on keys that [<] orders totally (for floats: no
    nan) every stable sort gives this list. *)
Fixpoint insert_desc {A : Type} (lt : A → A → bool) (x : A) (l : list A)
  : list A :=
  match l with
  | [] => [x]
  | y :: l' => if lt x y then y :: insert_desc lt x l' else x :: y :: l'
  end.

Definition sort_desc {A : Type} (lt : A → A → bool) (l : list A) : list A :=
  foldr (insert_desc lt) [] l.

End PyList.

(** ** word_picker.py: the statistics *)

Module WordPickerStats.
Import PyStr PyStrOps PyExc PyFloat PyList WordPicker.

(** A number that is an [int] on one path and a [float] on another. *)
Inductive number :=
| Int (n : Z)
| Float (x : float).

(** [x * 100] for a float [x]: the [int] is converted first.  (A product
    of floats that is too large is an infinity; nothing is raised.) *)
Definition times_100 (x : float) : float := fmul x (quotient 100 1).

(** [(a / b * 100) if b > 0 else 0] *)
Definition percent_or_zero (a b : N) : PyResult number :=
  if (0 <? b)%N then
    q ← truediv a b; Return (Float (times_100 q))
  else Return (Int 0).

(** [w['total_attempts'] >= 3 and
     w['correct_count'] / w['total_attempts'] >= 0.8] *)
Definition is_mastered (w : WordStats) : PyResult bool :=
  if (3 <=? total_attempts w)%N then
    accuracy ← truediv (correct_count w) (total_attempts w);
    Return (fleb (lit 0.8) accuracy)
  else Return false.

Record LevelStatistics := mkLevelStatistics {
  level_total_words : nat;
  level_total_attempts : N;
  level_total_correct : N;
  average_accuracy : number;
  mastery_level : number
}.

(** [sum(1 for w in level_words if ...)] *)
Fixpoint count_mastered (level_words : list WordStats) : PyResult nat :=
  match level_words with
  | [] => Return O
  | w :: rest =>
      b ← is_mastered w;
      n ← count_mastered rest;
      Return (if b : bool then S n else n)
  end.

(** [items] is [self.word_weights.items()], in the order of the
    dictionary. *)
Definition get_level_statistics (items : list (string * WordStats))
    (level : string) : PyResult LevelStatistics :=
  let level_words :=
    map snd
      (List.filter (λ item, endswith (fst item) ("_" +:+ level)) items) in
  match level_words with
  | [] =>
      Return {| level_total_words := 0;
                level_total_attempts := 0;
                level_total_correct := 0;
                average_accuracy := Float (lit 0.0);
                mastery_level := Float (lit 0.0) |}
  | _ :: _ =>
      let total_words := length level_words in
      let total_attempts :=
        foldl (λ acc w, acc + total_attempts w)%N 0%N level_words in
      let total_correct :=
        foldl (λ acc w, acc + correct_count w)%N 0%N level_words in
      average_accuracy ← percent_or_zero total_correct total_attempts;
      mastered_words ← count_mastered level_words;
      mastery_level ←
        percent_or_zero (N.of_nat mastered_words) (N.of_nat total_words);
      Return {| level_total_words := total_words;
                level_total_attempts := total_attempts;
                level_total_correct := total_correct;
                average_accuracy := average_accuracy;
                mastery_level := mastery_level |}
  end.

(** [parts = word_key.split('_')] with [len(parts) >= 3]: the first three
    parts. *)
Definition key_parts (word_key : string)
  : option (string * string * string) :=
  match split_on "_"%char word_key with
  | word :: word_class :: word_level :: _ =>
      Some (word, word_class, word_level)
  | _ => None
  end.

(** [level and word_level != level.lower()] *)
Definition other_level (level : option string) (word_level : string)
  : bool :=
  match level with
  | Some l => truthy l && negb (String.eqb word_level (lower l))
  | None => false
  end.

Record DifficultWord := mkDifficultWord {
  difficult_word : string;
  difficult_class : string;
  difficult_level : string;
  difficult_weight : float;
  difficult_accuracy : number;
  difficult_attempts : N;
  difficult_consecutive_wrong : N
}.

(** The body of the loop of [get_difficult_words] for one item: the
    entry appended, if any. *)
Definition difficult_entry (level : option string)
    (item : string * WordStats) : PyResult (option DifficultWord) :=
  let '(word_key, stats) := item in
  match key_parts word_key with
  | Some (word, word_class, word_level) =>
      if other_level level word_level then Return None
      else if (2 <=? total_attempts stats)%N && fleb (lit 1.5) (weight stats)
      then
        accuracy ←
          percent_or_zero (correct_count stats) (total_attempts stats);
        Return (Some {| difficult_word := word;
                        difficult_class := word_class;
                        difficult_level := word_level;
                        difficult_weight := weight stats;
                        difficult_accuracy := accuracy;
                        difficult_attempts := total_attempts stats;
                        difficult_consecutive_wrong :=
                          consecutive_wrong stats |})
      else Return None
  | None => Return None
  end.

(** A loop that appends at most one entry per item and ends with the
    first exception. *)
Fixpoint collect {A B : Type} (body : A → PyResult (option B))
    (items : list A) : PyResult (list B) :=
  match items with
  | [] => Return []
  | item :: rest =>
      e ← body item;
      es ← collect body rest;
      Return (match e with Some x => x :: es | None => es end)
  end.

Definition get_difficult_words (items : list (string * WordStats))
    (level : option string) (limit : Z) : PyResult (list DifficultWord) :=
  difficult_words ← collect (difficult_entry level) items;
  Return (slice_to
          (sort_desc
             (λ x y, fltb (difficult_weight x) (difficult_weight y))
             difficult_words)
          limit).

Record MasteredWord := mkMasteredWord {
  mastered_word : string;
  mastered_class : string;
  mastered_level : string;
  mastered_weight : float;
  mastered_accuracy : float;
  mastered_attempts : N;
  mastered_consecutive_correct : N
}.

Definition mastered_entry (level : option string)
    (item : string * WordStats) : PyResult (option MasteredWord) :=
  let '(word_key, stats) := item in
  match key_parts word_key with
  | Some (word, word_class, word_level) =>
      if other_level level word_level then Return None
      else
        mastered ← is_mastered stats;
        if mastered : bool then
          q ← truediv (correct_count stats) (total_attempts stats);
          Return (Some {| mastered_word := word;
                          mastered_class := word_class;
                          mastered_level := word_level;
                          mastered_weight := weight stats;
                          mastered_accuracy := times_100 q;
                          mastered_attempts := total_attempts stats;
                          mastered_consecutive_correct :=
                            consecutive_correct stats |})
        else Return None
  | None => Return None
  end.

(** [(a1, c1) < (a2, c2)] on tuples of a float and an int: the first
    components decide unless they are equal. *)
Definition mastered_lt (x y : MasteredWord) : bool :=
  if SFeqb (mastered_accuracy x) (mastered_accuracy y)
  then (mastered_consecutive_correct x <? mastered_consecutive_correct y)%N
  else fltb (mastered_accuracy x) (mastered_accuracy y).

Definition get_mastered_words (items : list (string * WordStats))
    (level : option string) (limit : Z) : PyResult (list MasteredWord) :=
  mastered_words ← collect (mastered_entry level) items;
  Return (slice_to (sort_desc mastered_lt mastered_words) limit).

End WordPickerStats.

(** ** translator.py *)

Module Translator.
Import PyStr UtilsParse.

(** What one call of the chat API gives: an exception, or the content of
    the first choice. *)
Inductive api_result :=
| ApiError
| ApiContent (content : string).

(** The pairs of the literal [fallback_dict], in the order of the
    source. *)
Definition fallback_pairs : list (string * list string) :=
  [("be", ["adalah"; "menjadi"; "berada"]);
   ("have", ["mempunyai"; "memiliki"; "punya"]);
   ("do", ["melakukan"; "mengerjakan"; "berbuat"]);
   ("say", ["berkata"; "mengatakan"; "mengucapkan"]);
   ("get", ["mendapat"; "memperoleh"; "mengambil"]);
   ("make", ["membuat"; "menciptakan"; "menjadikan"]);
   ("go", ["pergi"; "berjalan"; "berangkat"]);
   ("know", ["tahu"; "mengetahui"; "kenal"]);
   ("take", ["mengambil"; "membawa"; "menerima"]);
   ("see", ["melihat"; "memandang"; "menonton"]);
   ("come", ["datang"; "tiba"; "hadir"]);
   ("think", ["berpikir"; "mengira"; "menganggap"]);
   ("look", ["melihat"; "menatap"; "tampak"]);
   ("want", ["ingin"; "mau"; "menginginkan"]);
   ("give", ["memberi"; "memberikan"; "menyerahkan"]);
   ("use", ["menggunakan"; "memakai"; "menggunakan"]);
   ("find", ["menemukan"; "mencari"; "mendapati"]);
   ("tell", ["menceritakan"; "memberitahu"; "mengabarkan"]);
   ("ask", ["bertanya"; "meminta"; "menanyakan"]);
   ("work", ["bekerja"; "kerja"; "pekerjaan"]);
   ("feel", ["merasa"; "merasakan"; "perasaan"]);
   ("try", ["mencoba"; "berusaha"; "coba"]);
   ("leave", ["meninggalkan"; "pergi"; "keluar"]);
   ("call", ["memanggil"; "menelepon"; "menyebut"]);
   ("time", ["waktu"; "masa"; "kali"]);
   ("person", ["orang"; "pribadi"; "individu"]);
   ("year", ["tahun"; "tahunan"]); ("way", ["cara"; "jalan"; "metode"]);
   ("day", ["hari"; "siang"]); ("thing", ["hal"; "benda"; "sesuatu"]);
   ("man", ["pria"; "laki-laki"; "orang"]); ("world", ["dunia"; "bumi"]);
   ("life", ["kehidupan"; "hidup"; "nyawa"]);
   ("hand", ["tangan"; "kaki tangan"]);
   ("part", ["bagian"; "sebagian"; "komponen"]);
   ("child", ["anak"; "bocah"; "kecil"]); ("eye", ["mata"; "pandangan"]);
   ("woman", ["wanita"; "perempuan"; "ibu"]);
   ("place", ["tempat"; "lokasi"; "wilayah"]);
   ("work", ["pekerjaan"; "kerja"; "tugas"]); ("week", ["minggu"; "pekan"]);
   ("case", ["kasus"; "hal"; "keadaan"]);
   ("point", ["poin"; "titik"; "hal"]);
   ("home", ["rumah"; "tempat tinggal"; "kampung halaman"]);
   ("water", ["air"; "cairan"]); ("room", ["ruang"; "kamar"; "tempat"]);
   ("mother", ["ibu"; "mama"]); ("area", ["area"; "daerah"; "wilayah"]);
   ("money", ["uang"; "duit"; "modal"]);
   ("story", ["cerita"; "kisah"; "dongeng"]);
   ("fact", ["fakta"; "kenyataan"; "hal"]); ("month", ["bulan"]);
   ("lot", ["banyak"; "sekali"; "tempat"]);
   ("right", ["benar"; "kanan"; "hak"]);
   ("study", ["belajar"; "studi"; "penelitian"]);
   ("book", ["buku"; "kitab"]); ("word", ["kata"; "perkataan"; "ucapan"]);
   ("business", ["bisnis"; "usaha"; "perdagangan"]);
   ("issue", ["masalah"; "isu"; "terbitan"]);
   ("side", ["sisi"; "samping"; "pihak"]);
   ("kind", ["jenis"; "macam"; "baik hati"]);
   ("head", ["kepala"; "ketua"; "pimpinan"]); ("house", ["rumah"; "gedung"]);
   ("service", ["layanan"; "jasa"; "dinas"]);
   ("friend", ["teman"; "sahabat"; "kawan"]);
   ("father", ["ayah"; "bapak"; "papa"]);
   ("power", ["kekuatan"; "tenaga"; "listrik"]); ("hour", ["jam"; "waktu"]);
   ("game", ["permainan"; "pertandingan"; "game"]);
   ("line", ["garis"; "baris"; "antrian"]);
   ("end", ["akhir"; "ujung"; "tamat"]); ("member", ["anggota"; "peserta"]);
   ("law", ["hukum"; "undang-undang"; "aturan"]);
   ("car", ["mobil"; "kereta"]); ("city", ["kota"; "perkotaan"]);
   ("community", ["komunitas"; "masyarakat"; "lingkungan"]);
   ("name", ["nama"; "sebutan"]); ("president", ["presiden"; "ketua"]);
   ("team", ["tim"; "kelompok"; "regu"]);
   ("minute", ["menit"; "kecil"; "detail"]);
   ("idea", ["ide"; "gagasan"; "pikiran"]); ("kid", ["anak"; "bocah"]);
   ("body", ["tubuh"; "badan"; "mayat"]);
   ("information", ["informasi"; "keterangan"; "data"]);
   ("back", ["punggung"; "belakang"; "kembali"]);
   ("parent", ["orang tua"; "induk"]);
   ("face", ["wajah"; "muka"; "menghadapi"]);
   ("others", ["yang lain"; "orang lain"]);
   ("level", ["tingkat"; "level"; "taraf"]);
   ("office", ["kantor"; "jabatan"]); ("door", ["pintu"; "gerbang"]);
   ("health", ["kesehatan"; "sehat"]); ("person", ["orang"; "pribadi"]);
   ("art", ["seni"; "kesenian"]); ("war", ["perang"; "peperangan"]);
   ("history", ["sejarah"; "riwayat"]);
   ("party", ["pesta"; "partai"; "kelompok"]);
   ("result", ["hasil"; "akibat"; "kesimpulan"]);
   ("change", ["perubahan"; "ganti"; "uang kembalian"]);
   ("morning", ["pagi"; "subuh"]); ("reason", ["alasan"; "sebab"]);
   ("research", ["penelitian"; "riset"]);
   ("girl", ["gadis"; "perempuan"; "anak perempuan"]);
   ("guy", ["lelaki"; "pria"; "orang"]);
   ("moment", ["saat"; "momen"; "waktu"]);
   ("air", ["udara"; "angin"; "penampilan"]);
   ("teacher", ["guru"; "pengajar"]);
   ("force", ["kekuatan"; "memaksa"; "pasukan"]);
   ("education", ["pendidikan"; "pengajaran"]);
   ("good", ["baik"; "bagus"; "hebat"]); ("new", ["baru"; "segar"]);
   ("first", ["pertama"; "awal"]);
   ("last", ["terakhir"; "lalu"; "bertahan"]); ("long", ["panjang"; "lama"]);
   ("great", ["hebat"; "besar"; "bagus"]); ("little", ["kecil"; "sedikit"]);
   ("own", ["sendiri"; "memiliki"]); ("other", ["lain"; "yang lain"]);
   ("old", ["tua"; "lama"]); ("right", ["benar"; "kanan"]);
   ("big", ["besar"; "raya"]); ("high", ["tinggi"; "naik"]);
   ("different", ["berbeda"; "beda"]); ("small", ["kecil"; "kecil-kecil"]);
   ("large", ["besar"; "luas"]); ("next", ["berikutnya"; "selanjutnya"]);
   ("early", ["awal"; "dini"; "cepat"]); ("young", ["muda"; "remaja"]);
   ("important", ["penting"; "utama"]); ("few", ["sedikit"; "beberapa"]);
   ("public", ["umum"; "publik"; "rakyat"]);
   ("bad", ["buruk"; "jelek"; "jahat"]); ("same", ["sama"; "serupa"]);
   ("able", ["mampu"; "bisa"; "sanggup"])].

(** A dictionary literal: a later pair replaces an earlier one that has
    the same key. *)
Definition dict_literal {V : Type} (pairs : list (string * V))
  : gmap string V :=
  foldl (λ d pair, <[fst pair := snd pair]> d) ∅ pairs.

Definition fallback_dict : gmap string (list string) :=
  dict_literal fallback_pairs.

Definition _get_fallback_translation (word word_class : string)
  : list string :=
  let word_lower := lower word in
  match fallback_dict !! word_lower with
  | Some meanings => meanings
  | None => ["[Terjemahan untuk '" +:+ word +:+ "']"]
  end.

(** [for attempt in range(self.max_retries)], from [attempt] on with
    [remaining] rounds left; [api attempt] is what the API call of that
    round gives.  [None]: the loop ends without [return]. *)
Fixpoint attempts (api : nat → api_result) (attempt remaining : nat)
  : option (list string) :=
  match remaining with
  | O => None
  | S remaining' =>
      match api attempt with
      | ApiContent content =>
          let translation_text := strip content in
          let meanings := parse_llm_response translation_text in
          match meanings with
          | _ :: _ => Some meanings
          | [] => attempts api (S attempt) remaining'
          end
      | ApiError => attempts api (S attempt) remaining'
      end
  end.

(** [f"{word.lower()}_{word_class.lower()}"] *)
Definition cache_key (word word_class : string) : string :=
  lower word +:+ "_" +:+ lower word_class.

(** The meanings returned and the cache afterwards. *)
Definition translate_word (translation_cache : gmap string (list string))
    (max_retries : Z) (api : nat → api_result) (word word_class : string)
  : list string * gmap string (list string) :=
  let cache_key := cache_key word word_class in
  match translation_cache !! cache_key with
  | Some meanings => (meanings, translation_cache)
  | None =>
      match attempts api 0 (Z.to_nat max_retries) with
      | Some meanings =>
          (meanings, <[cache_key := meanings]> translation_cache)
      | None =>
          (_get_fallback_translation word word_class, translation_cache)
      end
  end.

End Translator.

(** ** game.py: history, session statistics and high scores *)

Module Game.
Import PyStr PyList.

Record WordEntry := mkWordEntry {
  entry_word : string;
  entry_class : string;
  entry_level : string;
  entry_meanings : list string;
  entry_timestamp : string
}.

(** [self.word_history], with its two lists. *)
Record WordHistory := mkWordHistory {
  recent_words : list WordEntry;
  wrong_words : list WordEntry
}.

(** [now] is the time stamp. *)
Definition _add_word_to_history (word_history : WordHistory)
    (word word_class level : string) (is_correct : bool)
    (meanings : list string) (now : string) : WordHistory :=
  let word_entry :=
    {| entry_word := word;
       entry_class := word_class;
       entry_level := level;
       entry_meanings := meanings;
       entry_timestamp := now |} in
  let recent_words := word_entry :: recent_words word_history in
  let recent_words :=
    if (50 <? length recent_words)%nat then take 50 recent_words
    else recent_words in
  let wrong_words :=
    if negb is_correct then
      let wrong_words := word_entry :: wrong_words word_history in
      if (100 <? length wrong_words)%nat then take 100 wrong_words
      else wrong_words
    else wrong_words word_history in
  {| recent_words := recent_words; wrong_words := wrong_words |}.

Record LevelStat := mkLevelStat {
  attempted : N;
  correct : N
}.

Record WrongAnswer := mkWrongAnswer {
  wrong_word : string;
  wrong_class : string;
  wrong_level : string;
  user_answer : string;
  correct_meanings : list string
}.

(** [self.session_stats] as [_play_game] creates it; [end_time] and
    [final_score] are the keys that [_end_game] adds. *)
Record SessionStats := mkSessionStats {
  start_time : option string;
  words_attempted : N;
  words_correct : N;
  current_streak : N;
  best_streak : N;
  level_stats : gmap string LevelStat;
  wrong_answers : list WrongAnswer;
  mode : string;
  target_level : option string;
  end_time : option string;
  final_score : option Z
}.

Definition set_counts (session_stats : SessionStats)
    (words_attempted words_correct : N)
    (level_stats : gmap string LevelStat) : SessionStats :=
  {| start_time := start_time session_stats;
     words_attempted := words_attempted;
     words_correct := words_correct;
     current_streak := current_streak session_stats;
     best_streak := best_streak session_stats;
     level_stats := level_stats;
     wrong_answers := wrong_answers session_stats;
     mode := mode session_stats;
     target_level := target_level session_stats;
     end_time := end_time session_stats;
     final_score := final_score session_stats |}.

Definition _update_session_stats (session_stats : SessionStats)
    (word_level : string) (is_correct : bool) : SessionStats :=
  let level_stats :=
    match level_stats session_stats !! word_level with
    | None =>
        <[word_level := {| attempted := 0; correct := 0 |}]>
          (level_stats session_stats)
    | Some _ => level_stats session_stats
    end in
  match level_stats !! word_level with
  | None => session_stats
  | Some level_stat =>
      if is_correct then
        set_counts session_stats
          (words_attempted session_stats + 1)
          (words_correct session_stats + 1)
          (<[word_level := {| attempted := attempted level_stat + 1;
                              correct := correct level_stat + 1 |}]>
             level_stats)
      else
        set_counts session_stats
          (words_attempted session_stats + 1)
          (words_correct session_stats)
          (<[word_level := {| attempted := attempted level_stat + 1;
                              correct := correct level_stat |}]>
             level_stats)
  end.

(** The dictionary that [_play_game] starts a session with; [now] is the
    time stamp. *)
Definition new_session (now mode : string) (level : option string)
  : SessionStats :=
  {| start_time := Some now;
     words_attempted := 0;
     words_correct := 0;
     current_streak := 0;
     best_streak := 0;
     level_stats := ∅;
     wrong_answers := [];
     mode := mode;
     target_level := level;
     end_time := None;
     final_score := None |}.

(** [self.top_scores]; a key that the loaded file lacks is [None]. *)
Record TopScores := mkTopScores {
  overall : option Z;
  by_level : option (gmap string Z);
  by_mode : option (gmap string Z);
  sessions : option (list SessionStats)
}.

(** The scores and the history of a first run, when no file exists:
    [default_scores] and [default_history]. *)
Definition default_scores : TopScores :=
  {| overall := Some 0%Z;
     by_level :=
       Some {[ "a1" := 0%Z; "a2" := 0%Z; "b1" := 0%Z; "b2" := 0%Z;
               "c1" := 0%Z; "c2" := 0%Z ]};
     by_mode := Some {[ "custom" := 0%Z; "adventure" := 0%Z ]};
     sessions := Some [] |}.

Definition default_history : WordHistory :=
  {| recent_words := []; wrong_words := [] |}.

(** [if self.current_score > scores.get(key, 0):
       scores[key] = self.current_score] *)
Definition record_score (scores : gmap string Z) (key : string)
    (current_score : Z) : gmap string Z :=
  if (default 0 (scores !! key) <? current_score)%Z
  then <[key := current_score]> scores
  else scores.

(** The scores and the session afterwards; printing and the final
    prompt are left out. *)
Definition _end_game (top_scores : TopScores) (current_score : Z)
    (session_stats : SessionStats) (mode : string) (level : option string)
    (now : string) : TopScores * SessionStats :=
  let overall :=
    if (default 0 (overall top_scores) <? current_score)%Z
    then Some current_score
    else overall top_scores in
  let by_level :=
    match level with
    | Some l =>
        if String.eqb mode "custom" && truthy l
        then Some (record_score (default ∅ (by_level top_scores)) l
                     current_score)
        else by_level top_scores
    | None => by_level top_scores
    end in
  let by_mode :=
    Some (record_score (default ∅ (by_mode top_scores)) mode current_score) in
  let session_stats :=
    {| start_time := start_time session_stats;
       words_attempted := words_attempted session_stats;
       words_correct := words_correct session_stats;
       current_streak := current_streak session_stats;
       best_streak := best_streak session_stats;
       level_stats := level_stats session_stats;
       wrong_answers := wrong_answers session_stats;
       mode := Game.mode session_stats;
       target_level := target_level session_stats;
       end_time := Some now;
       final_score := Some current_score |} in
  let sessions := default [] (sessions top_scores) ++ [session_stats] in
  let sessions :=
    if (20 <? length sessions)%nat then slice_last sessions 20
    else sessions in
  ({| overall := overall;
      by_level := by_level;
      by_mode := by_mode;
      sessions := Some sessions |},
   session_stats).

End Game.

(** ** game.py: the game loop *)

Module GamePlay.
Import PyStr PyExc PyFloat PyRandom WordPicker Utils Translator Game.

(** The objects that a game reads and writes: the rows and the store of
    the word picker, the settings and the cache of the translator, and
    the game's own score, session, high scores and history. *)
Record GameState := mkGameState {
  data_df : list Row;
  word_weights : gmap string WordStats;
  max_retries : Z;
  translation_cache : gmap string (list string);
  current_score : Z;
  session_stats : SessionStats;
  top_scores : TopScores;
  word_history : WordHistory
}.

(** What one round of the loop takes from outside: the index drawn by
    [random.choice(adventure_levels)], the draws inside
    [get_weighted_word], what the API calls of [translate_word] give, the
    lines typed at the first prompt and at the prompt after a hint, and
    the time stamps. *)
Record Turn := mkTurn {
  level_index : nat;
  u : float;
  k : nat;
  api : nat → api_result;
  first_line : string;
  second_line : string;
  now_seen : string;
  now_history : string;
  now_end : string
}.

(** How one round ends: the loop goes on, the loop is left by [break],
    the method returns after [_end_game], or an exception leaves it
    (nothing in [_play_game] catches an exception of the picker). *)
Inductive outcome :=
| Continue (g : GameState)
| Stopped (g : GameState)
| Ended (g : GameState)
| Raised (e : PyExn).

Definition set_picker (g : GameState)
    (word_weights : gmap string WordStats) : GameState :=
  {| data_df := data_df g;
     word_weights := word_weights;
     max_retries := max_retries g;
     translation_cache := translation_cache g;
     current_score := current_score g;
     session_stats := session_stats g;
     top_scores := top_scores g;
     word_history := word_history g |}.

Definition set_cache (g : GameState)
    (translation_cache : gmap string (list string)) : GameState :=
  {| data_df := data_df g;
     word_weights := word_weights g;
     max_retries := max_retries g;
     translation_cache := translation_cache;
     current_score := current_score g;
     session_stats := session_stats g;
     top_scores := top_scores g;
     word_history := word_history g |}.

Definition set_score (g : GameState) (current_score : Z) : GameState :=
  {| data_df := data_df g;
     word_weights := word_weights g;
     max_retries := max_retries g;
     translation_cache := translation_cache g;
     current_score := current_score;
     session_stats := session_stats g;
     top_scores := top_scores g;
     word_history := word_history g |}.

Definition set_session (g : GameState) (session_stats : SessionStats)
  : GameState :=
  {| data_df := data_df g;
     word_weights := word_weights g;
     max_retries := max_retries g;
     translation_cache := translation_cache g;
     current_score := current_score g;
     session_stats := session_stats;
     top_scores := top_scores g;
     word_history := word_history g |}.

Definition set_top_scores (g : GameState) (top_scores : TopScores)
  : GameState :=
  {| data_df := data_df g;
     word_weights := word_weights g;
     max_retries := max_retries g;
     translation_cache := translation_cache g;
     current_score := current_score g;
     session_stats := session_stats g;
     top_scores := top_scores;
     word_history := word_history g |}.

Definition set_history (g : GameState) (word_history : WordHistory)
  : GameState :=
  {| data_df := data_df g;
     word_weights := word_weights g;
     max_retries := max_retries g;
     translation_cache := translation_cache g;
     current_score := current_score g;
     session_stats := session_stats g;
     top_scores := top_scores g;
     word_history := word_history |}.

(** [session_stats['current_streak']] and [session_stats['best_streak']]
    replaced. *)
Definition set_streaks (session_stats : SessionStats)
    (current_streak best_streak : N) : SessionStats :=
  {| start_time := start_time session_stats;
     words_attempted := words_attempted session_stats;
     words_correct := words_correct session_stats;
     current_streak := current_streak;
     best_streak := best_streak;
     level_stats := level_stats session_stats;
     wrong_answers := wrong_answers session_stats;
     mode := mode session_stats;
     target_level := target_level session_stats;
     end_time := end_time session_stats;
     final_score := final_score session_stats |}.

(** [session_stats['wrong_answers'].append(wrong_answer_detail)] *)
Definition append_wrong_answer (session_stats : SessionStats)
    (wrong_answer_detail : WrongAnswer) : SessionStats :=
  {| start_time := start_time session_stats;
     words_attempted := words_attempted session_stats;
     words_correct := words_correct session_stats;
     current_streak := current_streak session_stats;
     best_streak := best_streak session_stats;
     level_stats := level_stats session_stats;
     wrong_answers := wrong_answers session_stats ++ [wrong_answer_detail];
     mode := mode session_stats;
     target_level := target_level session_stats;
     end_time := end_time session_stats;
     final_score := final_score session_stats |}.

(** [if word_level not in self.session_stats['level_stats']: ...] *)
Definition init_level (session_stats : SessionStats) (word_level : string)
  : SessionStats :=
  match level_stats session_stats !! word_level with
  | None =>
      set_counts session_stats (words_attempted session_stats)
        (words_correct session_stats)
        (<[word_level := {| attempted := 0; correct := 0 |}]>
           (level_stats session_stats))
  | Some _ => session_stats
  end.

(** The state after the constructors on a first run: no weights file
    ([WordPicker.__init__] loads an empty dictionary and initialises the
    rows), an empty cache, the default scores and history.  The session
    is the dictionary of [OxfordVocabGame.__init__] with the keys that
    [_play_game] adds. *)
Definition first_run (data_df : list Row) (max_retries : Z) : GameState :=
  {| data_df := data_df;
     word_weights := _initialize_new_words data_df ∅;
     max_retries := max_retries;
     translation_cache := ∅;
     current_score := 0;
     session_stats :=
       {| start_time := None;
          words_attempted := 0;
          words_correct := 0;
          current_streak := 0;
          best_streak := 0;
          level_stats := ∅;
          wrong_answers := [];
          mode := "";
          target_level := None;
          end_time := None;
          final_score := None |};
     top_scores := default_scores;
     word_history := default_history |}.

(** The start of [_play_game]: the score and the session are new. *)
Definition start_game (g : GameState) (mode : string)
    (level : option string) (now : string) : GameState :=
  set_session (set_score g 0) (new_session now mode level).

(** The word of the round. *)
Definition select_word (g : GameState) (mode : string)
    (level : option string) (t : Turn)
  : PyResult (option (string * string * string)) :=
  if String.eqb mode "adventure" then
    let adventure_levels := ["a1"; "a2"; "b1"; "b2"] in
    match random_choice adventure_levels (level_index t) with
    | Return current_level =>
        get_weighted_word (data_df g) (word_weights g) (Some current_level)
          (u t) (k t)
    | Raise e => Raise e
    end
  else get_weighted_word (data_df g) (word_weights g) level (u t) (k t).

(** The three calls that follow a skipped word and a wrong answer:
    [update_word_performance(..., False)],
    [_add_word_to_history(..., False, possible_meanings)] and
    [_update_session_stats(word_level, False)].  An exception of the
    first leaves the method. *)
Definition record_failure (g : GameState)
    (word word_class word_level : string) (possible_meanings : list string)
    (t : Turn) : PyResult GameState :=
  let updated :=
    update_word_performance (word_weights g) word word_class word_level
      false (now_seen t) in
  match snd updated with
  | Raise e => Raise e
  | Return _ =>
      let g := set_picker g (fst updated) in
      let g :=
        set_history g
          (_add_word_to_history (word_history g) word word_class word_level
             false possible_meanings (now_history t)) in
      Return
        (set_session g
           (_update_session_stats (session_stats g) word_level false))
  end.

(** [self._end_game(mode, level)] on the state. *)
Definition end_game (g : GameState) (mode : string) (level : option string)
    (now : string) : GameState :=
  let ended :=
    _end_game (top_scores g) (current_score g) (session_stats g) mode level
      now in
  set_session (set_top_scores g (fst ended)) (snd ended).

(** The branch of a correct answer; an exception of
    [update_word_performance(..., True)] leaves the method. *)
Definition record_success (g : GameState)
    (word word_class word_level : string) (possible_meanings : list string)
    (t : Turn) : PyResult GameState :=
  let g := set_score g (current_score g + 1) in
  let g :=
    set_session g
      (set_streaks (session_stats g)
         (current_streak (session_stats g) + 1)
         (best_streak (session_stats g))) in
  let g :=
    set_session g (_update_session_stats (session_stats g) word_level true) in
  let g :=
    if (best_streak (session_stats g) <? current_streak (session_stats g))%N
    then
      set_session g
        (set_streaks (session_stats g) (current_streak (session_stats g))
           (current_streak (session_stats g)))
    else g in
  let updated :=
    update_word_performance (word_weights g) word word_class word_level
      true (now_seen t) in
  match snd updated with
  | Raise e => Raise e
  | Return _ =>
      let g := set_picker g (fst updated) in
      Return
        (set_history g
           (_add_word_to_history (word_history g) word word_class
              word_level true possible_meanings (now_history t)))
  end.

(** One round of [while True] in [_play_game]. *)
Definition turn (g : GameState) (mode : string) (level : option string)
    (t : Turn) : outcome :=
  match select_word g mode level t with
  | Raise e => Raised e
  | Return None => Stopped g
  | Return (Some (word, word_class, word_level)) =>
      let g := set_session g (init_level (session_stats g) word_level) in
      let translated :=
        translate_word (translation_cache g) (max_retries g) (api t) word
          word_class in
      let possible_meanings := fst translated in
      let g := set_cache g (snd translated) in
      match possible_meanings with
      | [] => Continue g
      | _ :: _ =>
          let user_answer := strip (first_line t) in
          if String.eqb (lower user_answer) "quit" then
            Ended (end_game g mode level (now_end t))
          else if String.eqb (lower user_answer) "skip" then
            let wrong_answer_detail :=
              {| wrong_word := word;
                 wrong_class := word_class;
                 wrong_level := word_level;
                 user_answer := "[SKIPPED]";
                 correct_meanings := possible_meanings |} in
            let g :=
              set_session g
                (append_wrong_answer (session_stats g)
                   wrong_answer_detail) in
            match
              record_failure g word word_class word_level
                possible_meanings t
            with
            | Return g => Continue g
            | Raise e => Raised e
            end
          else
            let user_answer :=
              if String.eqb (lower user_answer) "hint"
              then strip (second_line t)
              else user_answer in
            let is_correct :=
              validate_user_input user_answer possible_meanings in
            if is_correct then
              match
                record_success g word word_class word_level
                  possible_meanings t
              with
              | Return g => Continue g
              | Raise e => Raised e
              end
            else
              let wrong_answer_detail :=
                {| wrong_word := word;
                   wrong_class := word_class;
                   wrong_level := word_level;
                   user_answer := user_answer;
                   correct_meanings := possible_meanings |} in
              let g :=
                set_session g
                  (append_wrong_answer (session_stats g)
                     wrong_answer_detail) in
              let g :=
                set_session g
                  (set_streaks (session_stats g) 0
                     (best_streak (session_stats g))) in
              match
                record_failure g word word_class word_level
                  possible_meanings t
              with
              | Return g => Ended (end_game g mode level (now_end t))
              | Raise e => Raised e
              end
      end
  end.

(** The rounds of one game, as long as the loop goes on. *)
Fixpoint play (g : GameState) (mode : string) (level : option string)
    (turns : list Turn) : outcome :=
  match turns with
  | [] => Continue g
  | t :: rest =>
      match turn g mode level t with
      | Continue g' => play g' mode level rest
      | o => o
      end
  end.

Definition _play_game (g : GameState) (mode : string)
    (level : option string) (now : string) (turns : list Turn) : outcome :=
  play (start_game g mode level now) mode level turns.

End GamePlay.

(** ** Notions used to state the properties of the store *)

Module StoreSpec.
Import PyExc PyFloat WordPicker.

(** The stored weight is the adaptive weight of the record's counters. *)
Definition weight_consistent (stats : WordStats) : Prop :=
  _calculate_adaptive_weight stats = Return (weight stats).

(** The record that [update_word_performance] works on: the one of the
    key, or a fresh one, with the answer counted. *)
Definition counted (word_weights : gmap string WordStats) (key : string)
    (is_correct : bool) (now : string) : WordStats :=
  record_attempt (default new_word_stats (word_weights !! key))
    is_correct now.

(** The answers to one word, one after the other: each with its outcome
    and time stamp. *)
Definition answers (word word_class level : string)
    (outcomes : list (bool * string)) : list call :=
  map (λ o, UpdateWordPerformance word word_class level (fst o) (snd o))
    outcomes.

(** The number of outcomes [b], and the length of the run of [b] at the
    end of the outcomes. *)
Definition tally (b : bool) (outcomes : list (bool * string)) : nat :=
  length (List.filter (λ o, Bool.eqb (fst o) b) outcomes).

Fixpoint run_length (b : bool) (outcomes : list (bool * string)) : nat :=
  match outcomes with
  | [] => O
  | o :: rest => if Bool.eqb (fst o) b then S (run_length b rest) else O
  end.

Definition streak (b : bool) (outcomes : list (bool * string)) : nat :=
  run_length b (rev outcomes).

End StoreSpec.

(** ** Notions used to state the properties of the translator and of the
    session statistics *)

Module TranslatorSpec.
Import PyStr.

(** A list of meanings that can be asked for: it is not empty and none of
    its meanings is blank. *)
Definition usable (meanings : list string) : Prop :=
  meanings ≠ [] ∧ Forall (λ meaning, all_space meaning = false) meanings.

Definition usable_cache (translation_cache : gmap string (list string))
  : Prop :=
  map_Forall (λ _, usable) translation_cache.

(** [usable], as a test. *)
Definition usableb (meanings : list string) : bool :=
  match meanings with
  | [] => false
  | _ => forallb (λ meaning, negb (all_space meaning)) meanings
  end.

(** Every character of the response is whitespace or a separator. *)
Definition only_separators (response : string) : Prop :=
  ∀ c, PyStrOps.contains c response = true →
       isspace c = true ∨ c ∈ UtilsParse.separators.

End TranslatorSpec.

Module GameSpec.
Import Game.

(** The sum of one counter over the levels of [level_stats]. *)
Definition total_of (f : LevelStat → N) (level_stats : gmap string LevelStat)
  : N :=
  map_fold (λ _ level_stat acc, f level_stat + acc)%N 0%N level_stats.

(** The overall counters are the sums of the counters by level, and no
    level has more correct answers than attempts. *)
Definition session_consistent (session_stats : SessionStats) : Prop :=
  words_attempted session_stats
  = total_of attempted (level_stats session_stats) ∧
  words_correct session_stats
  = total_of correct (level_stats session_stats) ∧
  map_Forall (λ _ level_stat, (correct level_stat ≤ attempted level_stat)%N)
    (level_stats session_stats).

End GameSpec.

(** ** Notions used to state the properties of a game *)

Module GamePlaySpec.
Import WordPicker Game GamePlay.


(** The state that an outcome carries, if any. *)
Definition state_of (o : outcome) : option GameState :=
  match o with
  | Continue g | Stopped g | Ended g => Some g
  | Raised _ => None
  end.

Definition is_update (c : call) : Prop :=
  match c with
  | UpdateWordPerformance _ _ _ _ _ => True
  | _ => False
  end.

End GamePlaySpec.

Example validate_exact :
  Utils.validate_user_input "rumah" ["rumah"; "tempat tinggal"] = true.
Proof. vm_compute. reflexivity. Qed.

Example validate_short :
  Utils.validate_user_input "ke" ["ke arah"; "menuju"] = false.
Proof. vm_compute. reflexivity. Qed.

Example validate_reordered :
  Utils.validate_user_input "tinggal tempat" ["rumah"; "tempat tinggal"] = true.
Proof. vm_compute. reflexivity. Qed.

Example validate_blank :
  Utils.validate_user_input "  " [" "] = true.
Proof. vm_compute. reflexivity. Qed.

Example split_ex :
  PyStr.split "  Tempat   tinggal " = ["Tempat"; "tinggal"].
Proof. vm_compute. reflexivity. Qed.

Example weight_three_correct :
  WordPicker.weight <$>
    ((WordPicker.run ∅
       [WordPicker.UpdateWordPerformance "cat" "noun" "a1" true "t1";
        WordPicker.UpdateWordPerformance "cat" "noun" "a1" true "t2";
        WordPicker.UpdateWordPerformance "cat" "noun" "a1" true "t3"]).1
     !! "cat_noun_a1")
  = Some (PyFloat.fmul (PyFloat.fmul (PyFloat.lit 0.3) (PyFloat.lit 0.5))
            (PyFloat.lit 1.2)).
Proof. vm_compute. reflexivity. Qed.

Example draw_ex :
  WordPicker.get_weighted_word
    [WordPicker.mkRow "cat" "noun" "a1"; WordPicker.mkRow "dog" "noun" "a2"]
    ∅ (Some "A2") (PyFloat.lit 0.5) 0
  = PyExc.Return (Some ("dog", "noun", "a2")).
Proof. vm_compute. reflexivity. Qed.

Example bisect_ex :
  PyRandom.bisect [PyFloat.lit 1.0; PyFloat.lit 2.0; PyFloat.lit 3.0]
    (PyFloat.lit 2.0) 0 2 = Some 2%nat.
Proof. vm_compute. reflexivity. Qed.


Example brackets_ex :
  WordPicker.base_weight (PyFloat.quotient 4 5) = PyFloat.lit 0.3 ∧
  WordPicker.base_weight (PyFloat.quotient 3 5) = PyFloat.lit 0.7 ∧
  WordPicker.base_weight (PyFloat.quotient 2 5) = PyFloat.lit 1.2 ∧
  WordPicker.base_weight (PyFloat.quotient 1 3) = PyFloat.lit 2.0.
Proof. vm_compute. auto. Qed.

Example weight_two_wrong :
  WordPicker._calculate_adaptive_weight
    (WordPicker.mkWordStats (PyFloat.lit 1.0) 2 3 5 None 0 2)
  = PyExc.Return (PyFloat.lit 3.0).
Proof. vm_compute. reflexivity. Qed.

Example weight_clamped :
  WordPicker._calculate_adaptive_weight
    (WordPicker.mkWordStats (PyFloat.lit 1.0) 0 2 2 None 0 2)
  = PyExc.Return (PyFloat.lit 5.0).
Proof. vm_compute. reflexivity. Qed.

(** A counter read from the file can be too large for a float: the
    division raises, and the record keeps the weight it had. *)
Example weight_overflow :
  WordPicker._calculate_adaptive_weight
    (WordPicker.mkWordStats (PyFloat.lit 1.0) (2 ^ 1024) 0 1 None 0 0)
  = PyExc.Raise PyExc.OverflowError.
Proof. vm_compute. reflexivity. Qed.

Example update_overflow :
  let updated :=
    WordPicker.update_word_performance
      {["cat_noun_a1" :=
          WordPicker.mkWordStats (PyFloat.lit 4.0) (2 ^ 1025) 0 1 None 0 0]}
      "cat" "noun" "a1" true "t1" in
  updated.2 = PyExc.Raise PyExc.OverflowError ∧
  WordPicker.weight <$> (updated.1 !! "cat_noun_a1")
  = Some (PyFloat.lit 4.0) ∧
  WordPicker.total_attempts <$> (updated.1 !! "cat_noun_a1") = Some 2%N.
Proof. vm_compute. auto. Qed.

Example truediv_ex :
  PyFloat.truediv 1 0 = PyExc.Raise PyExc.ZeroDivisionError ∧
  PyFloat.truediv (2 ^ 1024) 1 = PyExc.Raise PyExc.OverflowError ∧
  PyFloat.truediv (2 ^ 1024 - 2 ^ 970 - 1) 1
  = PyExc.Return (S754_finite false 9007199254740991 971) ∧
  PyFloat.truediv (2 ^ 1024 - 2 ^ 970) 1 = PyExc.Raise PyExc.OverflowError.
Proof. vm_compute. auto. Qed.

Example literal_ex :
  PyFloat.lit 0.1 = S754_finite false 7205759403792794 (-56) ∧
  PyFloat.lit 5.0 = S754_finite false 5629499534213120 (-50) ∧
  PyFloat.quotient 2 3 = S754_finite false 6004799503160661 (-53).
Proof. vm_compute. auto. Qed.

Example parse_ex :
  UtilsParse.parse_llm_response "1. rumah, tempat tinggal; * laki-laki|a"
  = ["rumah"; "tempat tinggal"; "laki"; "laki"].
Proof. vm_compute. reflexivity. Qed.

Example difficult_ex :
  WordPickerStats.get_difficult_words
    [("cat_noun_a1", WordPicker.mkWordStats (PyFloat.lit 3.0) 2 3 5 None 0 2);
     ("dog_noun_a1", WordPicker.mkWordStats (PyFloat.lit 0.36) 3 0 3 None 3 0);
     ("keen_adjective_b2",
      WordPicker.mkWordStats (PyFloat.lit 5.0) 0 2 2 None 0 2)]
    None 1
  = PyExc.Return [WordPickerStats.mkDifficultWord "keen" "adjective" "b2"
            (PyFloat.lit 5.0)
            (WordPickerStats.Float (S754_zero false)) 2 2].
Proof. vm_compute. reflexivity. Qed.

Example level_statistics_ex :
  WordPickerStats.get_level_statistics
    [("cat_noun_a1", WordPicker.mkWordStats (PyFloat.lit 3.0) 2 3 5 None 0 2);
     ("dog_noun_a1", WordPicker.mkWordStats (PyFloat.lit 0.36) 3 0 3 None 3 0)]
    "a1"
  = PyExc.Return (WordPickerStats.mkLevelStatistics 2 8 5
            (WordPickerStats.Float (PyFloat.lit 62.5))
            (WordPickerStats.Float (PyFloat.lit 50.0))).
Proof. vm_compute. reflexivity. Qed.

Example fallback_ex :
  Translator._get_fallback_translation "Work" "noun"
  = ["pekerjaan"; "kerja"; "tugas"] ∧
  Translator._get_fallback_translation "zeal" "noun"
  = ["[Terjemahan untuk 'zeal']"].
Proof. vm_compute. auto. Qed.

Example play_ex :
  match
    GamePlay._play_game
      (GamePlay.first_run [WordPicker.mkRow "cat" "noun" "a1"] 3)
      "custom" (Some "a1") "t0"
      [GamePlay.mkTurn 0 (PyFloat.lit 0.5) 0
         (λ _, Translator.ApiContent "kucing") " Kucing " "" "t1" "t2" "t3";
       GamePlay.mkTurn 0 (PyFloat.lit 0.5) 0
         (λ _, Translator.ApiError) "hint" "anjing" "t4" "t5" "t6"]
  with
  | GamePlay.Ended g =>
      GamePlay.current_score g = 1%Z ∧
      Game.final_score (GamePlay.session_stats g) = Some 1%Z ∧
      Game.overall (GamePlay.top_scores g) = Some 1%Z ∧
      WordPicker.total_attempts
        <$> (GamePlay.word_weights g !! "cat_noun_a1") = Some 2%N
  | _ => False
  end.
Proof. vm_compute. auto. Qed.

(** A record loaded with a counter too large for a float: the update of
    the round raises, and the exception leaves the game. *)
Example play_overflow :
  GamePlay._play_game
    (GamePlay.set_picker
       (GamePlay.first_run [WordPicker.mkRow "cat" "noun" "a1"] 3)
       {["cat_noun_a1" :=
           WordPicker.mkWordStats (PyFloat.lit 1.0) (2 ^ 1025) 0 1 None 0 0]})
    "custom" (Some "a1") "t0"
    [GamePlay.mkTurn 0 (PyFloat.lit 0.5) 0
       (λ _, Translator.ApiContent "kucing") "kucing" "" "t1" "t2" "t3"]
  = GamePlay.Raised PyExc.OverflowError.
Proof. vm_compute. reflexivity. Qed.

(** * Properties *)

(** ** Strings *)

Module PyStrFacts.
Import PyStr.

Lemma app_cons (c : ascii) (a b : string) :
  String c a +:+ b = String c (a +:+ b).
Proof. reflexivity. Qed.

Lemma app_empty_l (s : string) : "" +:+ s = s.
Proof. reflexivity. Qed.

Lemma app_empty_r (s : string) : s +:+ "" = s.
Proof.
  induction s as [|c s IH]; [done |]. by rewrite app_cons, IH.
Qed.

Lemma app_assoc (a b c : string) : (a +:+ b) +:+ c = a +:+ (b +:+ c).
Proof.
  induction a as [|x a IH]; [done |]. by rewrite !app_cons, IH.
Qed.

Lemma app_eq_empty (a b : string) : a +:+ b = "" → a = "" ∧ b = "".
Proof. destruct a; [done | discriminate]. Qed.

Lemma isspace_lower_char (c : ascii) : isspace (lower_char c) = isspace c.
Proof. destruct c as [[] [] [] [] [] [] [] []]; vm_compute; reflexivity. Qed.

Lemma lower_char_idemp (c : ascii) :
  lower_char (lower_char c) = lower_char c.
Proof. destruct c as [[] [] [] [] [] [] [] []]; vm_compute; reflexivity. Qed.

Lemma lower_idemp (s : string) : lower (lower s) = lower s.
Proof.
  induction s as [|c s IH]; simpl; [done |].
  by rewrite lower_char_idemp, IH.
Qed.

Lemma lower_app (a b : string) : lower (a +:+ b) = lower a +:+ lower b.
Proof.
  induction a as [|x a IH]; [done |].
  rewrite app_cons. simpl. by rewrite app_cons, IH.
Qed.

Lemma length_lower (s : string) : String.length (lower s) = String.length s.
Proof. induction s as [|c s IH]; simpl; [done | by rewrite IH]. Qed.

Lemma lower_eq_empty (s : string) : lower s = "" ↔ s = "".
Proof. destruct s; simpl; split; done. Qed.

Lemma no_space_lower (s : string) : no_space (lower s) = no_space s.
Proof.
  induction s as [|c s IH]; simpl; [done |].
  by rewrite isspace_lower_char, IH.
Qed.

Lemma no_space_app (a b : string) :
  no_space (a +:+ b) = no_space a && no_space b.
Proof.
  induction a as [|x a IH]; [done |].
  rewrite app_cons. simpl. rewrite IH. by rewrite andb_assoc.
Qed.

(** *** [lstrip], [rstrip], [strip] *)

Lemma lstrip_empty_iff (s : string) : lstrip s = "" ↔ all_space s = true.
Proof.
  induction s as [|c s IH]; simpl; [done |].
  destruct (isspace c); simpl; [done | split; discriminate].
Qed.

Lemma rstrip_empty_iff (s : string) : rstrip s = "" ↔ all_space s = true.
Proof.
  induction s as [|c s IH]; simpl; [done |].
  destruct (rstrip s) eqn:E.
  - destruct (isspace c); simpl; [tauto | split; [discriminate |]].
    discriminate.
  - split; [discriminate |]. intros [_ H]%andb_true_iff.
    apply IH in H. discriminate.
Qed.

Lemma all_space_lstrip (s : string) :
  all_space s = true → all_space (lstrip s) = true.
Proof. intros H. apply lstrip_empty_iff in H. by rewrite H. Qed.

Lemma strip_empty_iff (s : string) : strip s = "" ↔ all_space s = true.
Proof.
  unfold strip. rewrite rstrip_empty_iff. split.
  - intros H. induction s as [|c s IH]; simpl in *; [done |].
    destruct (isspace c) eqn:E; simpl in *; [by apply IH |].
    by rewrite E in H.
  - apply all_space_lstrip.
Qed.

(** A string is right-stripped when it is empty or ends in a
    non-whitespace character. *)
Lemma rstrip_fixed_cons (c : ascii) (s : string) :
  rstrip (String c s) = String c s →
  (s = "" ∧ isspace c = false) ∨ (s ≠ "" ∧ rstrip s = s).
Proof.
  simpl. destruct (rstrip s) eqn:E.
  - destruct (isspace c); [discriminate |].
    intros [= <-]. by left.
  - intros [= <-]. by right.
Qed.

Lemma rstrip_idemp (s : string) : rstrip (rstrip s) = rstrip s.
Proof.
  induction s as [|c s IH]; simpl; [done |].
  destruct (rstrip s) eqn:E.
  - destruct (isspace c) eqn:Ec; simpl; [done | by rewrite Ec].
  - simpl in *. by rewrite IH.
Qed.

Lemma rstrip_strip (s : string) : rstrip (strip s) = strip s.
Proof. apply rstrip_idemp. Qed.

Lemma rstrip_head (c : ascii) (s : string) :
  isspace c = false → ∃ r, rstrip (String c s) = String c r.
Proof.
  intros Hc. simpl. destruct (rstrip s); [rewrite Hc |]; eauto.
Qed.

(** A stripped string is empty or starts with a non-whitespace
    character. *)
Lemma strip_head (s : string) :
  strip s = "" ∨ ∃ c r, strip s = String c r ∧ isspace c = false.
Proof.
  unfold strip. induction s as [|c s IH]; simpl; [by left |].
  destruct (isspace c) eqn:Ec; [done |].
  right. destruct (rstrip_head c s Ec) as [r Hr].
  exists c, r. by rewrite <- Hr.
Qed.

Lemma strip_no_space (s : string) :
  s ≠ "" → no_space s = true → strip s = s.
Proof.
  unfold strip. intros Hne Hs.
  assert (lstrip s = s) as ->.
  { destruct s as [|c s]; simpl in *; [done |].
    by destruct (isspace c). }
  clear Hne. induction s as [|c s IH]; simpl in *; [done |].
  apply andb_true_iff in Hs as [Hc Hs]. rewrite (IH Hs).
  destruct s; [| done]. by destruct (isspace c).
Qed.

Lemma rstrip_no_space (s : string) : no_space s = true → rstrip s = s.
Proof.
  induction s as [|c s IH]; simpl; [done |].
  intros [Hc Hs]%andb_true_iff. rewrite (IH Hs).
  destruct s; [| done]. by destruct (isspace c).
Qed.

Lemma rstrip_app_fixed (a b : string) :
  b ≠ "" → rstrip b = b → rstrip (a +:+ b) = a +:+ b.
Proof.
  intros Hne Hb. induction a as [|c a IH]; [done |].
  rewrite app_cons. simpl. rewrite IH.
  destruct (a +:+ b) eqn:E; [| done].
  by apply app_eq_empty in E as [_ ?].
Qed.

(** *** [split] *)

Lemma split_from_no_space (cur s : string) :
  no_space s = true →
  split_from cur s = match cur +:+ s with "" => [] | w => [w] end.
Proof.
  revert cur. induction s as [|c s IH]; intros cur Hs; simpl.
  - rewrite app_empty_r. by destruct cur.
  - simpl in Hs. apply andb_true_iff in Hs as [Hc Hs].
    apply negb_true_iff in Hc. rewrite Hc, (IH _ Hs), app_assoc.
    done.
Qed.

Lemma split_no_space (s : string) :
  s ≠ "" → no_space s = true → split s = [s].
Proof.
  intros Hne Hs. unfold split. rewrite split_from_no_space by done.
  rewrite app_empty_l. by destruct s.
Qed.

Lemma split_from_app_space (cur a b : string) (sp : ascii) :
  isspace sp = true →
  split_from cur (a +:+ String sp b) = split_from cur a ++ split b.
Proof.
  intros Hsp. revert cur.
  induction a as [|c a IH]; intros cur.
  - rewrite app_empty_l. simpl. rewrite Hsp. by destruct cur.
  - rewrite app_cons. simpl. destruct (isspace c).
    + destruct cur; rewrite IH; done.
    + apply IH.
Qed.

Lemma split_from_nil (cur s : string) :
  split_from cur s = [] → cur = "" ∧ all_space s = true.
Proof.
  revert cur. induction s as [|c s IH]; intros cur; simpl.
  - by destruct cur.
  - destruct (isspace c); simpl.
    + destruct cur; [| discriminate]. intros H.
      by apply IH in H as [_ ?].
    + intros H. apply IH in H as [H _].
      by apply app_eq_empty in H as [_ ?].
Qed.

Lemma split_all_space (s : string) : all_space s = true → split s = [].
Proof.
  unfold split. induction s as [|c s IH]; simpl; [done |].
  intros [-> Hs]%andb_true_iff. by apply IH.
Qed.

(** A right-stripped string that does not start with whitespace and
    splits into one word is that word. *)
Lemma split_from_single (cur s t : string) :
  split_from cur s = [t] →
  rstrip s = s →
  (cur = "" → ∀ c r, s = String c r → isspace c = false) →
  cur +:+ s = t.
Proof.
  revert cur. induction s as [|c s IH]; intros cur Hsplit Hr Hhead.
  - simpl in Hsplit. destruct cur; [discriminate |].
    injection Hsplit as <-. by rewrite app_empty_r.
  - simpl in Hsplit. destruct (isspace c) eqn:Ec.
    + destruct cur as [|x cur].
      { specialize (Hhead eq_refl c s eq_refl). congruence. }
      injection Hsplit as <- Hnil.
      apply split_from_nil in Hnil as [_ Hall].
      apply rstrip_fixed_cons in Hr as [[-> Hc] | [Hne Hr]];
        [congruence |].
      apply rstrip_empty_iff in Hall. congruence.
    + apply IH in Hsplit.
      * by rewrite app_assoc in Hsplit.
      * apply rstrip_fixed_cons in Hr as [[-> _] | [_ Hr]]; done.
      * intros E. by apply app_eq_empty in E as [_ ?].
Qed.

Lemma split_strip_single (s t : string) :
  split (lower (strip s)) = [t] → lower (strip s) = t.
Proof.
  intros H. apply (split_from_single "" _ t) in H; [done | |].
  - destruct (strip_head s) as [-> | (c & r & E & Hc)]; [done |].
    pose proof (rstrip_strip s) as Hr. revert Hr. generalize (strip s).
    clear. intros s Hr. rewrite <- Hr at 2. clear Hr.
    induction s as [|c s IH]; simpl; [done |].
    rewrite isspace_lower_char.
    destruct (rstrip s) eqn:Es; simpl in *.
    + destruct (rstrip (lower s)) eqn:El; [| discriminate].
      by destruct (isspace c).
    + rewrite IH. done.
  - intros _ c r E.
    destruct (strip_head s) as [E' | (c' & r' & E' & Hc)];
      rewrite E' in E; simpl in E; [discriminate |].
    injection E as <- _. by rewrite isspace_lower_char.
Qed.

End PyStrFacts.

(** ** [validate_user_input] *)

Module UtilsFacts.
Import PyStr PyStrFacts Utils.

Lemma word_in_meaning_iff (user_word : string) (meaning_words : list string) :
  word_in_meaning user_word meaning_words = true ↔
  user_word ∈ meaning_words.
Proof.
  induction meaning_words as [|w ws IH]; simpl.
  - split; [discriminate | by intros ?%elem_of_nil].
  - rewrite elem_of_cons.
    destruct (String.eqb_spec user_word w) as [-> | Hne]; [tauto |].
    rewrite IH. tauto.
Qed.

Lemma check_meanings_iff (user_input : string) (valid_meanings : list string) :
  check_meanings user_input valid_meanings = true ↔
  ∃ meaning, meaning ∈ valid_meanings ∧
             meaning_matches user_input meaning = true.
Proof.
  induction valid_meanings as [|m ms IH]; simpl.
  - split; [discriminate | by intros (? & ?%elem_of_nil & _)].
  - destruct (meaning_matches user_input m) eqn:E.
    + split; [| done]. intros _. exists m. split; [left | done].
    + rewrite IH. split.
      * intros (m' & Hin & Hm). exists m'. split; [by right | done].
      * intros (m' & Hin & Hm). apply elem_of_cons in Hin as [-> | Hin];
          [congruence | eauto].
Qed.

(** The function as a whole: the guard, then some meaning matches the
    normalized input. *)
Lemma validate_user_input_iff (user_input : string)
    (valid_meanings : list string) :
  validate_user_input user_input valid_meanings = true ↔
  user_input ≠ "" ∧
  ∃ meaning, meaning ∈ valid_meanings ∧
             meaning_matches (lower (strip user_input)) meaning = true.
Proof.
  unfold validate_user_input.
  destruct user_input as [|c s]; simpl.
  { split; [discriminate | by intros [? _]]. }
  destruct valid_meanings as [|m ms]; simpl.
  { split; [discriminate | by intros (_ & ? & ?%elem_of_nil & _)]. }
  change (check_meanings (lower (strip (String c s))) (m :: ms) = true ↔
          String c s ≠ "" ∧
          ∃ meaning, meaning ∈ m :: ms ∧
            meaning_matches (lower (strip (String c s))) meaning = true).
  rewrite check_meanings_iff. split; [by intros ? | by intros [_ ?]].
Qed.

Lemma tokens_subset_iff (user_words meaning_words : list string) :
  (list_to_set user_words : gset string) ⊆ list_to_set meaning_words ↔
  ∀ w, w ∈ user_words → w ∈ meaning_words.
Proof.
  rewrite elem_of_subseteq.
  by setoid_rewrite elem_of_list_to_set.
Qed.

(** Rules 1 and 2, for an input of one word. *)
Lemma meaning_matches_single (user_input meaning token : string) :
  split user_input = [token] →
  meaning_matches user_input meaning = true ↔
  user_input = lower (strip meaning) ∨
  ((3 ≤ String.length token)%nat ∧ token ∈ split (lower (strip meaning))).
Proof.
  intros Hsplit. unfold meaning_matches. rewrite Hsplit.
  destruct (String.eqb_spec user_input (lower (strip meaning)))
    as [E | Hne]; [tauto |].
  destruct (Nat.leb_spec 3 (String.length token)) as [Hlen | Hlen].
  - rewrite word_in_meaning_iff. tauto.
  - split; [discriminate | intros [? | [? _]]; [done | lia]].
Qed.

(** Rules 1 and 3, for an input of several words. *)
Lemma meaning_matches_multi (user_input meaning : string) :
  1 < length (split user_input) →
  meaning_matches user_input meaning = true ↔
  (list_to_set (split user_input) : gset string) ⊆
    list_to_set (split (lower (strip meaning))).
Proof.
  intros Hlen. unfold meaning_matches.
  destruct (String.eqb_spec user_input (lower (strip meaning)))
    as [E | Hne].
  - rewrite <- E. split; done.
  - destruct (split user_input) as [|w1 [|w2 ws]] eqn:Hs;
      simpl in Hlen; [lia | lia |].
    by rewrite bool_decide_eq_true.
Qed.

Lemma validate_multi_iff (user_input : string)
    (valid_meanings : list string) :
  1 < length (split (lower (strip user_input))) →
  validate_user_input user_input valid_meanings = true ↔
  ∃ meaning, meaning ∈ valid_meanings ∧
    (list_to_set (split (lower (strip user_input))) : gset string) ⊆
      list_to_set (split (lower (strip meaning))).
Proof.
  intros Hlen. rewrite validate_user_input_iff. split.
  - intros (_ & m & Hin & Hm). exists m. split; [done |].
    by apply meaning_matches_multi.
  - intros (m & Hin & Hm). split.
    + intros ->. simpl in Hlen. lia.
    + exists m. split; [done |]. by apply meaning_matches_multi.
Qed.

Lemma bool_eq_iff (a b : bool) : (a = true ↔ b = true) → a = b.
Proof. destruct a, b; intros [H1 H2]; auto; symmetry; auto. Qed.

End UtilsFacts.

Module UtilsSpec.
Import PyStr PyStrFacts Utils UtilsFacts.

Lemma normalize_token (t : string) :
  t ≠ "" → no_space t = true →
  lower (strip t) = lower t ∧ split (lower t) = [lower t].
Proof.
  intros Hne Hs. rewrite strip_no_space by done. split; [done |].
  apply split_no_space.
  - by rewrite lower_eq_empty.
  - by rewrite no_space_lower.
Qed.

Lemma normalize_repeated (t : string) :
  t ≠ "" → no_space t = true →
  split (lower (strip (t +:+ " " +:+ t))) = [lower t; lower t].
Proof.
  intros Hne Hs.
  assert (strip (t +:+ " " +:+ t) = t +:+ " " +:+ t) as ->.
  { unfold strip.
    assert (lstrip (t +:+ " " +:+ t) = t +:+ " " +:+ t) as ->.
    { destruct t as [|c r]; [done |]. rewrite app_cons. simpl in *.
      apply andb_true_iff in Hs as [Hc _].
      apply negb_true_iff in Hc. by rewrite Hc. }
    rewrite <- app_assoc. apply rstrip_app_fixed; [done |].
    by apply rstrip_no_space. }
  rewrite lower_app.
  change (lower (" " +:+ t)) with (String " " (lower t)).
  unfold split at 1.
  rewrite split_from_app_space by reflexivity.
  destruct (normalize_token t Hne Hs) as [_ Hsplit].
  fold (split (lower t)). by rewrite Hsplit.
Qed.

(** C2.  An input that normalizes (strip, then lower) to exactly one
    whitespace-delimited token is that token.  With a token of length at
    least 3 the answer is accepted iff the token equals some whole
    normalized meaning or some whitespace-delimited token of a normalized
    meaning; with a shorter token it is accepted iff the token equals a
    whole normalized meaning.  So ["ke"] is rejected against
    ["ke arah"; "menuju"] and accepted against ["ke"]. *)
Theorem validate_single_token (user_input token : string)
    (valid_meanings : list string) :
  split (lower (strip user_input)) = [token] →
  lower (strip user_input) = token ∧
  ((3 ≤ String.length token)%nat →
     validate_user_input user_input valid_meanings = true ↔
     ∃ meaning, meaning ∈ valid_meanings ∧
       (token = lower (strip meaning) ∨
        token ∈ split (lower (strip meaning)))) ∧
  ((String.length token < 3)%nat →
     validate_user_input user_input valid_meanings = true ↔
     ∃ meaning, meaning ∈ valid_meanings ∧
       token = lower (strip meaning)) ∧
  validate_user_input "ke" ["ke arah"; "menuju"] = false ∧
  validate_user_input "ke" ["ke"] = true.
Proof.
  intros Hsplit.
  pose proof (split_strip_single _ _ Hsplit) as Hnorm.
  assert (user_input ≠ "") as Hne by (intros ->; discriminate Hsplit).
  assert (∀ meaning,
    meaning_matches (lower (strip user_input)) meaning = true ↔
    token = lower (strip meaning) ∨
    ((3 ≤ String.length token)%nat ∧
     token ∈ split (lower (strip meaning)))) as Hrule.
  { intros m. rewrite (meaning_matches_single _ m token Hsplit).
    by rewrite Hnorm. }
  split; [done |].
  split; [| split; [| split; vm_compute; reflexivity]].
  - intros Hlen. rewrite validate_user_input_iff.
    setoid_rewrite Hrule. split.
    + intros (_ & m & Hin & H). exists m. tauto.
    + intros (m & Hin & H). split; [done |]. exists m. tauto.
  - intros Hlen. rewrite validate_user_input_iff.
    setoid_rewrite Hrule. split.
    + intros (_ & m & Hin & [H | [H _]]); [eauto | lia].
    + intros (m & Hin & H). split; [done |]. exists m. tauto.
Qed.

Lemma validate_single_token_witness :
  split (lower (strip " Lari ")) = ["lari"] ∧
  lower (strip " Lari ") = "lari".
Proof.
  split; [reflexivity |].
  apply (validate_single_token " Lari " "lari" ["lari cepat"]).
  reflexivity.
Defined.

(** C3.  An input that normalizes to more than one token is accepted iff
    the set of its tokens is included in the set of tokens of one accepted
    meaning (or the normalized input equals a normalized meaning).  The
    result is the same for any other multi-token input with the same set
    of tokens (tokens reordered or repeated) and for any permutation of
    the list of meanings; ["tinggal tempat"] is accepted against
    ["rumah"; "tempat tinggal"]. *)
Theorem validate_multi_token (user_input : string)
    (valid_meanings : list string) :
  (1 < length (split (lower (strip user_input))))%nat →
  (validate_user_input user_input valid_meanings = true ↔
   ∃ meaning, meaning ∈ valid_meanings ∧
     (lower (strip user_input) = lower (strip meaning) ∨
      (list_to_set (split (lower (strip user_input))) : gset string) ⊆
        list_to_set (split (lower (strip meaning))))) ∧
  (∀ user_input',
     (1 < length (split (lower (strip user_input'))))%nat →
     (list_to_set (split (lower (strip user_input'))) : gset string) =
       list_to_set (split (lower (strip user_input))) →
     validate_user_input user_input' valid_meanings =
     validate_user_input user_input valid_meanings) ∧
  (∀ valid_meanings',
     valid_meanings' ≡ₚ valid_meanings →
     validate_user_input user_input valid_meanings' =
     validate_user_input user_input valid_meanings) ∧
  validate_user_input "tinggal tempat" ["rumah"; "tempat tinggal"] = true.
Proof.
  intros Hlen.
  split; [| split; [| split; [| vm_compute; reflexivity]]].
  - rewrite (validate_multi_iff _ _ Hlen). split.
    + intros (m & Hin & H). exists m. tauto.
    + intros (m & Hin & [E | H]); exists m; (split; [done |]);
        [by rewrite E | done].
  - intros user_input' Hlen' Hset. apply bool_eq_iff.
    rewrite (validate_multi_iff _ _ Hlen), (validate_multi_iff _ _ Hlen').
    by rewrite Hset.
  - intros valid_meanings' Hperm. apply bool_eq_iff.
    rewrite !validate_user_input_iff.
    by setoid_rewrite Hperm.
Qed.

Lemma validate_multi_token_witness :
  (1 < length (split (lower (strip "tinggal  Tempat tinggal"))))%nat ∧
  validate_user_input "tinggal  Tempat tinggal" ["rumah"; "tempat tinggal"]
  = validate_user_input "tempat tinggal" ["tempat tinggal"; "rumah"].
Proof.
  assert (1 < length (split (lower (strip "tempat tinggal"))))%nat
    as Hlen by (vm_compute; lia).
  assert (1 < length (split (lower (strip "tinggal  Tempat tinggal"))))%nat
    as Hlen' by (vm_compute; lia).
  split; [exact Hlen' |].
  destruct (validate_multi_token "tempat tinggal"
              ["tempat tinggal"; "rumah"] Hlen) as (_ & Horder & Hperm & _).
  rewrite <- (Hperm ["rumah"; "tempat tinggal"]) by apply Permutation_swap.
  apply (proj1 (proj2 (validate_multi_token "tempat tinggal"
                         ["rumah"; "tempat tinggal"] Hlen))).
  - exact Hlen'.
  - vm_compute. reflexivity.
Defined.

(** C7 fails as stated: a whitespace-only input is accepted when an
    accepted meaning is itself blank. *)
Lemma validate_blank_input_counterexample :
  all_space "  " = true ∧ validate_user_input "  " [" "] = true.
Proof. split; vm_compute; reflexivity. Qed.

(** C7, amended.  The empty input is rejected, and so is every input
    against an empty list of meanings.  A non-empty input made of
    whitespace only is accepted exactly when some accepted meaning is
    itself empty or made of whitespace only (both normalize to the empty
    string, which is an exact match); it is rejected against every other
    list.  The function is total: no call raises. *)
Theorem validate_blank_input (user_input : string)
    (valid_meanings : list string) :
  validate_user_input "" valid_meanings = false ∧
  validate_user_input user_input [] = false ∧
  (all_space user_input = true →
     validate_user_input user_input valid_meanings = true ↔
     user_input ≠ "" ∧
     ∃ meaning, meaning ∈ valid_meanings ∧ all_space meaning = true).
Proof.
  split; [done |]. split.
  { unfold validate_user_input. simpl. by rewrite orb_true_r. }
  intros Hall. rewrite validate_user_input_iff.
  apply strip_empty_iff in Hall. rewrite Hall. simpl.
  assert (∀ meaning, meaning_matches "" meaning = true ↔
                     all_space meaning = true) as Hrule.
  { intros m. unfold meaning_matches.
    rewrite <- strip_empty_iff, <- (lower_eq_empty (strip m)).
    destruct (lower (strip m)) eqn:E; simpl; [done |].
    split; discriminate. }
  by setoid_rewrite Hrule.
Qed.

Lemma validate_blank_input_witness :
  all_space "  " = true ∧
  validate_user_input "  " ["rumah"; " "] = true.
Proof.
  split; [reflexivity |].
  apply (validate_blank_input "  " ["rumah"; " "]); [reflexivity |].
  split; [discriminate |].
  exists " ". split; [| reflexivity].
  apply list_elem_of_In. simpl. tauto.
Defined.

(** C9.  A token whose normalized form (the token the code measures,
    [user_input.strip().lower()]) is shorter than 3 characters and is a
    whole token of some accepted meaning, without being a whole meaning
    itself, is rejected when typed once and accepted when typed twice
    with a space in between: the subset rule has no length guard and a
    set forgets repetitions.  The length is the one of the lowercased
    token, as in the code, so the statement does not depend on
    lowercasing keeping the length. *)
Theorem short_token_twice (t : string) (valid_meanings : list string) :
  t ≠ "" → no_space t = true → (String.length (lower t) < 3)%nat →
  (∃ meaning, meaning ∈ valid_meanings ∧
              lower t ∈ split (lower (strip meaning))) →
  (∀ meaning, meaning ∈ valid_meanings →
              lower (strip meaning) ≠ lower t) →
  validate_user_input t valid_meanings = false ∧
  validate_user_input (t +:+ " " +:+ t) valid_meanings = true.
Proof.
  intros Hne Hs Hlen (m & Hin & Htok) Hwhole.
  destruct (normalize_token t Hne Hs) as [Hnorm Hsplit].
  split.
  - destruct (validate_user_input t valid_meanings) eqn:E; [| done].
    apply validate_user_input_iff in E as (_ & m' & Hin' & Hm).
    rewrite Hnorm in Hm.
    apply (meaning_matches_single _ _ _ Hsplit) in Hm as [E | [Hl _]].
    + by destruct (Hwhole m' Hin').
    + lia.
  - pose proof (normalize_repeated t Hne Hs) as Hrep.
    apply validate_multi_iff; [rewrite Hrep; simpl; lia |].
    exists m. split; [done |]. rewrite Hrep.
    apply tokens_subset_iff. intros w Hw.
    repeat (apply elem_of_cons in Hw as [-> | Hw]; [done |]).
    by apply elem_of_nil in Hw.
Qed.

Lemma short_token_twice_witness :
  validate_user_input "Ke" ["ke arah"; "menuju"] = false ∧
  validate_user_input "Ke Ke" ["ke arah"; "menuju"] = true.
Proof.
  apply (short_token_twice "Ke" ["ke arah"; "menuju"]).
  - discriminate.
  - reflexivity.
  - simpl. lia.
  - exists "ke arah". split; vm_compute.
    + apply list_elem_of_In. simpl. tauto.
    + apply list_elem_of_In. simpl. tauto.
  - intros meaning Hin. apply list_elem_of_In in Hin. simpl in Hin.
    destruct Hin as [<- | [<- | []]]; vm_compute; discriminate.
Defined.

End UtilsSpec.

(** ** Binary64 arithmetic *)

Module FloatFacts.
Import PyFloat.
Local Open Scope Z_scope.

(** *** The number of digits of a mantissa *)

Lemma digits2_size (m : positive) : digits2_pos m = Pos.size m.
Proof. induction m; simpl; congruence. Qed.

Lemma digits2_bounds (m : positive) :
  2 ^ (Zpos (digits2_pos m) - 1) ≤ Zpos m < 2 ^ Zpos (digits2_pos m).
Proof.
  rewrite digits2_size.
  pose proof (Pos.size_gt m) as Hgt. pose proof (Pos.size_le m) as Hle.
  apply Pos2Z.pos_lt_pos in Hgt. apply Pos2Z.pos_le_pos in Hle.
  rewrite Pos2Z.inj_pow in Hgt, Hle.
  replace (Zpos (Pos.size m)) with (Zpos (Pos.size m) - 1 + 1) in Hle at 1
    by lia.
  rewrite Z.pow_add_r in Hle by lia.
  change (Z.pos m~0) with (2 * Z.pos m) in Hle.
  change (2 ^ 1) with 2 in Hle. change (Z.pos 2) with 2 in *. lia.
Qed.

Lemma digits2_unique (m : positive) (d : Z) :
  2 ^ (d - 1) ≤ Zpos m < 2 ^ d → Zpos (digits2_pos m) = d.
Proof.
  intros [Hlo Hhi]. pose proof (digits2_bounds m) as [Hlo' Hhi'].
  assert (0 < d).
  { destruct (Z.ltb_spec 0 d) as [|Hd]; [done |].
    rewrite (Z.pow_neg_r 2 (d - 1)) in Hlo by lia.
    destruct (Z.eq_dec d 0) as [-> | Hne]; [simpl in Hhi; lia |].
    rewrite (Z.pow_neg_r 2 d) in Hhi by lia. lia. }
  destruct (Z.lt_trichotomy (Zpos (digits2_pos m)) d) as [Hlt | [Heq | Hgt]];
    [| done |].
  - exfalso. assert (2 ^ Zpos (digits2_pos m) ≤ 2 ^ (d - 1))
      by (apply Z.pow_le_mono_r; lia). lia.
  - exfalso. assert (2 ^ d ≤ 2 ^ (Zpos (digits2_pos m) - 1))
      by (apply Z.pow_le_mono_r; lia). lia.
Qed.

(** *** Shifting right and rounding *)

Lemma iter_pos_nat {A : Type} (f : A → A) (p : positive) (x : A) :
  SpecFloat.iter_pos f p x = Nat.iter (Pos.to_nat p) f x.
Proof.
  revert x. induction p as [p IH | p IH |]; intros x.
  - rewrite Pos2Nat.inj_xI.
    change (SpecFloat.iter_pos f p~1 x)
      with (SpecFloat.iter_pos f p (SpecFloat.iter_pos f p (f x))).
    rewrite !IH, <- Nat.iter_succ_r, <- Nat.iter_add.
    f_equal. lia.
  - rewrite Pos2Nat.inj_xO.
    change (SpecFloat.iter_pos f p~0 x)
      with (SpecFloat.iter_pos f p (SpecFloat.iter_pos f p x)).
    rewrite !IH, <- Nat.iter_add. f_equal. lia.
  - done.
Qed.

Lemma shr_1_spec (mrs : shr_record) :
  0 ≤ shr_m mrs →
  shr_m (shr_1 mrs) = shr_m mrs / 2 ∧ shr_r (shr_1 mrs) = Z.odd (shr_m mrs).
Proof.
  destruct mrs as [m r s]. simpl. intros Hm.
  rewrite <- Z.div2_div.
  destruct m as [|[p|p|]|p]; simpl; done.
Qed.

(** After [k] shifts the mantissa is the quotient by 2^k and the round
    bit is the last bit shifted out. *)
Lemma shr_iter_spec (k : nat) (mrs : shr_record) :
  0 ≤ shr_m mrs →
  shr_m (Nat.iter k shr_1 mrs) = shr_m mrs / 2 ^ Z.of_nat k ∧
  (∀ k', k = S k' →
     shr_r (Nat.iter k shr_1 mrs) = Z.testbit (shr_m mrs) (Z.of_nat k')).
Proof.
  intros Hm. induction k as [|k [IHm IHr]].
  - simpl. rewrite Z.div_1_r. split; [done | discriminate].
  - rewrite Nat.iter_succ.
    assert (0 ≤ shr_m (Nat.iter k shr_1 mrs)) as Hk.
    { rewrite IHm. apply Z.div_pos; [done |]. apply Z.pow_pos_nonneg; lia. }
    destruct (shr_1_spec _ Hk) as [-> ->]. rewrite IHm. split.
    + rewrite Nat2Z.inj_succ, Z.pow_succ_r by lia.
      rewrite Z.div_div by (try apply Z.pow_pos_nonneg; lia).
      f_equal. lia.
    + intros k' [= <-].
      by rewrite Z.testbit_odd, Z.shiftr_div_pow2 by lia.
Qed.

Lemma fexp_spec (k : Z) : fexp 53 1024 k = Z.max (k - 53) (-1074).
Proof. reflexivity. Qed.

Lemma shr_nonpos (mrs : shr_record) (e n : Z) :
  n ≤ 0 → shr mrs e n = (mrs, e).
Proof. intros Hn. destruct n; [done | lia | done]. Qed.

(** A mantissa that needs no shift is kept as it is. *)
Lemma binary_round_aux_exact (m : positive) (e : Z) :
  fexp 53 1024 (Zpos (digits2_pos m) + e) ≤ e → e ≤ 971 →
  binary_round_aux 53 1024 false (Zpos m) e loc_Exact
  = S754_finite false m e.
Proof.
  intros Hfexp He. unfold binary_round_aux, shr_fexp. simpl Zdigits2.
  rewrite shr_nonpos by lia. simpl shr_m. simpl loc_of_shr_record.
  simpl round_nearest_even. simpl Zdigits2.
  rewrite shr_nonpos by lia. simpl shr_m.
  destruct (Z.leb_spec e (1024 - 53)); [done | lia].
Qed.

Lemma round_nearest_even_range (q : Z) (l : location) :
  q ≤ round_nearest_even q l ≤ q + 1.
Proof.
  destruct l as [|[]]; simpl; try lia. destruct (Z.even q); lia.
Qed.

Lemma round_nearest_even_down (q : Z) (mrs : shr_record) :
  shr_r mrs = false → round_nearest_even q (loc_of_shr_record mrs) = q.
Proof. destruct mrs as [m r s]. simpl. intros ->. by destruct s. Qed.

(** A mantissa of 53 + n digits is shifted by n and rounded: the result,
    counted in units of 2^e, lies between the mantissa truncated to a
    multiple of 2^n and the next multiple, and it is the truncation when
    the round bit is clear. *)
Lemma binary_round_aux_shift (m n : positive) (e : Z) :
  Zpos (digits2_pos m) = 53 + Zpos n → -1074 ≤ e → e + Zpos n + 1 ≤ 971 →
  ∃ m' e',
    binary_round_aux 53 1024 false (Zpos m) e loc_Exact
    = S754_finite false m' e' ∧
    e + Zpos n ≤ e' ≤ e + Zpos n + 1 ∧
    (Zpos m / 2 ^ Zpos n) * 2 ^ Zpos n ≤ Zpos m' * 2 ^ (e' - e)
      ≤ (Zpos m / 2 ^ Zpos n + 1) * 2 ^ Zpos n ∧
    (Z.testbit (Zpos m) (Zpos n - 1) = false →
     Zpos m' * 2 ^ (e' - e) = (Zpos m / 2 ^ Zpos n) * 2 ^ Zpos n).
Proof.
  intros Hd He Hmax.
  pose proof (digits2_bounds m) as [Hlo Hhi]. rewrite Hd in Hlo, Hhi.
  set (q := Zpos m / 2 ^ Zpos n).
  assert (0 < 2 ^ Zpos n) as Hpow by (apply Z.pow_pos_nonneg; lia).
  assert (2 ^ 52 ≤ q < 2 ^ 53) as Hq.
  { unfold q. split.
    - apply Z.div_le_lower_bound; [done |].
      rewrite <- Z.pow_add_r by lia. 
      replace (Z.pos n + 52) with (53 + Z.pos n - 1) by lia. done.
    - apply Z.div_lt_upper_bound; [done |].
      rewrite <- Z.pow_add_r by lia.
      replace (Z.pos n + 53) with (53 + Z.pos n) by lia. done. }
  unfold binary_round_aux, shr_fexp. simpl Zdigits2.
  rewrite Hd, fexp_spec.
  replace (Z.max (53 + Z.pos n + e - 53) (-1074) - e) with (Zpos n) by lia.
  unfold shr at 1. rewrite iter_pos_nat.
  set (mrs := {| shr_m := Z.pos m; shr_r := false; shr_s := false |}).
  destruct (shr_iter_spec (Pos.to_nat n) mrs) as [Hm Hr]; [simpl; lia |].
  rewrite positive_nat_Z in Hm. simpl shr_m in Hm. fold q in Hm.
  set (mrs' := Nat.iter (Pos.to_nat n) shr_1 mrs) in *.
  change (shr_record_of_loc (Z.pos m) loc_Exact) with mrs.
  fold mrs'. rewrite Hm.
  pose proof (round_nearest_even_range q (loc_of_shr_record mrs')) as Hq'.
  assert (Z.testbit (Zpos m) (Zpos n - 1) = false ->
          round_nearest_even q (loc_of_shr_record mrs') = q) as Hdown.
  { intros Hbit. apply round_nearest_even_down.
    destruct (Pos.to_nat n) as [|k'] eqn:Ek; [lia |].
    rewrite (Hr k' eq_refl). simpl shr_m.
    replace (Z.of_nat k') with (Zpos n - 1) by lia. done. }
  set (q' := round_nearest_even q (loc_of_shr_record mrs')) in *.
  destruct q' as [|p'|p'] eqn:Eq'; [lia | | lia].
  simpl Zdigits2.
  change (2 ^ 52) with 4503599627370496 in Hq.
  change (2 ^ 53) with 9007199254740992 in Hq.
  destruct (Z.eq_dec (Zpos p') 9007199254740992) as [Hcarry | Hnocarry].
  - (* the rounded mantissa is 2^53: one more shift *)
    assert (p' = 9007199254740992%positive) as -> by lia.
    exists 4503599627370496%positive, (e + Zpos n + 1).
    split; [| split; [lia | split]].
    + rewrite fexp_spec.
      replace (Z.pos (digits2_pos 9007199254740992)) with 54 by reflexivity.
      replace (Z.max (54 + (e + Z.pos n) - 53) (-1074) - (e + Z.pos n))
        with 1 by lia.
      unfold shr, SpecFloat.iter_pos, shr_record_of_loc, shr_1, shr_m.
      destruct (Z.leb_spec (e + Z.pos n + 1) (1024 - 53)); [done | lia].
    + replace (e + Z.pos n + 1 - e) with (Zpos n + 1) by lia.
      rewrite Z.pow_add_r by lia. change (2 ^ 1) with 2. nia.
    + intros Hbit. specialize (Hdown Hbit). lia.
  - assert (Zpos (digits2_pos p') = 53) as Hd'.
    { apply digits2_unique. change (2 ^ (53 - 1)) with 4503599627370496.
      change (2 ^ 53) with 9007199254740992. lia. }
    exists p', (e + Zpos n).
    split; [| split; [lia | split]].
    + rewrite Hd', fexp_spec. rewrite shr_nonpos by lia. simpl shr_m.
      destruct (Z.leb_spec (e + Z.pos n) (1024 - 53)); [done | lia].
    + replace (e + Z.pos n - e) with (Zpos n) by lia. nia.
    + intros Hbit. specialize (Hdown Hbit).
      replace (e + Z.pos n - e) with (Zpos n) by lia. by rewrite Hdown.
Qed.

(** *** Aligning two mantissas and rounding their sum *)

Lemma pos_iter_xO (m d : positive) :
  Zpos (Pos.iter xO m d) = Zpos m * 2 ^ Zpos d.
Proof.
  rewrite Pos2Nat.inj_iter, <- (positive_nat_Z d).
  induction (Pos.to_nat d) as [|k IH].
  - simpl. lia.
  - cbn [nat_rect]. rewrite Nat2Z.inj_succ, Z.pow_succ_r by lia.
    rewrite Pos2Z.inj_xO, IH. lia.
Qed.

Lemma shl_align_fst (mx : positive) (ex ez : Z) :
  ez ≤ ex → Zpos (fst (shl_align mx ex ez)) = Zpos mx * 2 ^ (ex - ez).
Proof.
  intros Hle. unfold shl_align.
  destruct (ez - ex) as [|p|p] eqn:E; simpl fst.
  - replace (ex - ez) with 0 by lia. lia.
  - lia.
  - rewrite pos_iter_xO. f_equal. f_equal. lia.
Qed.

Lemma pow2_pos (a : Z) : 0 ≤ a → 0 < 2 ^ a.
Proof. intros. apply Z.pow_pos_nonneg; lia. Qed.

(** Rounding a mantissa [M] at exponent [e] whose value [M * 2^e] exceeds
    2^60 by less than 8 gives a positive number of at most 2^60. *)
Lemma binary_round_capped (M : positive) (e : Z) :
  -1074 ≤ e ≤ -50 →
  Zpos M < 2 ^ (60 - e) + 2 ^ (3 - e) →
  ∃ m' e',
    binary_round 53 1024 false M e = S754_finite false m' e' ∧
    -1074 ≤ e' ∧
    Zpos m' * 2 ^ (e' + 1074) ≤ 2 ^ 1134.
Proof.
  intros He HM.
  pose proof (digits2_bounds M) as [Hlo Hhi].
  set (d := Zpos (digits2_pos M)) in *.
  assert (0 < d) as Hd0 by (unfold d; lia).
  assert (d ≤ 61 - e) as Hd.
  { destruct (Z.le_gt_cases d (61 - e)) as [|Hgt]; [done |]. exfalso.
    assert (2 ^ (61 - e) ≤ 2 ^ (d - 1)) by (apply Z.pow_le_mono_r; lia).
    assert (2 ^ (3 - e) ≤ 2 ^ (60 - e)) by (apply Z.pow_le_mono_r; lia).
    replace (61 - e) with (60 - e + 1) in * by lia.
    rewrite Z.pow_add_r in * by lia. change (2 ^ 1) with 2 in *. lia. }
  unfold binary_round. fold d. rewrite fexp_spec.
  destruct (Z.le_gt_cases d 53) as [Hsmall | Hbig].
  - (* the sum fits in 53 bits: the result is exact *)
    set (k := Z.max (d + e - 53) (-1074)).
    assert (-1074 ≤ k ≤ e) as Hk by (unfold k; lia).
    assert (Zpos M * 2 ^ (e + 1074) ≤ 2 ^ 1134) as Hval.
    { assert (2 ^ d ≤ 2 ^ 53) by (apply Z.pow_le_mono_r; lia).
      assert (2 ^ (e + 1074) ≤ 2 ^ 1024) by (apply Z.pow_le_mono_r; lia).
      pose proof (pow2_pos (e + 1074)).
      change (2 ^ 1134) with (2 ^ 53 * 2 ^ 1081).
      assert (2 ^ 1024 ≤ 2 ^ 1081) by (apply Z.pow_le_mono_r; lia).
      nia. }
    destruct (shl_align M e k) as [mz ez'] eqn:Es.
    assert (ez' = k /\ Zpos mz = Zpos M * 2 ^ (e - k)) as [-> Hmz].
    { pose proof (shl_align_fst M e k ltac:(lia)) as Hf. rewrite Es in Hf.
      split; [| exact Hf]. unfold shl_align in Es.
      destruct (k - e) as [|p|p] eqn:E; [| lia |]; injection Es as <- <-; lia. }
    exists mz, k. split; [| split; [lia |]].
    + apply binary_round_aux_exact; [| lia]. rewrite fexp_spec.
      assert (Zpos (digits2_pos mz) = d + (e - k)) as ->.
      { apply digits2_unique. rewrite Hmz.
        replace (d + (e - k) - 1) with (d - 1 + (e - k)) by lia.
        rewrite !Z.pow_add_r by lia.
        pose proof (pow2_pos (e - k)). nia. }
      unfold k. lia.
    + rewrite Hmz, <- Z.mul_assoc, <- Z.pow_add_r by lia.
      replace (e - k + (k + 1074)) with (e + 1074) by lia. done.
  - (* more than 53 bits: one rounding *)
    assert (exists n : positive, d = 53 + Zpos n) as [n Hn].
    { exists (Z.to_pos (d - 53)). rewrite Z2Pos.id; lia. }
    replace (Z.max (d + e - 53) (-1074)) with (e + Zpos n) by lia.
    assert (shl_align M e (e + Z.pos n) = (M, e)) as ->.
    { unfold shl_align. by replace (e + Z.pos n - e) with (Zpos n) by lia. }
    destruct (binary_round_aux_shift M n e)
      as (m' & e' & -> & He' & [_ Hup] & Hexact); [done | lia | lia |].
    exists m', e'. split; [done |]. split; [lia |].
    assert (0 < 2 ^ Zpos n) as Hpn by (apply pow2_pos; lia).
    assert (0 < 2 ^ (e + 1074)) as Hpe by (apply pow2_pos; lia).
    assert (Zpos m' * 2 ^ (e' + 1074)
            = Zpos m' * 2 ^ (e' - e) * 2 ^ (e + 1074)) as ->.
    { rewrite <- Z.mul_assoc, <- Z.pow_add_r by lia.
      f_equal. f_equal. lia. }
    destruct (Z.le_gt_cases (d + e) 60) as [Hlow | Htop].
    + (* below 2^60 the rounded sum is at most the next power of two *)
      assert ((Zpos M / 2 ^ Zpos n + 1) * 2 ^ Zpos n ≤ 2 ^ d) as Hq.
      { assert (Zpos M / 2 ^ Zpos n < 2 ^ 53).
        { apply Z.div_lt_upper_bound; [done |].
          rewrite <- Z.pow_add_r by lia.
          by replace (Z.pos n + 53) with d by lia. }
        rewrite Hn, Z.pow_add_r by lia. nia. }
      assert (2 ^ d * 2 ^ (e + 1074) ≤ 2 ^ 1134).
      { rewrite <- Z.pow_add_r by lia. apply Z.pow_le_mono_r; lia. }
      nia.
    + (* at 2^60 the excess is below half an ulp: rounded down *)
      assert (d + e = 61) as Htop' by lia.
      assert (Zpos n = 8 - e) as Hn8 by lia.
      assert (2 ^ (60 - e) = 2 ^ 52 * 2 ^ Zpos n) as Hsplit.
      { rewrite <- Z.pow_add_r by lia. f_equal. lia. }
      assert (2 ^ (60 - e) = 2 ^ 53 * 2 ^ (Zpos n - 1)) as Hsplit'.
      { rewrite <- Z.pow_add_r by lia. f_equal. lia. }
      assert (2 ^ (3 - e) ≤ 2 ^ (Zpos n - 1)) as Hsmall
        by (apply Z.pow_le_mono_r; lia).
      assert (2 ^ Zpos n = 2 * 2 ^ (Zpos n - 1)) as Hdouble.
      { rewrite <- Z.pow_succ_r by lia. f_equal. lia. }
      assert (0 < 2 ^ (Zpos n - 1)) as Hpn1 by (apply pow2_pos; lia).
      replace (d - 1) with (60 - e) in Hlo by lia.
      assert (Zpos M / 2 ^ Zpos n = 2 ^ 52) as Hq.
      { symmetry. apply (Z.div_unique _ _ _ (Zpos M - 2 ^ (60 - e))); lia. }
      assert (Z.testbit (Zpos M) (Zpos n - 1) = false) as Hbit.
      { apply Z.testbit_false; [lia |].
        assert (Zpos M / 2 ^ (Zpos n - 1) = 2 ^ 53) as ->; [| done].
        symmetry. apply (Z.div_unique _ _ _ (Zpos M - 2 ^ (60 - e))); lia. }
      rewrite (Hexact Hbit), Hq, <- Hsplit, <- Z.pow_add_r by lia.
      apply Z.pow_le_mono_r; lia.
Qed.

(** *** Sums of weights *)

Lemma small_capped (w : float) : small w → capped w.
Proof.
  intros (m & e & -> & He & Hm). exists m, e. split; [done |]. split; [lia |].
  assert (2 ^ (e + 1074) ≤ 2 ^ 1024) by (apply Z.pow_le_mono_r; lia).
  pose proof (pow2_pos (e + 1074)).
  change (2 ^ 1134) with (2 ^ 53 * 2 ^ 1081).
  assert (2 ^ 1024 ≤ 2 ^ 1081) by (apply Z.pow_le_mono_r; lia).
  nia.
Qed.

(** Adding a number below 8 to a positive number of at most 2^60 gives a
    positive number of at most 2^60 (no overflow, no cancellation). *)
Lemma add_capped (x w : float) :
  capped x → small w → capped (fadd x w).
Proof.
  intros (m1 & e1 & -> & He1 & Hv1) (m2 & e2 & -> & He2 & Hm2).
  unfold fadd, SFadd, cond_Zopp. set (ez := Z.min e1 e2).
  assert (-1074 ≤ ez ≤ -50) as Hez by (unfold ez; lia).
  pose proof (shl_align_fst m1 e1 ez ltac:(unfold ez; lia)) as H1.
  pose proof (shl_align_fst m2 e2 ez ltac:(unfold ez; lia)) as H2.
  set (a := fst (shl_align m1 e1 ez)) in *.
  set (b := fst (shl_align m2 e2 ez)) in *.
  change (Zpos a + Zpos b) with (Zpos (a + b)). unfold binary_normalize.
  destruct (binary_round_capped (a + b) ez Hez)
    as (m' & e' & -> & He' & Hv').
  - rewrite Pos2Z.inj_add, H1, H2.
    assert (Zpos m1 * 2 ^ (e1 - ez) ≤ 2 ^ (60 - ez)).
    { assert (0 < 2 ^ (ez + 1074)) as Hp by (apply pow2_pos; lia).
      apply (Z.mul_le_mono_pos_r _ _ _ Hp).
      rewrite <- Z.mul_assoc, <- !Z.pow_add_r by lia.
      replace (e1 - ez + (ez + 1074)) with (e1 + 1074) by lia.
      replace (60 - ez + (ez + 1074)) with 1134 by lia. done. }
    assert (Zpos m2 * 2 ^ (e2 - ez) < 2 ^ (3 - ez)).
    { assert (0 < 2 ^ (e2 - ez)) as Hp by (apply pow2_pos; lia).
      assert (2 ^ 53 * 2 ^ (e2 - ez) ≤ 2 ^ (3 - ez)).
      { rewrite <- Z.pow_add_r by lia. apply Z.pow_le_mono_r; lia. }
      nia. }
    lia.
  - exists m', e'. done.
Qed.

(** A binary64 number between 0.1 and 5.0 is positive, finite and below
    8. *)
Lemma stored_weight_small (w : float) :
  binary64 w → fleb (lit 0.1) w = true → fleb w (lit 5.0) = true → small w.
Proof.
  unfold binary64, fleb. intros Hvalid Hlo Hhi.
  destruct w as [s | s | | s m e]; try (by destruct s); try done.
  destruct s; [done |].
  exists m, e. split; [done |].
  simpl in Hvalid. unfold bounded, canonical_mantissa in Hvalid.
  apply andb_true_iff in Hvalid as [Hcanon _].
  apply Z.eqb_eq in Hcanon. rewrite fexp_spec in Hcanon.
  pose proof (digits2_bounds m) as [_ Hm].
  assert (2 ^ Zpos (digits2_pos m) ≤ 2 ^ 53)
    by (apply Z.pow_le_mono_r; lia).
  split; [| lia]. split; [lia |].
  change (lit 5.0) with (S754_finite false 5629499534213120 (-50)) in Hhi.
  unfold SFleb, SFcompare in Hhi.
  destruct (Z.compare_spec e (-50)); [lia | lia | done].
Qed.

(** *** No [nan] from a division, and the order is total without it *)

Lemma shr_m_nonneg (mrs : shr_record) (e n : Z) :
  0 ≤ shr_m mrs → 0 ≤ shr_m (fst (shr mrs e n)).
Proof.
  intros Hm. destruct n as [|p|p]; simpl; [done | | done].
  rewrite iter_pos_nat.
  destruct (shr_iter_spec (Pos.to_nat p) mrs Hm) as [-> _].
  apply Z.div_pos; [done |]. apply Z.pow_pos_nonneg; lia.
Qed.

Lemma shr_record_of_loc_m (m : Z) (l : location) :
  shr_m (shr_record_of_loc m l) = m.
Proof. by destruct l as [|[]]. Qed.

Lemma binary_round_aux_not_nan (sx : bool) (mx ex : Z) (lx : location) :
  0 ≤ mx → binary_round_aux 53 1024 sx mx ex lx ≠ S754_nan.
Proof.
  intros Hmx. unfold binary_round_aux, shr_fexp.
  match goal with
  | |- context [shr ?r ?e ?n] =>
      pose proof (shr_m_nonneg r e n) as H1; destruct (shr r e n) as [mrs' e']
  end.
  rewrite shr_record_of_loc_m in H1. specialize (H1 Hmx). simpl in H1.
  pose proof (round_nearest_even_range (shr_m mrs') (loc_of_shr_record mrs'))
    as [Hq _].
  match goal with
  | |- context [shr ?r ?e ?n] =>
      pose proof (shr_m_nonneg r e n) as H2; destruct (shr r e n) as [mrs'' e'']
  end.
  rewrite shr_record_of_loc_m in H2. simpl in H2.
  destruct (shr_m mrs'') as [|p|p]; [done | | lia].
  by destruct (e'' <=? 1024 - 53).
Qed.

Lemma div_core_nonneg (m1 e1 m2 e2 : Z) :
  0 ≤ m1 → 0 < m2 →
  0 ≤ (SFdiv_core_binary 53 1024 m1 e1 m2 e2).1.1.
Proof.
  intros H1 H2. unfold SFdiv_core_binary.
  set (s := e1 - e2 - _).
  set (m' := match s with 0 => m1 | Z.pos _ => Z.shiftl m1 s | Z.neg _ => 0 end).
  assert (0 ≤ m') as Hm'.
  { unfold m'. destruct s; [lia | by apply Z.shiftl_nonneg | lia]. }
  pose proof (Z.div_pos m' m2 Hm' H2) as Hdiv. unfold Z.div in Hdiv.
  by destruct (Z.div_eucl m' m2).
Qed.

Lemma quotient_not_nan (a b : N) : b ≠ 0%N → quotient a b ≠ S754_nan.
Proof.
  intros Hb. unfold quotient, of_int.
  destruct b as [|q]; [done |]. destruct a as [|p]; [done |].
  unfold SFdiv.
  pose proof (div_core_nonneg (Zpos p) 0 (Zpos q) 0 ltac:(lia) ltac:(lia))
    as Hnonneg.
  destruct (SFdiv_core_binary 53 1024 (Z.pos p) 0 (Z.pos q) 0) as [[mz ez] lz].
  by apply binary_round_aux_not_nan.
Qed.

Lemma SFcompare_antisym (x y : float) :
  SFcompare y x = CompOpp <$> SFcompare x y.
Proof.
  destruct x as [[] | [] | | [] mx ex], y as [[] | [] | | [] my ey];
    try done; simpl.
  - rewrite (Z.compare_antisym ex ey).
    destruct (ex ?= ey); simpl; try done.
    pose proof (Pos.compare_cont_antisym mx my Eq) as H. simpl in H.
    by rewrite <- H.
  - rewrite (Z.compare_antisym ex ey).
    destruct (ex ?= ey); simpl; try done.
    pose proof (Pos.compare_cont_antisym mx my Eq) as H. simpl in H.
    by rewrite <- H.
Qed.

Lemma fleb_false_fltb (x y : float) :
  x ≠ S754_nan → y ≠ S754_nan → fleb x y = false → fltb y x = true.
Proof.
  unfold fleb, fltb, SFleb, SFltb. rewrite (SFcompare_antisym x y).
  intros Hx Hy.
  destruct (SFcompare x y) as [[]|] eqn:E; simpl; try done.
  destruct x as [sx | sx | | sx mx ex], y as [sy | sy | | sy my ey];
    try done; simpl in E; done.
Qed.

(** The order of [SFcompare] is transitive. *)
Lemma SFcompare_lt_trans (x y z : float) :
  SFcompare x y = Some Lt → SFcompare y z = Some Lt →
  SFcompare x z = Some Lt.
Proof.
  destruct x as [[] | [] | | [] mx ex], y as [[] | [] | | [] my ey],
    z as [[] | [] | | [] mz ez]; try done; simpl;
    change (Pos.compare_cont Eq) with Pos.compare;
    destruct (Z.compare_spec ex ey), (Z.compare_spec ey ez),
      (Z.compare_spec ex ez); try done; try lia;
    destruct (Pos.compare_spec mx my), (Pos.compare_spec my mz),
      (Pos.compare_spec mx mz); try done; try lia.
Qed.

Lemma fltb_trans (x y z : float) :
  fltb x y = true → fltb y z = true → fltb x z = true.
Proof.
  unfold fltb, SFltb. intros Hxy Hyz.
  destruct (SFcompare x y) as [[]|] eqn:Exy; try done.
  destruct (SFcompare y z) as [[]|] eqn:Eyz; try done.
  by rewrite (SFcompare_lt_trans x y z Exy Eyz).
Qed.

Lemma fltb_not_fleb (x y : float) : fltb x y = true → fleb y x = false.
Proof.
  unfold fltb, fleb, SFltb, SFleb. rewrite (SFcompare_antisym x y).
  by destruct (SFcompare x y) as [[]|].
Qed.

(** *** A quotient of at most 1 is finite *)

Lemma Zdigits2_le (m k : Z) : 0 ≤ k → 0 ≤ m < 2 ^ k → Zdigits2 m ≤ k.
Proof.
  intros Hk [Hm Hlt]. destruct m as [|p|p]; simpl; [done | | lia].
  pose proof (digits2_bounds p) as [Hlo _].
  destruct (Z.le_gt_cases (Zpos (digits2_pos p)) k) as [|Hgt]; [done |].
  exfalso.
  assert (2 ^ k ≤ 2 ^ (Zpos (digits2_pos p) - 1))
    by (apply Z.pow_le_mono_r; lia).
  lia.
Qed.

Lemma Zdigits2_mono (m n : positive) :
  (m ≤ n)%positive → Zdigits2 (Zpos m) ≤ Zdigits2 (Zpos n).
Proof.
  intros Hle. apply Zdigits2_le; [simpl; lia |].
  pose proof (digits2_bounds n) as [_ Hhi]. simpl. lia.
Qed.

Lemma shr_snd (mrs : shr_record) (e n : Z) :
  (shr mrs e n).2 = Z.max e (e + n).
Proof. destruct n; simpl; lia. Qed.

Lemma shr_m_le (mrs : shr_record) (e n : Z) :
  0 ≤ shr_m mrs → shr_m (shr mrs e n).1 ≤ shr_m mrs.
Proof.
  intros Hm. destruct n as [|p|p]; simpl; [done | | done].
  rewrite iter_pos_nat.
  destruct (shr_iter_spec (Pos.to_nat p) mrs Hm) as [-> _].
  assert (0 < 2 ^ Z.of_nat (Pos.to_nat p)) as Hpow
    by (apply Z.pow_pos_nonneg; lia).
  apply Z.div_le_upper_bound; [done | nia].
Qed.

(** A mantissa of at most 2^-e in units of 2^e, that is a number of at
    most 1, is rounded to a finite number. *)
Lemma binary_round_aux_finite (sx : bool) (mx ex : Z) (lx : location) :
  -1074 ≤ ex ≤ -52 → 0 ≤ mx ≤ 2 ^ (- ex) →
  isfinite (binary_round_aux 53 1024 sx mx ex lx) = true.
Proof.
  intros He [Hm0 Hm]. unfold binary_round_aux, shr_fexp.
  assert (2 ^ (- ex) ≤ 2 ^ 1074) as Hpow by (apply Z.pow_le_mono_r; lia).
  assert (2 ^ (- ex) < 2 ^ (- ex + 1)) as Hpow'
    by (apply Z.pow_lt_mono_r; lia).
  assert (2 ^ 1074 + 1 < 2 ^ 1075) as Hpow''.
  { change 1075 with (Z.succ 1074). rewrite Z.pow_succ_r by lia.
    assert (1 < 2 ^ 1074) by (apply Z.pow_gt_1; lia). lia. }
  pose proof (Zdigits2_le mx (- ex + 1) ltac:(lia) ltac:(lia)) as Hd1.
  pose proof (fexp_spec (Zdigits2 mx + ex)) as Hf1.
  set (n1 := fexp 53 1024 (Zdigits2 mx + ex) - ex) in *.
  pose proof (shr_snd (shr_record_of_loc mx lx) ex n1) as Hs1.
  pose proof (shr_m_le (shr_record_of_loc mx lx) ex n1) as Hle1.
  pose proof (shr_m_nonneg (shr_record_of_loc mx lx) ex n1) as Hnn1.
  rewrite shr_record_of_loc_m in Hle1, Hnn1.
  specialize (Hle1 Hm0). specialize (Hnn1 Hm0).
  destruct (shr (shr_record_of_loc mx lx) ex n1) as [mrs' e'].
  cbn [fst snd] in Hs1, Hle1, Hnn1.
  pose proof (round_nearest_even_range (shr_m mrs') (loc_of_shr_record mrs'))
    as [Hr0 Hr1].
  set (m2 := round_nearest_even (shr_m mrs') (loc_of_shr_record mrs')) in *.
  pose proof (Zdigits2_le m2 1075 ltac:(lia) ltac:(lia)) as Hd2.
  pose proof (fexp_spec (Zdigits2 m2 + e')) as Hf2.
  set (n2 := fexp 53 1024 (Zdigits2 m2 + e') - e') in *.
  pose proof (shr_snd (shr_record_of_loc m2 loc_Exact) e' n2) as Hs2.
  pose proof (shr_m_nonneg (shr_record_of_loc m2 loc_Exact) e' n2) as Hnn2.
  rewrite shr_record_of_loc_m in Hnn2. specialize (Hnn2 ltac:(lia)).
  destruct (shr (shr_record_of_loc m2 loc_Exact) e' n2) as [mrs'' e''].
  cbn [fst snd] in Hs2, Hnn2.
  destruct (shr_m mrs'') as [|p|p]; [done | | lia].
  destruct (Z.leb_spec e'' (1024 - 53)) as [|Hgt]; [done | lia].
Qed.

Lemma div_core_le_one (m1 m2 : positive) :
  (m1 ≤ m2)%positive →
  ∃ q e l, SFdiv_core_binary 53 1024 (Zpos m1) 0 (Zpos m2) 0 = (q, e, l) ∧
           -1074 ≤ e ≤ -52 ∧ 0 ≤ q ≤ 2 ^ (- e).
Proof.
  intros Hle. pose proof (Zdigits2_mono m1 m2 Hle) as Hd.
  unfold SFdiv_core_binary.
  pose proof (fexp_spec (Zdigits2 (Zpos m1) + 0 - (Zdigits2 (Zpos m2) + 0)))
    as Hf.
  set (e' := Z.min (fexp 53 1024 _) (0 - 0)) in *.
  assert (-1074 ≤ e' ≤ -53) as He' by (unfold e'; lia).
  assert (0 - 0 - e' = - e') as -> by lia.
  destruct (- e') as [|s|s] eqn:Es; [lia | | lia].
  rewrite Z.shiftl_mul_pow2 by lia.
  assert (0 < 2 ^ Zpos s) as Hpow by (apply Z.pow_pos_nonneg; lia).
  pose proof (Z.div_pos (Zpos m1 * 2 ^ Zpos s) (Zpos m2) ltac:(lia)
                ltac:(lia)) as Hq0.
  assert (Zpos m1 * 2 ^ Zpos s / Zpos m2 ≤ 2 ^ Zpos s) as Hq1.
  { apply Z.div_le_upper_bound; [lia |]. nia. }
  unfold Z.div in Hq0, Hq1.
  destruct (Z.div_eucl (Zpos m1 * 2 ^ Zpos s) (Zpos m2)) as [q r].
  exists q, e', (new_location (Zpos m2) r).
  split; [done |]. split; [lia |]. by rewrite Es.
Qed.

(** The quotient of two integers [a <= b] is finite: [a / b] returns. *)
Lemma quotient_finite (a b : N) :
  b ≠ 0%N → (a ≤ b)%N → isfinite (quotient a b) = true.
Proof.
  intros Hb Hle. unfold quotient, of_int.
  destruct b as [|q]; [done |]. destruct a as [|p]; [done |].
  unfold SFdiv.
  destruct (div_core_le_one p q ltac:(lia)) as (mz & ez & lz & -> & He & Hm).
  by apply binary_round_aux_finite.
Qed.

Lemma truediv_bounded (a b : N) :
  b ≠ 0%N → (a ≤ b)%N → truediv a b = PyExc.Return (quotient a b).
Proof.
  intros Hb Hle. unfold truediv.
  destruct (N.eqb_spec b 0) as [|_]; [done |].
  by rewrite quotient_finite.
Qed.

(** What [a / b] returns is the rounded quotient, and it is finite. *)
Lemma truediv_return (a b : N) (x : float) :
  truediv a b = PyExc.Return x →
  b ≠ 0%N ∧ x = quotient a b ∧ isfinite x = true.
Proof.
  unfold truediv. destruct (N.eqb_spec b 0) as [|Hb]; [done |].
  destruct (isfinite (quotient a b)) eqn:E; [| done].
  by intros [= <-].
Qed.

(** The only exceptions of [a / b]: a zero divisor, or a quotient that is
    not finite. *)
Lemma truediv_raise (a b : N) (e : PyExc.PyExn) :
  truediv a b = PyExc.Raise e →
  (b = 0%N ∧ e = PyExc.ZeroDivisionError) ∨
  (b ≠ 0%N ∧ isfinite (quotient a b) = false ∧ e = PyExc.OverflowError).
Proof.
  unfold truediv. destruct (N.eqb_spec b 0) as [|Hb].
  - intros [= <-]. by left.
  - destruct (isfinite (quotient a b)) eqn:E; [done |].
    intros [= <-]. by right.
Qed.

End FloatFacts.

(** ** The adaptive weight *)

Module WeightFacts.
Import PyExc PyFloat PyRandom WordPicker WeightSpec FloatFacts.

Ltac literal := vm_compute; discriminate.

(** The three factors computed by the code are the ones the
    specification tabulates. *)
Lemma base_weight_spec (accuracy : float) :
  accuracy ≠ S754_nan → base_of accuracy (base_weight accuracy).
Proof.
  intros Hnan. unfold base_weight.
  destruct (fleb (lit 0.8) accuracy) eqn:E1; [by apply base_high |].
  apply fleb_false_fltb in E1; [| literal | done].
  destruct (fleb (lit 0.6) accuracy) eqn:E2; [by apply base_moderate |].
  apply fleb_false_fltb in E2; [| literal | done].
  destruct (fleb (lit 0.4) accuracy) eqn:E3; [by apply base_low |].
  apply fleb_false_fltb in E3; [| literal | done].
  by apply base_very_low.
Qed.

Lemma consecutive_modifier_spec (stats : WordStats) :
  consecutive_mult_of stats
    (consecutive_modifier (consecutive_correct stats)
       (consecutive_wrong stats)).
Proof.
  unfold consecutive_modifier.
  destruct (N.leb_spec 3 (consecutive_correct stats)).
  { by apply mult_streak. }
  destruct (N.leb_spec 2 (consecutive_wrong stats)).
  { by apply mult_misses. }
  by apply mult_neutral.
Qed.

Lemma attempt_modifier_spec (stats : WordStats) :
  attempt_mult_of stats (attempt_modifier (total_attempts stats)).
Proof.
  unfold attempt_modifier.
  destruct (N.leb_spec (total_attempts stats) 3).
  { by apply mult_new. }
  destruct (N.leb_spec 10 (total_attempts stats)).
  { by apply mult_practiced. }
  by apply mult_between.
Qed.

(** The tables of the specification are functions: the bracket of an
    accuracy and the multiplier of a number of attempts are the ones the
    code computes, and no others. *)
Lemma base_of_unique (accuracy base : float) :
  base_of accuracy base → base = base_weight accuracy.
Proof.
  assert (fltb (lit 0.4) (lit 0.6) = true) as H46 by reflexivity.
  assert (fltb (lit 0.6) (lit 0.8) = true) as H68 by reflexivity.
  unfold base_weight. intros [H8 | H6 H8 | H4 H6 | H4].
  - by rewrite H8.
  - by rewrite (fltb_not_fleb _ _ H8), H6.
  - pose proof (fltb_trans _ _ _ H6 H68) as H8.
    by rewrite (fltb_not_fleb _ _ H8), (fltb_not_fleb _ _ H6), H4.
  - pose proof (fltb_trans _ _ _ H4 H46) as H6.
    pose proof (fltb_trans _ _ _ H6 H68) as H8.
    by rewrite (fltb_not_fleb _ _ H8), (fltb_not_fleb _ _ H6),
      (fltb_not_fleb _ _ H4).
Qed.

Lemma attempt_mult_of_unique (stats : WordStats) (amult : float) :
  attempt_mult_of stats amult →
  amult = attempt_modifier (total_attempts stats).
Proof.
  unfold attempt_modifier. intros [H | H | H1 H2].
  - by destruct (N.leb_spec (total_attempts stats) 3); [| lia].
  - destruct (N.leb_spec (total_attempts stats) 3); [lia |].
    by destruct (N.leb_spec 10 (total_attempts stats)); [| lia].
  - destruct (N.leb_spec (total_attempts stats) 3); [lia |].
    by destruct (N.leb_spec 10 (total_attempts stats)); [lia |].
Qed.

(** Case analysis on the tests of the three tables: what is left is one
    of the 36 products of constants. *)
Ltac tables :=
  unfold base_weight, consecutive_modifier, attempt_modifier;
  repeat match goal with
         | |- context [if fleb ?a ?b then _ else _] => destruct (fleb a b)
         | |- context [if N.leb ?a ?b then _ else _] => destruct (N.leb a b)
         end.

(** With at least one attempt, the weight is computed from what the
    division returns, and the exception of the division is the one of
    the function. *)
Lemma calculate_adaptive_weight_eq (stats : WordStats) :
  total_attempts stats ≠ 0%N →
  _calculate_adaptive_weight stats =
  match truediv (correct_count stats) (total_attempts stats) with
  | Return accuracy =>
      Return
        (py_max (lit 0.1)
           (py_min (lit 5.0)
              (fmul
                 (fmul (base_weight accuracy)
                    (consecutive_modifier (consecutive_correct stats)
                       (consecutive_wrong stats)))
                 (attempt_modifier (total_attempts stats)))))
  | Raise e => Raise e
  end.
Proof.
  intros Htot. unfold _calculate_adaptive_weight.
  apply N.eqb_neq in Htot. rewrite Htot.
  by destruct (truediv (correct_count stats) (total_attempts stats)).
Qed.

(** The division of a record with attempts: the rounded quotient when
    it is finite, [OverflowError] otherwise. *)
Lemma truediv_accuracy (stats : WordStats) :
  total_attempts stats ≠ 0%N →
  truediv (correct_count stats) (total_attempts stats) =
  if isfinite (accuracy_of stats) then Return (accuracy_of stats)
  else Raise OverflowError.
Proof.
  intros Htot. unfold truediv, accuracy_of.
  apply N.eqb_neq in Htot. by rewrite Htot.
Qed.

(** [max(0.1, min(5.0, x))] is the clamp of the product. *)
Lemma calculate_adaptive_weight_clamp (stats : WordStats) :
  total_attempts stats ≠ 0%N →
  _calculate_adaptive_weight stats =
  if isfinite (accuracy_of stats) then
    Return
      (clamp
         (fmul
            (fmul (base_weight (accuracy_of stats))
               (consecutive_modifier (consecutive_correct stats)
                  (consecutive_wrong stats)))
            (attempt_modifier (total_attempts stats)))
         (lit 0.1) (lit 5.0))
  else Raise OverflowError.
Proof.
  intros Htot.
  rewrite calculate_adaptive_weight_eq, truediv_accuracy by done.
  destruct (isfinite (accuracy_of stats)); [| done].
  f_equal. tables; vm_compute; reflexivity.
Qed.

(** A record with no more correct answers than attempts: the division
    returns. *)
Lemma accuracy_finite (stats : WordStats) :
  total_attempts stats ≠ 0%N → counts_bounded stats →
  isfinite (accuracy_of stats) = true.
Proof. intros Htot Hle. by apply quotient_finite. Qed.

Lemma calculate_adaptive_weight_returns (stats : WordStats) :
  counts_bounded stats → ∃ w, _calculate_adaptive_weight stats = Return w.
Proof.
  intros Hle. destruct (N.eq_dec (total_attempts stats) 0%N) as [Hz | Hnz].
  - unfold _calculate_adaptive_weight. rewrite Hz. simpl. eauto.
  - rewrite calculate_adaptive_weight_clamp, accuracy_finite by done. eauto.
Qed.

(** The only exception of [_calculate_adaptive_weight]. *)
Lemma calculate_adaptive_weight_raise (stats : WordStats) (e : PyExn) :
  _calculate_adaptive_weight stats = Raise e →
  e = OverflowError ∧ total_attempts stats ≠ 0%N ∧
  isfinite (accuracy_of stats) = false.
Proof.
  destruct (N.eq_dec (total_attempts stats) 0%N) as [Hz | Hnz].
  - unfold _calculate_adaptive_weight. by rewrite Hz.
  - rewrite calculate_adaptive_weight_clamp by done.
    destruct (isfinite (accuracy_of stats)); [done |]. by intros [= <-].
Qed.

(** What the function returns is a number between 0.1 and 5.0. *)
Lemma calculate_adaptive_weight_stored (stats : WordStats) (w : float) :
  _calculate_adaptive_weight stats = Return w → stored_weight w.
Proof.
  destruct (N.eq_dec (total_attempts stats) 0%N) as [Hz | Hnz].
  - unfold _calculate_adaptive_weight. rewrite Hz. simpl.
    intros [= <-]. by vm_compute.
  - rewrite calculate_adaptive_weight_eq by done.
    destruct (truediv _ _) as [accuracy | e]; [| done].
    intros [= <-]. unfold stored_weight, binary64. tables; by vm_compute.
Qed.

(** The weight is a function of the counters. *)
Lemma calculate_adaptive_weight_set_weight (stats : WordStats) (w : float) :
  _calculate_adaptive_weight (set_weight stats w)
  = _calculate_adaptive_weight stats.
Proof. reflexivity. Qed.

(** With a streak of three and at least one attempt the clamp leaves the
    product untouched. *)
Lemma calculate_adaptive_weight_streak (stats : WordStats) :
  (3 ≤ consecutive_correct stats)%N →
  total_attempts stats ≠ 0%N →
  isfinite (accuracy_of stats) = true →
  _calculate_adaptive_weight stats =
  Return
    (fmul (fmul (base_weight (accuracy_of stats)) (lit 0.5))
       (attempt_modifier (total_attempts stats))).
Proof.
  intros Hcc Htot Hfin.
  rewrite calculate_adaptive_weight_eq, truediv_accuracy, Hfin by done.
  f_equal. unfold consecutive_modifier. apply N.leb_le in Hcc. rewrite Hcc.
  tables; vm_compute; reflexivity.
Qed.

(** Every product with the streak multiplier is a number, hence at most
    itself. *)
Lemma streak_product_le (accuracy : float) (total_attempts : N) :
  fleb
    (fmul (fmul (base_weight accuracy) (lit 0.5))
       (attempt_modifier total_attempts))
    (fmul (fmul (base_weight accuracy) (lit 0.5))
       (attempt_modifier total_attempts)) = true.
Proof. tables; vm_compute; reflexivity. Qed.

End WeightFacts.

(** ** The weight store *)

Module StoreFacts.
Import PyExc PyFloat PyRandom WordPicker WeightSpec StoreSpec.
Import FloatFacts WeightFacts.

Lemma counted_total (word_weights : gmap string WordStats) (key : string)
    (is_correct : bool) (now : string) :
  total_attempts (counted word_weights key is_correct now) ≠ 0%N.
Proof. unfold counted. destruct is_correct; simpl; lia. Qed.

(** The call in one piece: the answer is counted in place; the weight is
    stored when [_calculate_adaptive_weight] returns one, and the
    exception leaves the call otherwise (the division for the log has
    the same operands and raises nothing new). *)
Lemma update_cases (word_weights : gmap string WordStats)
    (word word_class level : string) (is_correct : bool) (now : string) :
  let key := word_key word word_class level in
  let word_stats := counted word_weights key is_correct now in
  update_word_performance word_weights word word_class level is_correct now
  = match _calculate_adaptive_weight word_stats with
    | Return new_weight =>
        (<[key := set_weight word_stats new_weight]> word_weights,
         Return tt)
    | Raise e => (<[key := word_stats]> word_weights, Raise e)
    end.
Proof.
  intros key word_stats.
  pose proof (counted_total word_weights key is_correct now) as Htot.
  pose proof (calculate_adaptive_weight_eq _ Htot) as Heq.
  unfold update_word_performance. fold key. subst word_stats.
  unfold counted in *.
  destruct (word_weights !! key) as [s|] eqn:E; cbn [from_option id] in *.
  - rewrite E. cbn beta iota zeta. rewrite Heq.
    destruct (truediv _ _); by rewrite ?insert_insert_eq.
  - rewrite lookup_insert_eq. cbn beta iota zeta. rewrite Heq.
    destruct (truediv _ _); by rewrite ?insert_insert_eq.
Qed.

(** The record found under the key after [update_word_performance]. *)
Lemma update_lookup (word_weights : gmap string WordStats)
    (word word_class level : string) (is_correct : bool) (now : string) :
  let word_stats :=
    counted word_weights (word_key word word_class level) is_correct now in
  (update_word_performance word_weights word word_class level is_correct
     now).1 !! word_key word word_class level =
  Some (match _calculate_adaptive_weight word_stats with
        | Return new_weight => set_weight word_stats new_weight
        | Raise _ => word_stats
        end).
Proof.
  cbn zeta. rewrite update_cases. cbn zeta.
  destruct (_calculate_adaptive_weight _); simpl;
    by rewrite lookup_insert_eq.
Qed.

(** The counters that an update leaves under its key, whether or not the
    weight could be stored. *)
Lemma update_counters (word_weights : gmap string WordStats)
    (word word_class level : string) (is_correct : bool) (now : string) :
  let key := word_key word word_class level in
  let word_stats := counted word_weights key is_correct now in
  ∃ stored,
    (update_word_performance word_weights word word_class level is_correct
       now).1 !! key = Some stored ∧
    correct_count stored = correct_count word_stats ∧
    wrong_count stored = wrong_count word_stats ∧
    total_attempts stored = total_attempts word_stats ∧
    consecutive_correct stored = consecutive_correct word_stats ∧
    consecutive_wrong stored = consecutive_wrong word_stats ∧
    last_seen stored = last_seen word_stats.
Proof.
  cbn zeta. rewrite update_lookup. cbn zeta.
  eexists. split; [done |]. by destruct (_calculate_adaptive_weight _).
Qed.

Lemma update_lookup_ne (word_weights : gmap string WordStats)
    (word word_class level : string) (is_correct : bool) (now key : string) :
  key ≠ word_key word word_class level →
  (update_word_performance word_weights word word_class level is_correct
     now).1 !! key = word_weights !! key.
Proof.
  intros Hne. rewrite update_cases. cbn zeta.
  destruct (_calculate_adaptive_weight _); simpl;
    by rewrite lookup_insert_ne.
Qed.

(** How the call ends: with the result of [_calculate_adaptive_weight]
    on the counted record. *)
Lemma update_result (word_weights : gmap string WordStats)
    (word word_class level : string) (is_correct : bool) (now : string) :
  (update_word_performance word_weights word word_class level is_correct
     now).2 =
  match
    _calculate_adaptive_weight
      (counted word_weights (word_key word word_class level) is_correct now)
  with
  | Return _ => Return tt
  | Raise e => Raise e
  end.
Proof.
  rewrite update_cases. cbn zeta.
  by destruct (_calculate_adaptive_weight _).
Qed.

Lemma counted_bounded (word_weights : gmap string WordStats) (key : string)
    (is_correct : bool) (now : string) :
  counts_bounded (default new_word_stats (word_weights !! key)) →
  counts_bounded (counted word_weights key is_correct now).
Proof.
  unfold counts_bounded, counted. destruct is_correct; simpl; lia.
Qed.

(** The call returns for a record with no more correct answers than
    attempts, or for a word without a record. *)
Lemma update_returns (word_weights : gmap string WordStats)
    (word word_class level : string) (is_correct : bool) (now : string) :
  counts_bounded
    (default new_word_stats
       (word_weights !! word_key word word_class level)) →
  (update_word_performance word_weights word word_class level is_correct
     now).2 = Return tt.
Proof.
  intros Hle. rewrite update_result.
  destruct (calculate_adaptive_weight_returns
              (counted word_weights (word_key word word_class level)
                 is_correct now)) as [w ->]; [| done].
  by apply counted_bounded.
Qed.

(** The only exception of the call. *)
Lemma update_raise (word_weights : gmap string WordStats)
    (word word_class level : string) (is_correct : bool) (now : string)
    (e : PyExn) :
  (update_word_performance word_weights word word_class level is_correct
     now).2 = Raise e →
  e = OverflowError.
Proof.
  rewrite update_result.
  destruct (_calculate_adaptive_weight _) as [w | e'] eqn:E; [done |].
  intros [= <-]. by apply calculate_adaptive_weight_raise in E as [-> _].
Qed.

Lemma run_cons (word_weights : gmap string WordStats) (c : call)
    (calls : list call) :
  run word_weights (c :: calls) =
  match (exec word_weights c).2 with
  | Return _ => run (exec word_weights c).1 calls
  | Raise e => ((exec word_weights c).1, Raise e)
  end.
Proof. simpl. by destruct (exec word_weights c) as [ww [[] | e]]. Qed.

Lemma run_single (word_weights : gmap string WordStats) (c : call) :
  run word_weights [c] = exec word_weights c.
Proof. simpl. by destruct (exec word_weights c) as [ww [[] | e]]. Qed.

Lemma run_app (word_weights : gmap string WordStats)
    (calls calls' : list call) :
  run word_weights (calls ++ calls') =
  match (run word_weights calls).2 with
  | Return _ => run (run word_weights calls).1 calls'
  | Raise e => ((run word_weights calls).1, Raise e)
  end.
Proof.
  revert word_weights. induction calls as [|c calls IH]; intros word_weights.
  - done.
  - rewrite <- app_comm_cons, !run_cons.
    destruct (exec word_weights c).2 as [[] | e]; [apply IH | done].
Qed.

Lemma run_snoc (word_weights : gmap string WordStats) (calls : list call)
    (c : call) :
  (run word_weights calls).2 = Return tt →
  run word_weights (calls ++ [c]) = exec (run word_weights calls).1 c.
Proof.
  intros Hret. by rewrite run_app, Hret, run_single.
Qed.

Lemma reset_word_lookup_ne (word_weights : gmap string WordStats)
    (word word_class level key : string) :
  key ≠ word_key word word_class level →
  reset_word_stats word_weights word word_class level !! key
  = word_weights !! key.
Proof.
  intros Hne. unfold reset_word_stats.
  destruct (word_weights !! word_key word word_class level); [|done].
  by rewrite lookup_insert_ne.
Qed.

Lemma reset_all_lookup (word_weights : gmap string WordStats)
    (key : string) (stats : WordStats) :
  reset_all_stats word_weights !! key = Some stats → stats = new_word_stats.
Proof.
  unfold reset_all_stats. rewrite lookup_fmap.
  destruct (word_weights !! key); simpl; congruence.
Qed.

(** *** Properties of records that every call keeps *)

Section Preserved.

Variable P : WordStats → Prop.
Hypothesis Hnew : P new_word_stats.
Hypothesis Hattempt :
  ∀ word_stats is_correct now,
    P word_stats → P (record_attempt word_stats is_correct now).
Hypothesis Hweight :
  ∀ word_stats new_weight,
    P word_stats →
    _calculate_adaptive_weight word_stats = Return new_weight →
    P (set_weight word_stats new_weight).

Lemma update_preserved (word_weights : gmap string WordStats)
    (word word_class level : string) (is_correct : bool) (now : string) :
  map_Forall (λ _, P) word_weights →
  map_Forall (λ _, P)
    (update_word_performance word_weights word word_class level
       is_correct now).1.
Proof.
  intros Hall key stats Hlook.
  destruct (decide (key = word_key word word_class level)) as [-> | Hne].
  - rewrite update_lookup in Hlook. cbn zeta in Hlook.
    assert (P (counted word_weights (word_key word word_class level)
                 is_correct now)) as Hc.
    { apply Hattempt.
      destruct (word_weights !! word_key word word_class level) as [s|] eqn:E;
        simpl; [by apply (Hall _ _ E) | done]. }
    destruct (_calculate_adaptive_weight _) as [w | e] eqn:Ew;
      injection Hlook as <-; [by apply Hweight | done].
  - rewrite update_lookup_ne in Hlook by done. by apply (Hall key).
Qed.

Lemma reset_word_preserved (word_weights : gmap string WordStats)
    (word word_class level : string) :
  map_Forall (λ _, P) word_weights →
  map_Forall (λ _, P) (reset_word_stats word_weights word word_class level).
Proof.
  intros Hall. unfold reset_word_stats.
  destruct (word_weights !! word_key word word_class level); [| done].
  by apply map_Forall_insert_2.
Qed.

Lemma reset_all_preserved (word_weights : gmap string WordStats) :
  map_Forall (λ _, P) (reset_all_stats word_weights).
Proof. by intros key stats ->%reset_all_lookup. Qed.

Lemma initialize_preserved (data_df : list Row)
    (word_weights : gmap string WordStats) :
  map_Forall (λ _, P) word_weights →
  map_Forall (λ _, P) (_initialize_new_words data_df word_weights).
Proof.
  revert word_weights.
  induction data_df as [|row rest IH]; intros word_weights Hall; simpl;
    [done |].
  apply IH. destruct (word_weights !! row_key row); [done |].
  by apply map_Forall_insert_2.
Qed.

Lemma exec_preserved (word_weights : gmap string WordStats) (c : call) :
  map_Forall (λ _, P) word_weights →
  map_Forall (λ _, P) (exec word_weights c).1.
Proof.
  intros Hall. destruct c; simpl.
  - by apply update_preserved.
  - by apply reset_word_preserved.
  - apply reset_all_preserved.
  - by apply initialize_preserved.
Qed.

Lemma run_preserved (word_weights : gmap string WordStats)
    (calls : list call) :
  map_Forall (λ _, P) word_weights →
  map_Forall (λ _, P) (run word_weights calls).1.
Proof.
  revert word_weights.
  induction calls as [|c calls IH]; intros word_weights Hall; [done |].
  rewrite run_cons. pose proof (exec_preserved word_weights c Hall) as Hc.
  destruct (exec word_weights c).2 as [[] | e]; [by apply IH | done].
Qed.

End Preserved.

(** *** The record invariant *)

Lemma new_word_stats_invariant : record_invariant new_word_stats.
Proof.
  unfold record_invariant, counts_add_up. simpl.
  repeat split; done.
Qed.

Lemma record_attempt_invariant (word_stats : WordStats) (is_correct : bool)
    (now : string) :
  record_invariant word_stats →
  record_invariant (record_attempt word_stats is_correct now).
Proof.
  unfold record_invariant, counts_add_up, exactly_one_streak.
  intros [Hsum _]. destruct is_correct; simpl; (split; [lia |]);
    (split; [lia |]); intros _; [left | right]; lia.
Qed.

Lemma run_invariant (word_weights : gmap string WordStats)
    (calls : list call) :
  map_Forall (λ _, record_invariant) word_weights →
  map_Forall (λ _, record_invariant) (run word_weights calls).1.
Proof.
  apply run_preserved;
    [apply new_word_stats_invariant | apply record_attempt_invariant | done].
Qed.

Lemma invariant_bounded (stats : WordStats) :
  record_invariant stats → counts_bounded stats.
Proof. unfold counts_bounded. intros [Hsum _]. rewrite Hsum. lia. Qed.

(** *** Records with no more correct answers than attempts: every call
    returns *)

Lemma new_word_stats_bounded : counts_bounded new_word_stats.
Proof. unfold counts_bounded. simpl. lia. Qed.

Lemma record_attempt_bounded (word_stats : WordStats) (is_correct : bool)
    (now : string) :
  counts_bounded word_stats →
  counts_bounded (record_attempt word_stats is_correct now).
Proof. unfold counts_bounded. destruct is_correct; simpl; lia. Qed.

Lemma exec_bounded (word_weights : gmap string WordStats) (c : call) :
  map_Forall (λ _, counts_bounded) word_weights →
  map_Forall (λ _, counts_bounded) (exec word_weights c).1.
Proof.
  apply exec_preserved;
    [apply new_word_stats_bounded | apply record_attempt_bounded | done].
Qed.

Lemma run_bounded (word_weights : gmap string WordStats)
    (calls : list call) :
  map_Forall (λ _, counts_bounded) word_weights →
  map_Forall (λ _, counts_bounded) (run word_weights calls).1.
Proof.
  apply run_preserved;
    [apply new_word_stats_bounded | apply record_attempt_bounded | done].
Qed.

Lemma default_bounded (word_weights : gmap string WordStats)
    (key : string) :
  map_Forall (λ _, counts_bounded) word_weights →
  counts_bounded (default new_word_stats (word_weights !! key)).
Proof.
  intros Hall. destruct (word_weights !! key) as [s|] eqn:E; simpl.
  - by apply (Hall _ _ E).
  - apply new_word_stats_bounded.
Qed.

Lemma exec_returns (word_weights : gmap string WordStats) (c : call) :
  map_Forall (λ _, counts_bounded) word_weights →
  (exec word_weights c).2 = Return tt.
Proof.
  intros Hall. destruct c; simpl; try done.
  apply update_returns. by apply default_bounded.
Qed.

Lemma run_returns (word_weights : gmap string WordStats)
    (calls : list call) :
  map_Forall (λ _, counts_bounded) word_weights →
  (run word_weights calls).2 = Return tt.
Proof.
  revert word_weights.
  induction calls as [|c calls IH]; intros word_weights Hall; [done |].
  rewrite run_cons, (exec_returns _ _ Hall). apply IH.
  by apply exec_bounded.
Qed.

(** The only exception of a run. *)
Lemma run_raise (word_weights : gmap string WordStats) (calls : list call)
    (e : PyExn) :
  (run word_weights calls).2 = Raise e → e = OverflowError.
Proof.
  revert word_weights.
  induction calls as [|c calls IH]; intros word_weights; [done |].
  rewrite run_cons.
  destruct (exec word_weights c).2 as [[] | e'] eqn:E; [apply IH |].
  intros [= <-]. destruct c; try done. by apply update_raise in E.
Qed.

End StoreFacts.
(** ** Weighted selection *)

Module RandomFacts.
Import PyExc PyFloat PyRandom WordPicker WeightSpec FloatFacts WeightFacts.

Lemma half_bounds (lo hi : nat) :
  (lo < hi)%nat → (lo ≤ (lo + hi) / 2 < hi)%nat.
Proof.
  intros Hlt. pose proof (Nat.div_mod_eq (lo + hi) 2).
  pose proof (Nat.mod_upper_bound (lo + hi) 2). lia.
Qed.

(** The index found by [bisect] lies between the two bounds, and no
    access of the search is out of range. *)
Lemma bisect_in_range (a : list float) (x : float) (lo hi : nat) :
  (lo ≤ hi)%nat → (hi ≤ length a)%nat →
  ∃ i, bisect a x lo hi = Some i ∧ (lo ≤ i ≤ hi)%nat.
Proof.
  funelim (bisect a x lo hi); intros Hle Hlen.
  - exists lo. split; [done | lia].
  - match goal with
    | H : a !! _ = None |- _ => apply lookup_ge_None in H
    end.
    pose proof (half_bounds lo hi). lia.
  - pose proof (half_bounds lo hi).
    match goal with
    | IH : _ → _ → ∃ i, bisect _ _ _ _ = Some i ∧ _ |- _ =>
        destruct IH as (i & Hi & Hrange); [lia | lia |]
    end.
    exists i. split; [done | lia].
  - pose proof (half_bounds lo hi).
    match goal with
    | IH : _ → _ → ∃ i, bisect _ _ _ _ = Some i ∧ _ |- _ =>
        destruct IH as (i & Hi & Hrange); [lia | lia |]
    end.
    exists i. split; [done | lia].
Qed.

Lemma length_accumulate_from (acc : float) (ws : list float) :
  length (accumulate_from acc ws) = length ws.
Proof.
  revert acc. induction ws as [|w ws IH]; intros acc; simpl; [done |].
  by rewrite IH.
Qed.

Lemma length_accumulate (ws : list float) :
  length (accumulate ws) = length ws.
Proof. destruct ws; simpl; [done |]. by rewrite length_accumulate_from. Qed.

(** The running sums of numbers below 8 never exceed 2^60: from there on
    an addend below 8 is rounded away. *)
Lemma accumulate_from_capped (acc : float) (ws : list float) :
  capped acc → Forall small ws → Forall capped (accumulate_from acc ws).
Proof.
  intros Hacc Hws. revert acc Hacc.
  induction Hws as [|w ws Hw Hws IH]; intros acc Hacc; simpl;
    [constructor |].
  assert (capped (fadd acc w)) by (by apply add_capped).
  constructor; [done |]. by apply IH.
Qed.

Lemma accumulate_capped (ws : list float) :
  Forall small ws → Forall capped (accumulate ws).
Proof.
  intros Hws. destruct Hws as [|w ws Hw Hws]; simpl; constructor.
  - by apply small_capped.
  - apply accumulate_from_capped; [by apply small_capped | done].
Qed.

(** A capped number is positive and finite, and adding [0.0] does not
    change it. *)
Lemma capped_total (x : float) :
  capped x →
  fadd x (lit 0.0) = x ∧ fltb (lit 0.0) x = true ∧
  fleb x (lit 0.0) = false ∧ isfinite x = true.
Proof. by intros (m & e & -> & _). Qed.

Lemma small_positive (w : float) : small w → fltb (lit 0.0) w = true.
Proof. by intros (m & e & -> & _). Qed.

(** The total that [random.choices] tests: the last running sum. *)
Lemma total_capped (ws : list float) :
  ws ≠ [] → Forall small ws →
  ∃ total, last (accumulate ws) = Some total ∧ capped total.
Proof.
  intros Hne Hws.
  destruct (last (accumulate ws)) as [total|] eqn:E.
  - exists total. split; [done |].
    apply last_Some_elem_of in E.
    by apply (proj1 (Forall_forall _ _) (accumulate_capped ws Hws)).
  - apply last_None in E. apply (f_equal length) in E.
    rewrite length_accumulate in E. by destruct ws.
Qed.

(** Whatever the weights, a value returned by [random.choices] is a
    member of the population. *)
Lemma random_choices_member {A : Type} (population : list A)
    (weights : list float) (u : float) (x : A) :
  random_choices population weights u = Return x → x ∈ population.
Proof.
  unfold random_choices.
  destruct (negb _); [discriminate |].
  destruct (last _); [| discriminate].
  destruct (fleb _ _); [discriminate |].
  destruct (negb _); [discriminate |].
  destruct (bisect _ _ _ _) as [i|]; [| discriminate].
  destruct (population !! i) as [y|] eqn:E; [| discriminate].
  intros [= <-]. apply list_elem_of_lookup. eauto.
Qed.

(** With weights between 0.1 and 5.0, one for each member of a
    non-empty population, [random.choices] raises nothing. *)
Lemma random_choices_returns {A : Type} (population : list A)
    (weights : list float) (u : float) :
  population ≠ [] → length weights = length population →
  Forall small weights →
  ∃ x, random_choices population weights u = Return x ∧ x ∈ population.
Proof.
  intros Hne Hlen Hsmall.
  assert (∃ x, random_choices population weights u = Return x)
    as [x Hx]; [| exists x; eauto using random_choices_member].
  unfold random_choices.
  rewrite length_accumulate, Hlen, Nat.eqb_refl. simpl negb.
  destruct (total_capped weights) as (total & -> & Htotal); [| done |].
  { intros ->. by destruct population. }
  destruct (capped_total total Htotal) as (-> & _ & -> & ->). simpl negb.
  destruct (bisect_in_range (accumulate weights) (fmul u total) 0
              (length population - 1)) as (i & -> & Hi).
  { lia. }
  { rewrite length_accumulate. lia. }
  destruct (lookup_lt_is_Some_2 population i) as [x ->]; [| eauto].
  destruct population; simpl in *; [done | lia].
Qed.

Lemma random_choice_returns {A : Type} (seq : list A) (k : nat) :
  seq ≠ [] → ∃ x, random_choice seq k = Return x ∧ x ∈ seq.
Proof.
  intros Hne. unfold random_choice.
  destruct (lookup_lt_is_Some_2 seq (k mod length seq)) as [x Hx].
  { apply Nat.mod_upper_bound. by destruct seq. }
  rewrite Hx. exists x. split; [done |].
  apply list_elem_of_lookup. eauto.
Qed.

(** *** [get_weighted_word] *)

Lemma words_data_of_member (filtered_df : list Row)
    (w : string * string * string) :
  w ∈ words_data_of filtered_df ↔
  ∃ row, row ∈ filtered_df ∧
         w = (row_word row, row_class row, row_level row).
Proof.
  unfold words_data_of. rewrite list_elem_of_fmap. split.
  - intros (row & -> & Hin). eauto.
  - intros (row & Hin & ->). eauto.
Qed.

(** A draw raises nothing; it returns [None] exactly when no row passes
    the filter, and otherwise one of the rows that pass it. *)
Lemma get_weighted_word_cases (data_df : list Row)
    (word_weights : gmap string WordStats) (level : option string)
    (u : float) (k : nat) :
  (filter_level data_df level = [] ∧
   get_weighted_word data_df word_weights level u k = Return None) ∨
  (filter_level data_df level ≠ [] ∧
   ∃ w, get_weighted_word data_df word_weights level u k = Return (Some w) ∧
        w ∈ words_data_of (filter_level data_df level)).
Proof.
  unfold get_weighted_word.
  destruct (filter_level data_df level) as [|row rows] eqn:E; [by left |].
  right. split; [done |].
  set (filtered_df := row :: rows).
  assert (words_data_of filtered_df ≠ []) as Hne by done.
  destruct (words_data_of filtered_df) as [|w ws] eqn:Ew; [done |].
  destruct (random_choices (w :: ws) (weights_of word_weights filtered_df) u)
    as [x | e] eqn:Er.
  - exists x. split; [done |]. by apply random_choices_member in Er.
  - destruct (random_choice_returns (w :: ws) k) as (x & -> & Hx); [done |].
    eauto.
Qed.

(** The weights handed to [random.choices] when every stored weight is a
    number between 0.1 and 5.0. *)
Lemma weights_of_small (word_weights : gmap string WordStats)
    (filtered_df : list Row) :
  (∀ key stats,
     word_weights !! key = Some stats → stored_weight (weight stats)) →
  Forall small (weights_of word_weights filtered_df).
Proof.
  intros Hstored. unfold weights_of. apply Forall_fmap, Forall_forall.
  intros row _. simpl. unfold lookup_weight.
  destruct (word_weights !! row_key row) as [stats|] eqn:E.
  - destruct (Hstored _ _ E) as (Hb & Hlo & Hhi).
    by apply stored_weight_small.
  - apply stored_weight_small; by vm_compute.
Qed.

End RandomFacts.

(** ** The picker against its specification *)

Module WordPickerSpec.
Import PyStr PyStrFacts PyExc PyFloat PyRandom WordPicker WeightSpec.
Import StoreSpec FloatFacts WeightFacts StoreFacts RandomFacts.

(** C1.  For a record with at least one attempt the recomputed weight is
    the product of the bracket base, the streak multiplier and the
    attempt multiplier of the specification, clamped to [[0.1, 5.0]],
    whenever the accuracy [correct_count / total_attempts] is a float,
    as it is for every record with [correct_count <= total_attempts]
    (the records of the specification, where [total_attempts] is
    [correct_count + wrong_count]); the only other outcome is the
    [OverflowError] of the division, for a quotient of 2^1024 or more.
    For a record without attempts the weight is 1.0.  And
    [update_word_performance] stores under its key a record with
    attempts whose weight, when the call returns, is this function of
    the record; the call returns for a record with [correct_count <=
    total_attempts] and for a word without a record. *)
Theorem adaptive_weight_formula (stats : WordStats) :
  ((0 < total_attempts stats)%N →
     ∃ base cmult amult,
       base_of (accuracy_of stats) base ∧
       consecutive_mult_of stats cmult ∧
       attempt_mult_of stats amult ∧
       _calculate_adaptive_weight stats
       = (if isfinite (accuracy_of stats)
          then Return (clamp (fmul (fmul base cmult) amult)
                         (lit 0.1) (lit 5.0))
          else Raise OverflowError) ∧
       (counts_bounded stats →
          _calculate_adaptive_weight stats
          = Return (clamp (fmul (fmul base cmult) amult)
                      (lit 0.1) (lit 5.0)))) ∧
  (total_attempts stats = 0%N →
     _calculate_adaptive_weight stats = Return (lit 1.0)) ∧
  (∀ word_weights word word_class level is_correct now,
     let updated :=
       update_word_performance word_weights word word_class level
         is_correct now in
     ∃ stored,
       updated.1 !! word_key word word_class level = Some stored ∧
       (0 < total_attempts stored)%N ∧
       (updated.2 = Return tt →
          _calculate_adaptive_weight stored = Return (weight stored)) ∧
       (counts_bounded
          (default new_word_stats
             (word_weights !! word_key word word_class level)) →
          updated.2 = Return tt)).
Proof.
  split; [| split].
  - intros Hpos.
    exists (base_weight (accuracy_of stats)),
           (consecutive_modifier (consecutive_correct stats)
              (consecutive_wrong stats)),
           (attempt_modifier (total_attempts stats)).
    split; [apply base_weight_spec, quotient_not_nan; lia |].
    split; [apply consecutive_modifier_spec |].
    split; [apply attempt_modifier_spec |].
    split; [apply calculate_adaptive_weight_clamp; lia |].
    intros Hle.
    rewrite calculate_adaptive_weight_clamp, accuracy_finite; [done | | |];
      [lia | done | lia].
  - intros Hzero. unfold _calculate_adaptive_weight. by rewrite Hzero.
  - intros word_weights word word_class level is_correct now. cbn zeta.
    rewrite update_lookup, update_result. cbn zeta.
    pose proof (counted_total word_weights (word_key word word_class level)
                  is_correct now) as Htot.
    pose proof (counted_bounded word_weights (word_key word word_class level)
                  is_correct now) as Hbounded.
    set (word_stats :=
           counted word_weights (word_key word word_class level)
             is_correct now) in *.
    destruct (_calculate_adaptive_weight word_stats) as [w | e] eqn:E.
    + exists (set_weight word_stats w). split; [done |].
      split; [simpl; lia |]. split; [| done].
      intros _. by rewrite calculate_adaptive_weight_set_weight.
    + exists word_stats. split; [done |]. split; [lia |].
      split; [done |]. intros Hle.
      destruct (calculate_adaptive_weight_returns word_stats (Hbounded Hle))
        as [w Hw].
      congruence.
Qed.

Lemma adaptive_weight_formula_witness :
  (0 < total_attempts (mkWordStats (lit 1.0) 2 3 5 None 0 2))%N ∧
  counts_bounded (mkWordStats (lit 1.0) 2 3 5 None 0 2) ∧
  ∃ base cmult amult,
    base_of (accuracy_of (mkWordStats (lit 1.0) 2 3 5 None 0 2)) base ∧
    consecutive_mult_of (mkWordStats (lit 1.0) 2 3 5 None 0 2) cmult ∧
    attempt_mult_of (mkWordStats (lit 1.0) 2 3 5 None 0 2) amult ∧
    _calculate_adaptive_weight (mkWordStats (lit 1.0) 2 3 5 None 0 2)
    = Return (clamp (fmul (fmul base cmult) amult) (lit 0.1) (lit 5.0)).
Proof.
  assert (0 < total_attempts (mkWordStats (lit 1.0) 2 3 5 None 0 2))%N
    as Hpos by reflexivity.
  assert (counts_bounded (mkWordStats (lit 1.0) 2 3 5 None 0 2)) as Hle
    by (unfold counts_bounded; simpl; lia).
  split; [exact Hpos |]. split; [exact Hle |].
  destruct (proj1 (adaptive_weight_formula
                     (mkWordStats (lit 1.0) 2 3 5 None 0 2)) Hpos)
    as (base & cmult & amult & Hb & Hc & Ha & _ & Hw).
  exists base, cmult, amult. repeat split; try done. by apply Hw.
Defined.

(** C4.  Whatever calls came before, a call of [update_word_performance]
    that returns leaves under its key a record whose weight is a number
    in [[0.1, 5.0]]; and the call and the calls before it do return in
    every store whose records have [correct_count <= total_attempts]
    (the records of the specification; a counter for which the accuracy
    is no float makes the call raise [OverflowError] instead, before any
    weight is stored). *)
Theorem weight_within_bounds (word_weights : gmap string WordStats)
    (calls : list call) (word word_class level : string)
    (is_correct : bool) (now : string) :
  let result :=
    run word_weights
      (calls ++ [UpdateWordPerformance word word_class level is_correct now])
  in
  ((∀ key stats, word_weights !! key = Some stats → counts_bounded stats) →
   result.2 = Return tt) ∧
  (result.2 = Return tt →
   ∃ stored,
     result.1 !! word_key word word_class level = Some stored ∧
     fleb (lit 0.1) (weight stored) = true ∧
     fleb (weight stored) (lit 5.0) = true ∧
     binary64 (weight stored)).
Proof.
  cbn zeta. split.
  - intros Hall. by apply run_returns.
  - rewrite run_app.
    destruct (run word_weights calls).2 as [[] | e]; [| done].
    rewrite run_single. cbn [exec].
    rewrite update_result, update_lookup. cbn zeta.
    destruct (_calculate_adaptive_weight _) as [w | e] eqn:E; [| done].
    intros _. exists (set_weight
                        (counted (run word_weights calls).1
                           (word_key word word_class level) is_correct now)
                        w).
    split; [done |].
    destruct (calculate_adaptive_weight_stored _ _ E) as (Hb & Hlo & Hhi).
    done.
Qed.

Lemma weight_within_bounds_witness :
  (run ∅
     ([UpdateWordPerformance "cat" "noun" "a1" false "t1"]
      ++ [UpdateWordPerformance "cat" "noun" "a1" false "t2"])).2
  = Return tt ∧
  ∃ stored,
    (run ∅
       ([UpdateWordPerformance "cat" "noun" "a1" false "t1"]
        ++ [UpdateWordPerformance "cat" "noun" "a1" false "t2"])).1
      !! word_key "cat" "noun" "a1" = Some stored ∧
    fleb (lit 0.1) (weight stored) = true ∧
    fleb (weight stored) (lit 5.0) = true ∧
    binary64 (weight stored).
Proof.
  destruct (weight_within_bounds ∅
              [UpdateWordPerformance "cat" "noun" "a1" false "t1"]
              "cat" "noun" "a1" false "t2") as [Hreturns Hbounds].
  assert ((run ∅
             ([UpdateWordPerformance "cat" "noun" "a1" false "t1"]
              ++ [UpdateWordPerformance "cat" "noun" "a1" false "t2"])).2
          = Return tt) as Hret.
  { apply Hreturns. intros key stats Hlook.
    rewrite lookup_empty in Hlook. discriminate. }
  split; [exact Hret |]. exact (Hbounds Hret).
Defined.

(** C6 fails as stated: a record that was just created has both streak
    counters at zero. *)
Lemma record_invariant_counterexample :
  _initialize_new_words [mkRow "cat" "noun" "a1"] ∅ !! "cat_noun_a1"
  = Some new_word_stats ∧
  ¬ exactly_one_streak new_word_stats.
Proof.
  split; [reflexivity |].
  unfold exactly_one_streak. simpl. intros [[H _] | [_ H]]; by apply H.
Qed.

(** C6, amended.  In a store whose loaded records satisfy it, every run
    of calls of [update_word_performance], [reset_word_stats],
    [reset_all_stats] and [_initialize_new_words] returns, and every
    record satisfies at any time: [total_attempts = correct_count +
    wrong_count]; a record without attempts (freshly created or reset)
    has both streak counters at zero; a record with attempts has exactly
    one of them non-zero.  In particular a further update returns, and
    the record just updated has exactly one non-zero streak counter. *)
Theorem record_invariant_always (word_weights : gmap string WordStats)
    (calls : list call) :
  (∀ key stats, word_weights !! key = Some stats → record_invariant stats) →
  (run word_weights calls).2 = Return tt ∧
  (∀ key stats,
     (run word_weights calls).1 !! key = Some stats →
     counts_add_up stats ∧
     (total_attempts stats = 0%N →
        consecutive_correct stats = 0%N ∧ consecutive_wrong stats = 0%N) ∧
     ((0 < total_attempts stats)%N → exactly_one_streak stats)) ∧
  (∀ word word_class level is_correct now,
     ∃ stored,
       (update_word_performance (run word_weights calls).1 word word_class
          level is_correct now).2 = Return tt ∧
       (update_word_performance (run word_weights calls).1 word word_class
          level is_correct now).1 !! word_key word word_class level
       = Some stored ∧
       counts_add_up stored ∧ exactly_one_streak stored) ∧
  (∀ key stats,
     reset_all_stats (run word_weights calls).1 !! key = Some stats →
     consecutive_correct stats = 0%N ∧ consecutive_wrong stats = 0%N).
Proof.
  intros Hloaded.
  assert (map_Forall (λ _, record_invariant) (run word_weights calls).1)
    as Hrun by (by apply run_invariant).
  assert (map_Forall (λ _, counts_bounded) word_weights) as Hbounded.
  { intros key stats Hlook. by apply invariant_bounded, (Hloaded key). }
  split; [by apply run_returns |]. split; [| split].
  - intros key stats Hlook. apply (Hrun key stats Hlook).
  - intros word word_class level is_correct now.
    pose proof (update_preserved record_invariant new_word_stats_invariant
                  record_attempt_invariant ltac:(done) _ word word_class
                  level is_correct now Hrun) as Hupd.
    destruct (update_counters (run word_weights calls).1 word word_class
                level is_correct now) as (stored & Hlook & _ & _ & Htot & _).
    exists stored. split; [| split; [done |]].
    + apply update_returns, default_bounded.
      by apply run_bounded.
    + destruct (Hupd _ _ Hlook) as (Hsum & _ & Hone). split; [done |].
      apply Hone. rewrite Htot.
      pose proof (counted_total (run word_weights calls).1
                    (word_key word word_class level) is_correct now).
      lia.
  - by intros key stats ->%reset_all_lookup.
Qed.

Lemma record_invariant_always_witness :
  (∀ key stats,
     (∅ : gmap string WordStats) !! key = Some stats →
     record_invariant stats) ∧
  ∃ stored,
    (update_word_performance
       (run ∅ [UpdateWordPerformance "cat" "noun" "a1" true "t1"]).1
       "cat" "noun" "a1" false "t2").2 = Return tt ∧
    (update_word_performance
       (run ∅ [UpdateWordPerformance "cat" "noun" "a1" true "t1"]).1
       "cat" "noun" "a1" false "t2").1 !! word_key "cat" "noun" "a1"
    = Some stored ∧
    counts_add_up stored ∧ exactly_one_streak stored.
Proof.
  assert (∀ key stats,
            (∅ : gmap string WordStats) !! key = Some stats →
            record_invariant stats) as Hloaded.
  { intros key stats Hlook. by rewrite lookup_empty in Hlook. }
  split; [exact Hloaded |].
  apply (record_invariant_always ∅
           [UpdateWordPerformance "cat" "noun" "a1" true "t1"] Hloaded).
Defined.

(** Three updates in a row, all of which return. *)
Lemma run_three (word_weights : gmap string WordStats) (c1 c2 c3 : call) :
  (run word_weights [c1; c2; c3]).2 = Return tt →
  let ww1 := (exec word_weights c1).1 in
  let ww2 := (exec ww1 c2).1 in
  (run word_weights [c1; c2; c3]).1 = (exec ww2 c3).1 ∧
  (exec ww2 c3).2 = Return tt.
Proof.
  cbn zeta. rewrite !run_cons.
  destruct (exec word_weights c1).2 as [[] | e1]; [| done].
  destruct (exec _ c2).2 as [[] | e2]; [| done].
  destruct (exec _ c3).2 as [[] | e3]; done.
Qed.

Lemma update_default_bounded (word_weights : gmap string WordStats)
    (word word_class level : string) (is_correct : bool) (now : string) :
  counts_bounded
    (default new_word_stats
       (word_weights !! word_key word word_class level)) →
  counts_bounded
    (default new_word_stats
       ((update_word_performance word_weights word word_class level
           is_correct now).1 !! word_key word word_class level)).
Proof.
  intros Hle.
  destruct (update_counters word_weights word word_class level is_correct
              now) as (stored & -> & Hc & _ & Ht & _).
  pose proof (counted_bounded _ _ is_correct now Hle) as Hb.
  unfold counts_bounded in *. simpl. lia.
Qed.

(** C8.  Three calls of [update_word_performance] in a row with a
    correct answer for the same word: when they return, the stored
    record has a streak of at least three, and its weight is at most
    base * 0.5 * attempt-multiplier, where base is the base weight of
    the specification's accuracy bracket and attempt-multiplier the
    specification's multiplier for the attempts of the stored record
    (both exist and are unique): the streak multiplier applies and the
    clamp does not raise the product (the stored weight is the
    product).  The three calls return from every store in which the
    record of the word, if there is one, has [correct_count <=
    total_attempts]. *)
Theorem streak_dominance (word_weights : gmap string WordStats)
    (word word_class level now1 now2 now3 : string) :
  let result :=
    run word_weights
      [UpdateWordPerformance word word_class level true now1;
       UpdateWordPerformance word word_class level true now2;
       UpdateWordPerformance word word_class level true now3] in
  (counts_bounded
     (default new_word_stats
        (word_weights !! word_key word word_class level)) →
   result.2 = Return tt) ∧
  (result.2 = Return tt →
   ∃ stored,
     result.1 !! word_key word word_class level = Some stored ∧
     (3 ≤ consecutive_correct stored)%N ∧
     (∃ base amult,
        base_of (accuracy_of stored) base ∧ attempt_mult_of stored amult) ∧
     ∀ base amult,
       base_of (accuracy_of stored) base → attempt_mult_of stored amult →
       fleb (weight stored) (fmul (fmul base (lit 0.5)) amult) = true ∧
       weight stored = fmul (fmul base (lit 0.5)) amult).
Proof.
  cbn zeta. split.
  - intros Hle. rewrite !run_cons. cbn [exec run].
    rewrite update_returns by done.
    rewrite update_returns by (by apply update_default_bounded).
    rewrite update_returns; [done |].
    by do 2 apply update_default_bounded.
  - intros Hret. apply run_three in Hret as [-> Hret]. cbn [exec] in *.
    set (ww1 := (update_word_performance word_weights word word_class level
                   true now1).1) in *.
    set (ww2 := (update_word_performance ww1 word word_class level true
                   now2).1) in *.
    destruct (update_counters word_weights word word_class level true now1)
      as (s1 & Hs1 & _ & _ & _ & Hc1 & _).
    destruct (update_counters ww1 word word_class level true now2)
      as (s2 & Hs2 & _ & _ & _ & Hc2 & _).
    fold ww1 in Hs1. fold ww2 in Hs2.
    rewrite update_result in Hret. rewrite update_lookup. cbn zeta.
    pose proof (counted_total ww2 (word_key word word_class level) true now3)
      as Htot.
    assert (3 ≤ consecutive_correct
                  (counted ww2 (word_key word word_class level) true now3))%N
      as Hcc.
    { unfold counted at 1. rewrite Hs2. simpl. rewrite Hc2.
      unfold counted at 1. rewrite Hs1. simpl. rewrite Hc1.
      unfold counted. simpl. lia. }
    set (word_stats := counted ww2 (word_key word word_class level) true now3)
      in *.
    destruct (_calculate_adaptive_weight word_stats) as [w | e] eqn:E;
      [| done].
    assert (isfinite (accuracy_of word_stats) = true) as Hfin.
    { rewrite calculate_adaptive_weight_clamp in E by done.
      by destruct (isfinite (accuracy_of word_stats)). }
    rewrite calculate_adaptive_weight_streak in E by done.
    injection E as <-.
    eexists. split; [done |]. split; [done |]. split.
    + exists (base_weight (accuracy_of word_stats)),
             (attempt_modifier (total_attempts word_stats)).
      split; [apply base_weight_spec, quotient_not_nan; exact Htot |].
      apply (attempt_modifier_spec
               (set_weight word_stats
                  (fmul (fmul (base_weight (accuracy_of word_stats))
                           (lit 0.5))
                     (attempt_modifier (total_attempts word_stats))))).
    + intros base amult Hbase Hamult.
      apply base_of_unique in Hbase. apply attempt_mult_of_unique in Hamult.
      subst base amult. split; [apply streak_product_le | done].
Qed.

Lemma streak_dominance_witness :
  (run ∅
     [UpdateWordPerformance "cat" "noun" "a1" true "t1";
      UpdateWordPerformance "cat" "noun" "a1" true "t2";
      UpdateWordPerformance "cat" "noun" "a1" true "t3"]).2 = Return tt ∧
  ∃ stored,
    (run ∅
       [UpdateWordPerformance "cat" "noun" "a1" true "t1";
        UpdateWordPerformance "cat" "noun" "a1" true "t2";
        UpdateWordPerformance "cat" "noun" "a1" true "t3"]).1
      !! word_key "cat" "noun" "a1" = Some stored ∧
    (3 ≤ consecutive_correct stored)%N ∧
    ∀ base amult,
      base_of (accuracy_of stored) base → attempt_mult_of stored amult →
      fleb (weight stored) (fmul (fmul base (lit 0.5)) amult) = true ∧
      weight stored = fmul (fmul base (lit 0.5)) amult.
Proof.
  destruct (streak_dominance ∅ "cat" "noun" "a1" "t1" "t2" "t3")
    as [Hreturns Hstreak].
  assert ((run ∅
             [UpdateWordPerformance "cat" "noun" "a1" true "t1";
              UpdateWordPerformance "cat" "noun" "a1" true "t2";
              UpdateWordPerformance "cat" "noun" "a1" true "t3"]).2
          = Return tt) as Hret.
  { apply Hreturns. vm_compute. discriminate. }
  split; [exact Hret |].
  destruct (Hstreak Hret) as (stored & Hlook & Hcc & _ & Hle).
  exists stored. split; [exact Hlook |]. split; [exact Hcc | exact Hle].
Defined.

Lemma filter_level_some (data_df : list Row) (l : string) :
  l ≠ "" →
  filter_level data_df (Some l)
  = filter (λ row, row_level row = lower l) data_df.
Proof. intros Hne. unfold filter_level. by destruct l. Qed.

(** C5.  With a (non-empty) level filter, a draw returns [None] exactly
    when no row of the vocabulary has the lower-cased filter as its
    level, and a word it returns is a row of the vocabulary whose level
    is the lower-cased filter; without a filter ([None], or the empty
    string, which the code treats alike) it returns [None] exactly when
    the vocabulary is empty.  No draw raises. *)
Theorem draw_respects_level (data_df : list Row)
    (word_weights : gmap string WordStats) (u : float) (k : nat) :
  (∀ l, l ≠ "" →
     (get_weighted_word data_df word_weights (Some l) u k = Return None ↔
      filter (λ row, row_level row = lower l) data_df = []) ∧
     (∀ w c lv,
        get_weighted_word data_df word_weights (Some l) u k
        = Return (Some (w, c, lv)) →
        lv = lower l ∧ lower lv = lower l ∧ mkRow w c lv ∈ data_df)) ∧
  (get_weighted_word data_df word_weights None u k = Return None ↔
   data_df = []) ∧
  get_weighted_word data_df word_weights (Some "") u k
  = get_weighted_word data_df word_weights None u k ∧
  (∀ level, ∃ result,
     get_weighted_word data_df word_weights level u k = Return result).
Proof.
  split; [| split; [| split; [done |]]].
  - intros l Hne. rewrite <- (filter_level_some data_df l Hne).
    destruct (get_weighted_word_cases data_df word_weights (Some l) u k)
      as [[Hnil ->] | (Hcons & x & -> & Hx)].
    + split; [by rewrite Hnil |]. discriminate.
    + split; [split; [discriminate | done] |].
      intros w c lv [= ->].
      apply words_data_of_member in Hx as ([w' c' lv'] & Hin & [= -> -> ->]).
      rewrite (filter_level_some data_df l Hne) in Hin.
      apply list_elem_of_filter in Hin as [Hlv Hin]. simpl in *.
      subst lv'. by rewrite lower_idemp.
  - destruct (get_weighted_word_cases data_df word_weights None u k)
      as [[Hnil ->] | (Hcons & x & -> & Hx)]; simpl in *.
    + done.
    + split; [discriminate | done].
  - intros level.
    destruct (get_weighted_word_cases data_df word_weights level u k)
      as [[_ ->] | (_ & x & -> & _)]; eauto.
Qed.

Lemma draw_respects_level_witness :
  "A1" ≠ "" ∧
  get_weighted_word
    [mkRow "cat" "noun" "a2"; mkRow "keen" "adjective" "b2"] ∅
    (Some "A1") (lit 0.5) 0 = Return None.
Proof.
  assert ("A1" ≠ "") as Hne by discriminate.
  split; [exact Hne |].
  apply (proj1 (proj1 (draw_respects_level
                  [mkRow "cat" "noun" "a2"; mkRow "keen" "adjective" "b2"]
                  ∅ (lit 0.5) 0) "A1" Hne)).
  reflexivity.
Defined.

(** C10.  When every stored weight is a number that lies in [[0.1, 5.0]]
    (a missing record counting for 1.0) and some row passes the filter,
    every weight handed to [random.choices] is positive, their total is
    positive and finite, and [random.choices] returns one of the
    candidates without raising: the draw is that candidate and the
    fall-back [random.choice] is not reached. *)
Theorem weighted_choice_defined (data_df : list Row)
    (word_weights : gmap string WordStats) (level : option string)
    (u : float) (k : nat) :
  (∀ key stats,
     word_weights !! key = Some stats →
     binary64 (weight stats) ∧
     fleb (lit 0.1) (weight stats) = true ∧
     fleb (weight stats) (lit 5.0) = true) →
  filter_level data_df level ≠ [] →
  Forall (λ w, fltb (lit 0.0) w = true)
    (weights_of word_weights (filter_level data_df level)) ∧
  (∃ total,
     last (accumulate (weights_of word_weights (filter_level data_df level)))
     = Some total ∧
     fltb (lit 0.0) total = true ∧ isfinite total = true) ∧
  ∃ selected_word,
    random_choices (words_data_of (filter_level data_df level))
      (weights_of word_weights (filter_level data_df level)) u
    = Return selected_word ∧
    selected_word ∈ words_data_of (filter_level data_df level) ∧
    get_weighted_word data_df word_weights level u k
    = Return (Some selected_word).
Proof.
  intros Hstored Hne.
  set (filtered_df := filter_level data_df level) in *.
  pose proof (weights_of_small word_weights filtered_df Hstored) as Hsmall.
  assert (weights_of word_weights filtered_df ≠ []) as Hwne.
  { unfold weights_of. by destruct filtered_df. }
  split; [| split].
  - eapply Forall_impl; [exact Hsmall |]. apply small_positive.
  - destruct (total_capped _ Hwne Hsmall) as (total & Hlast & Hcap).
    exists total. split; [done |].
    by destruct (capped_total total Hcap) as (_ & -> & _ & ->).
  - destruct (random_choices_returns (words_data_of filtered_df)
                (weights_of word_weights filtered_df) u)
      as (x & Hx & Hin); [| | done |].
    { unfold words_data_of. by destruct filtered_df. }
    { unfold weights_of, words_data_of. by rewrite !length_map. }
    exists x. split; [done |]. split; [done |].
    unfold get_weighted_word. fold filtered_df.
    destruct filtered_df as [|row rows] eqn:E; [done |].
    destruct (words_data_of (row :: rows)) eqn:Ew; [done |].
    by rewrite Hx.
Qed.

Lemma weighted_choice_defined_witness :
  ∃ selected_word,
    get_weighted_word
      [mkRow "cat" "noun" "a1"; mkRow "dog" "noun" "a1"]
      {[ "cat_noun_a1" := mkWordStats (lit 0.1) 3 0 3 None 3 0 ]}
      (Some "a1") (lit 0.5) 7 = Return (Some selected_word).
Proof.
  destruct (weighted_choice_defined
              [mkRow "cat" "noun" "a1"; mkRow "dog" "noun" "a1"]
              {[ "cat_noun_a1" := mkWordStats (lit 0.1) 3 0 3 None 3 0 ]}
              (Some "a1") (lit 0.5) 7) as (_ & _ & x & _ & _ & Hx).
  - intros key stats Hlook.
    apply lookup_singleton_Some in Hlook as [_ <-]. by vm_compute.
  - discriminate.
  - exists x. exact Hx.
Defined.

End WordPickerSpec.

(** ** [parse_llm_response] *)

Module ParseFacts.
Import PyStr PyStrOps Utils UtilsParse PyStrFacts UtilsFacts.

Lemma contains_app (c : ascii) (a b : string) :
  contains c (a +:+ b) = contains c a || contains c b.
Proof.
  induction a as [|c' a IH]; [reflexivity|].
  rewrite app_cons. cbn [contains]. rewrite IH. apply orb_assoc.
Qed.

Lemma contains_lstrip (c : ascii) (s : string) :
  contains c (lstrip s) = true → contains c s = true.
Proof.
  induction s as [|c' s IH]; [done|]. cbn [lstrip].
  destruct (isspace c'); [|done].
  intros H. cbn [contains]. rewrite (IH H). apply orb_true_r.
Qed.

Lemma contains_rstrip (c : ascii) (s : string) :
  contains c (rstrip s) = true → contains c s = true.
Proof.
  induction s as [|c' s IH]; [done|]. cbn [rstrip contains].
  destruct (rstrip s) as [|c'' r] eqn:E.
  - destruct (isspace c'); [done|]. cbn [contains].
    rewrite orb_false_r. intros ->. reflexivity.
  - cbn [contains] in *. destruct (Ascii.eqb c' c); [done|].
    cbn [orb]. exact IH.
Qed.

Lemma contains_strip (c : ascii) (s : string) :
  contains c (strip s) = true → contains c s = true.
Proof. intros H. apply contains_lstrip, contains_rstrip, H. Qed.

Lemma contains_slice_from (c : ascii) (n : nat) (s : string) :
  contains c (slice_from n s) = true → contains c s = true.
Proof.
  revert s. induction n as [|n IH]; intros s; [done|].
  destruct s as [|c' s]; [done|]. cbn [slice_from contains].
  intros H. rewrite (IH _ H). apply orb_true_r.
Qed.

Lemma strip_idemp (s : string) : strip (strip s) = strip s.
Proof.
  destruct (strip_head s) as [E | (c & r & E & Hc)].
  - rewrite E. reflexivity.
  - unfold strip at 1. rewrite E. cbn [lstrip]. rewrite Hc.
    rewrite <- E. apply rstrip_strip.
Qed.

Lemma split_on_from_pieces (sep : ascii) (cur s piece : string) :
  piece ∈ split_on_from sep cur s →
  (contains sep cur = false → contains sep piece = false) ∧
  (∀ c, contains c piece = true →
        contains c cur = true ∨ contains c s = true).
Proof.
  revert cur. induction s as [|c' s IH]; intros cur; cbn [split_on_from].
  - intros ->%list_elem_of_singleton. auto.
  - destruct (Ascii.eqb_spec c' sep) as [-> | Hne].
    + intros [-> | Hin]%elem_of_cons.
      * auto.
      * destruct (IH _ Hin) as [H1 H2]. split; [auto|].
        intros c Hc. right. cbn [contains].
        destruct (H2 c Hc) as [H | H]; [done|]. rewrite H. apply orb_true_r.
    + intros Hin. destruct (IH _ Hin) as [H1 H2]. split.
      * intros Hcur. apply H1. rewrite contains_app, Hcur. cbn.
        rewrite orb_false_r. apply Ascii.eqb_neq. exact Hne.
      * intros c Hc. destruct (H2 c Hc) as [H | H].
        -- rewrite contains_app in H. apply orb_true_iff in H as [H | H];
             [auto|]. right. cbn in H. rewrite orb_false_r in H.
           cbn [contains]. rewrite H. reflexivity.
        -- right. cbn [contains]. rewrite H. apply orb_true_r.
Qed.

Lemma split_on_pieces (sep : ascii) (s piece : string) :
  piece ∈ split_on sep s →
  contains sep piece = false ∧
  (∀ c, contains c piece = true → contains c s = true).
Proof.
  intros Hin. destruct (split_on_from_pieces _ _ _ _ Hin) as [H1 H2].
  split; [auto|]. intros c Hc. destruct (H2 c Hc); [done|auto].
Qed.

Lemma split_rounds_pieces (seps : list ascii) (meanings : list string)
    (piece : string) :
  piece ∈ foldl split_meanings meanings seps →
  (∃ meaning, meaning ∈ meanings ∧
     ∀ c, contains c piece = true → contains c meaning = true) ∧
  (∀ sep, sep ∈ seps → contains sep piece = false).
Proof.
  revert meanings. induction seps as [|sep seps IH]; intros meanings;
    cbn [foldl].
  - intros Hin. split; [eauto|]. intros sep Hsep. inversion Hsep.
  - intros Hin. destruct (IH _ Hin) as [(m' & Hm' & Hsub) Hseps].
    unfold split_meanings in Hm'. apply list_elem_of_In, in_flat_map in Hm'.
    destruct Hm' as (m & Hm & Hm'). apply list_elem_of_In in Hm, Hm'.
    destruct (split_on_pieces _ _ _ Hm') as [Hno Hsub'].
    split; [exists m; split; [done|]; auto|].
    intros sep' [-> | Hin']%elem_of_cons; [|auto].
    destruct (contains sep piece) eqn:E; [|done].
    rewrite (Hsub _ E) in Hno. done.
Qed.

Lemma remove_prefix_spec (cleaned : string) (prefix : list N) :
  strip cleaned = cleaned →
  strip (remove_prefix cleaned prefix) = remove_prefix cleaned prefix ∧
  (∀ c, contains c (remove_prefix cleaned prefix) = true →
        contains c cleaned = true).
Proof.
  intros Hs. unfold remove_prefix. destruct (startswith cleaned prefix).
  - split; [apply strip_idemp|].
    intros c Hc. eapply contains_slice_from, contains_strip, Hc.
  - auto.
Qed.

Lemma remove_prefixes_spec (prefixes : list (list N)) (cleaned : string) :
  strip cleaned = cleaned →
  strip (foldl remove_prefix cleaned prefixes)
  = foldl remove_prefix cleaned prefixes ∧
  (∀ c, contains c (foldl remove_prefix cleaned prefixes) = true →
        contains c cleaned = true).
Proof.
  revert cleaned. induction prefixes as [|p ps IH]; intros cleaned Hs;
    cbn [foldl]; [auto|].
  destruct (remove_prefix_spec cleaned p Hs) as [H1 H2].
  destruct (IH _ H1) as [H3 H4]. split; [done|]. auto.
Qed.

Lemma clean_meaning_spec (meaning : string) :
  strip (clean_meaning meaning) = clean_meaning meaning ∧
  (∀ c, contains c (clean_meaning meaning) = true →
        contains c meaning = true).
Proof.
  unfold clean_meaning.
  destruct (remove_prefixes_spec prefixes_to_remove (strip meaning)
              (strip_idemp meaning)) as [H1 H2].
  split; [done|]. intros c Hc. apply contains_strip. auto.
Qed.

Lemma parse_llm_response_member (response m : string) :
  m ∈ parse_llm_response response →
  ∃ piece,
    piece ∈ foldl split_meanings [response] separators ∧
    m = clean_meaning piece ∧ keep_meaning m = true.
Proof.
  unfold parse_llm_response. destruct (negb (truthy response)).
  - intros H. inversion H.
  - intros H. apply elem_of_take in H as (i & H & _).
    apply list_elem_of_lookup_2 in H.
    apply list_elem_of_In, filter_In in H as [H Hk].
    apply in_map_iff in H as (piece & <- & Hp).
    exists piece. split; [by apply list_elem_of_In|done].
Qed.

Lemma stripped_not_blank (s : string) :
  strip s = s → s ≠ "" → all_space s = false.
Proof.
  intros Hs Hne. destruct (all_space s) eqn:E; [|done].
  apply strip_empty_iff in E. congruence.
Qed.

Lemma all_space_contains (s : string) :
  (∀ c, contains c s = true → isspace c = true) → all_space s = true.
Proof.
  induction s as [|c s IH]; [done|]. intros H. cbn [all_space].
  rewrite (H c) by (cbn [contains]; by rewrite Ascii.eqb_refl).
  apply IH. intros c' Hc'. apply H. cbn [contains]. rewrite Hc'.
  apply orb_true_r.
Qed.

Lemma startswith_contains (s : string) (n : N) (prefix : list N) :
  startswith s (n :: prefix) = true → contains (ascii_of_N n) s = true.
Proof.
  destruct s as [|c s]; [done|]. cbn [startswith contains].
  intros [Hc _]%andb_true_iff. apply N.eqb_eq in Hc as <-.
  by rewrite ascii_N_embedding, Ascii.eqb_refl.
Qed.

Lemma keep_meaning_spec (m : string) :
  keep_meaning m = true → (2 ≤ String.length m)%nat ∧ m ≠ "".
Proof.
  unfold keep_meaning. intros [Ht Hl]%andb_true_iff.
  apply Nat.leb_le in Hl. split; [done|]. by destruct m.
Qed.

(** What every meaning returned by the parser is like. *)
Lemma parse_llm_response_good (response m : string) :
  m ∈ parse_llm_response response →
  (2 ≤ String.length m)%nat ∧ strip m = m ∧ all_space m = false ∧
  (∀ sep, sep ∈ separators → contains sep m = false) ∧
  (∀ c, contains c m = true → contains c response = true).
Proof.
  intros (piece & Hp & -> & Hk)%parse_llm_response_member.
  destruct (keep_meaning_spec _ Hk) as [Hlen Hne].
  destruct (clean_meaning_spec piece) as [Hs Hsub].
  destruct (split_rounds_pieces _ _ _ Hp) as [(r & Hr & Hsub') Hsep].
  apply list_elem_of_singleton in Hr as ->.
  split; [done|]. split; [done|]. split; [by apply stripped_not_blank|].
  split.
  - intros sep Hin. destruct (contains sep (clean_meaning piece)) eqn:E;
      [|done]. specialize (Hsub sep E). rewrite (Hsep sep Hin) in Hsub.
    done.
  - auto.
Qed.

Lemma meaning_matches_blank (meaning : string) :
  strip meaning = meaning → meaning ≠ "" →
  meaning_matches "" meaning = false.
Proof.
  intros Hs Hne. unfold meaning_matches. rewrite Hs.
  destruct (lower meaning) eqn:E; [|reflexivity].
  exfalso. apply Hne. apply lower_eq_empty. exact E.
Qed.

End ParseFacts.

Module ParseProps.
Import PyStr PyStrOps Utils UtilsParse PyStrFacts UtilsFacts ParseFacts.
Import TranslatorSpec.

(** X16.  [parse_llm_response] returns at most 10 meanings.  Each has at
    least 2 characters, has no whitespace at its ends, is not blank,
    contains none of the separators (comma, semicolon, newline, bar,
    hyphen) and consists of characters of the response.  The empty
    response gives the empty list. *)
Theorem parse_llm_response_shape (response : string) :
  (length (parse_llm_response response) ≤ 10)%nat ∧
  Forall
    (λ meaning,
       (2 ≤ String.length meaning)%nat ∧
       strip meaning = meaning ∧
       all_space meaning = false ∧
       (∀ sep, sep ∈ separators → contains sep meaning = false) ∧
       (∀ c, contains c meaning = true → contains c response = true))
    (parse_llm_response response) ∧
  parse_llm_response "" = [].
Proof.
  split; [|split; [|reflexivity]].
  - unfold parse_llm_response. destruct (negb _); [cbn; lia|].
    rewrite length_take. lia.
  - apply Forall_forall. intros m Hm. by apply parse_llm_response_good.
Qed.

(** X17.  A response that consists of whitespace and separators only
    gives no meaning. *)
Theorem parse_llm_response_blank (response : string) :
  only_separators response → parse_llm_response response = [].
Proof.
  intros Hblank. destruct (parse_llm_response response) as [|m rest] eqn:E;
    [done|]. exfalso.
  assert (Hm : m ∈ parse_llm_response response) by (rewrite E; left).
  destruct (parse_llm_response_good _ _ Hm) as (_ & Hs & Hns & Hsep & Hsub).
  assert (Hall : all_space m = true); [|congruence].
  apply all_space_contains. intros c Hc.
  destruct (Hblank c (Hsub c Hc)) as [H | H]; [done|].
  rewrite (Hsep c H) in Hc. done.
Qed.

Lemma parse_llm_response_blank_witness :
  parse_llm_response " , ;  -| " = [].
Proof.
  apply (parse_llm_response_blank " , ;  -| ").
  intros c Hc.
  destruct c as [[] [] [] [] [] [] [] []]; vm_compute in Hc;
    try discriminate;
    first [left; reflexivity
          | right; unfold separators;
            repeat first [apply list_elem_of_here
                         | apply list_elem_of_further]].
Defined.

(** X18.  Against the meanings that [parse_llm_response] returns,
    [validate_user_input] rejects every answer that is empty or consists
    of whitespace only. *)
Theorem blank_answer_rejected (user_input response : string) :
  all_space user_input = true →
  validate_user_input user_input (parse_llm_response response) = false.
Proof.
  intros Hblank.
  destruct (validate_user_input user_input (parse_llm_response response))
    eqn:E; [|done]. exfalso.
  apply validate_user_input_iff in E as (_ & meaning & Hin & Hm).
  apply strip_empty_iff in Hblank. rewrite Hblank in Hm. cbn [lower] in Hm.
  destruct (parse_llm_response_good _ _ Hin) as (Hlen & Hs & _).
  rewrite meaning_matches_blank in Hm; [done|done|].
  intros ->. cbn in Hlen. lia.
Qed.

Lemma blank_answer_rejected_witness :
  validate_user_input "  " (parse_llm_response "rumah, tempat tinggal")
  = false.
Proof.
  apply (blank_answer_rejected "  " "rumah, tempat tinggal").
  reflexivity.
Defined.

(** X19.  The pieces that [parse_llm_response] cleans contain no hyphen,
    the hyphen being a separator: the test for the prefix ['-'] never
    succeeds, and the cleaning is the one without this prefix. *)
Theorem hyphen_prefix_unused (response piece : string) :
  piece ∈ foldl split_meanings [response] separators →
  contains "-" piece = false ∧
  clean_meaning piece
  = foldl remove_prefix (strip piece)
      [[42]; [226; 8364; 162]; [49; 46]; [50; 46]; [51; 46]; [52; 46];
       [53; 46]]%N.
Proof.
  intros Hp. destruct (split_rounds_pieces _ _ _ Hp) as [_ Hsep].
  assert (Hno : contains "-" piece = false).
  { apply Hsep. unfold separators.
    repeat first [apply list_elem_of_here | apply list_elem_of_further]. }
  split; [exact Hno|].
  unfold clean_meaning, prefixes_to_remove. cbn [foldl].
  assert (Hstar : remove_prefix (remove_prefix (strip piece) [42%N]) [45%N]
                  = remove_prefix (strip piece) [42%N]).
  { unfold remove_prefix at 1.
    destruct (startswith (remove_prefix (strip piece) [42%N]) [45%N]) eqn:E;
      [|done]. exfalso.
    apply startswith_contains in E. change (ascii_of_N 45) with "-"%char in E.
    destruct (remove_prefix_spec (strip piece) [42%N] (strip_idemp piece))
      as [_ Hsub].
    apply Hsub, contains_strip in E. congruence. }
  by rewrite Hstar.
Qed.

Lemma hyphen_prefix_unused_witness :
  contains "-" "laki" = false.
Proof.
  apply (hyphen_prefix_unused "- laki-laki" "laki").
  vm_compute.
  repeat first [apply list_elem_of_here | apply list_elem_of_further].
Defined.

End ParseProps.

(** ** More on the weight store *)

Module StoreMoreFacts.
Import PyExc PyFloat PyRandom WordPicker WeightSpec StoreSpec.
Import FloatFacts WeightFacts StoreFacts RandomFacts.

Lemma initialize_lookup (data_df : list Row)
    (word_weights : gmap string WordStats) (key : string) :
  _initialize_new_words data_df word_weights !! key =
  match word_weights !! key with
  | Some stats => Some stats
  | None =>
      if bool_decide (key ∈ map row_key data_df) then Some new_word_stats
      else None
  end.
Proof.
  revert word_weights. induction data_df as [|row rest IH];
    intros word_weights; cbn [_initialize_new_words map].
  - destruct (word_weights !! key); [done|].
    rewrite bool_decide_eq_false_2; [done|]. intros H. inversion H.
  - rewrite IH. destruct (decide (key = row_key row)) as [-> | Hne].
    + destruct (word_weights !! row_key row) eqn:E.
      * rewrite E. done.
      * rewrite lookup_insert_eq.
        rewrite bool_decide_eq_true_2; [done|]. left.
    + assert (Hl : (match word_weights !! row_key row with
                    | Some _ => word_weights
                    | None => <[row_key row := new_word_stats]> word_weights
                    end) !! key = word_weights !! key).
      { destruct (word_weights !! row_key row); [done|].
        by rewrite lookup_insert_ne. }
      rewrite Hl. destruct (word_weights !! key); [done|].
      rewrite (bool_decide_ext (key ∈ row_key row :: map row_key rest)
                 (key ∈ map row_key rest)); [done|].
      rewrite elem_of_cons. split; [intros [H1 | H1]; [done|exact H1]|].
      intros H1. right. exact H1.
Qed.

Lemma new_word_stats_stored : stored_weight (weight new_word_stats).
Proof. repeat split; vm_compute; reflexivity. Qed.

(** As long as the calls return, the stored weights are the adaptive
    weights of the counters. *)
Lemma exec_consistent (word_weights : gmap string WordStats) (c : call) :
  (exec word_weights c).2 = Return tt →
  map_Forall (λ _, weight_consistent) word_weights →
  map_Forall (λ _, weight_consistent) (exec word_weights c).1.
Proof.
  intros Hret Hall. destruct c as [w cl l b now | w cl l | | df];
    cbn [exec fst snd] in *.
  - intros key stats Hk.
    destruct (decide (key = word_key w cl l)) as [-> | Hne].
    + rewrite update_result in Hret. rewrite update_lookup in Hk.
      cbn zeta in Hk.
      destruct (_calculate_adaptive_weight _) as [nw | e] eqn:E; [| done].
      injection Hk as <-. unfold weight_consistent.
      by rewrite calculate_adaptive_weight_set_weight.
    + rewrite update_lookup_ne in Hk by done. exact (Hall _ _ Hk).
  - apply reset_word_preserved; done.
  - apply reset_all_preserved. done.
  - apply initialize_preserved; done.
Qed.

Lemma run_consistent (word_weights : gmap string WordStats)
    (calls : list call) :
  (run word_weights calls).2 = Return tt →
  map_Forall (λ _, weight_consistent) word_weights →
  map_Forall (λ _, weight_consistent) (run word_weights calls).1.
Proof.
  revert word_weights.
  induction calls as [|c calls IH]; intros word_weights Hret Hall; [done |].
  rewrite run_cons in Hret |- *.
  pose proof (exec_consistent word_weights c) as Hc.
  destruct (exec word_weights c).2 as [[] | e]; [| done].
  apply IH; [done |]. by apply Hc.
Qed.

Lemma exec_keeps_keys (word_weights : gmap string WordStats) (c : call)
    (key : string) :
  is_Some (word_weights !! key) → is_Some ((exec word_weights c).1 !! key).
Proof.
  intros [stats Hk]. destruct c as [w cl l b now | w cl l | | df];
    cbn [exec fst].
  - destruct (decide (key = word_key w cl l)) as [-> | Hne].
    + rewrite update_lookup. eauto.
    + rewrite update_lookup_ne by done. eauto.
  - unfold reset_word_stats.
    destruct (word_weights !! word_key w cl l) eqn:E; [|eauto].
    destruct (decide (key = word_key w cl l)) as [-> | Hne].
    + rewrite lookup_insert_eq. eauto.
    + rewrite lookup_insert_ne by done. eauto.
  - unfold reset_all_stats. rewrite lookup_fmap, Hk. cbn. eauto.
  - rewrite initialize_lookup, Hk. eauto.
Qed.

End StoreMoreFacts.

Module StoreProps.
Import PyExc PyFloat PyRandom WordPicker WeightSpec StoreSpec.
Import FloatFacts WeightFacts StoreFacts RandomFacts StoreMoreFacts.

Lemma answers_snoc (word word_class level : string)
    (outcomes : list (bool * string)) (o : bool * string) :
  answers word word_class level (outcomes ++ [o])
  = answers word word_class level outcomes
    ++ [UpdateWordPerformance word word_class level (fst o) (snd o)].
Proof. unfold answers. by rewrite map_app. Qed.

Lemma tally_snoc (b : bool) (outcomes : list (bool * string))
    (o : bool * string) :
  tally b (outcomes ++ [o])
  = (tally b outcomes + if Bool.eqb (fst o) b then 1 else 0)%nat.
Proof.
  unfold tally. rewrite List.filter_app, length_app. cbn [List.filter].
  by destruct (Bool.eqb (fst o) b).
Qed.

Lemma streak_snoc (b : bool) (outcomes : list (bool * string))
    (o : bool * string) :
  streak b (outcomes ++ [o])
  = if Bool.eqb (fst o) b then S (streak b outcomes) else O.
Proof. unfold streak. by rewrite rev_app_distr. Qed.

Lemma tally_le (b : bool) (outcomes : list (bool * string)) :
  (tally b outcomes ≤ length outcomes)%nat.
Proof. unfold tally. apply List.filter_length_le. Qed.

Lemma answers_record (word_weights : gmap string WordStats)
    (word word_class level : string) (outcomes : list (bool * string)) :
  word_weights !! word_key word word_class level = None →
  let result := run word_weights (answers word word_class level outcomes) in
  let stored :=
    default new_word_stats (result.1 !! word_key word word_class level) in
  result.2 = Return tt ∧
  total_attempts stored = N.of_nat (length outcomes) ∧
  correct_count stored = N.of_nat (tally true outcomes) ∧
  wrong_count stored = N.of_nat (tally false outcomes) ∧
  consecutive_correct stored = N.of_nat (streak true outcomes) ∧
  consecutive_wrong stored = N.of_nat (streak false outcomes).
Proof.
  intros Hnone. induction outcomes as [|o outcomes IH] using rev_ind.
  - cbn. rewrite Hnone. cbn. done.
  - cbn zeta in *. destruct IH as (Hret & H1 & H2 & H3 & H4 & H5).
    rewrite answers_snoc, run_snoc by done. cbn [exec].
    pose proof (tally_le true outcomes) as Htally.
    split.
    { apply update_returns. unfold counts_bounded. lia. }
    destruct (update_counters
                (run word_weights (answers word word_class level outcomes)).1
                word word_class level (fst o) (snd o))
      as (stored & -> & Hc & Hw & Ht & Hcc & Hcw & _).
    cbn [default from_option id]. rewrite Hc, Hw, Ht, Hcc, Hcw.
    unfold counted.
    remember (default new_word_stats
                ((run word_weights
                    (answers word word_class level outcomes)).1
                   !! word_key word word_class level)) as r eqn:Er.
    clear Er.
    rewrite !tally_snoc, !streak_snoc, length_app.
    destruct o as [[] now]; cbn; rewrite ?H1, ?H2, ?H3, ?H4, ?H5;
      repeat split; lia.
Qed.

(** X1.  No call on the picker removes a record: a key that has a record
    in the store still has one after any run of calls, also one that
    ends with an exception. *)
Theorem records_persist (word_weights : gmap string WordStats)
    (calls : list call) (key : string) :
  is_Some (word_weights !! key) →
  is_Some ((run word_weights calls).1 !! key).
Proof.
  revert word_weights. induction calls as [|c calls IH];
    intros word_weights Hk; [done|].
  rewrite run_cons. pose proof (exec_keeps_keys word_weights c key Hk).
  destruct (exec word_weights c).2 as [[] | e]; [by apply IH | done].
Qed.

Lemma records_persist_witness :
  is_Some ((run {[ "cat_noun_a1" := new_word_stats ]}
              [ResetWordStats "cat" "noun" "a1"; ResetAllStats;
               UpdateWordPerformance "dog" "noun" "a1" false "t1"]).1
           !! "cat_noun_a1").
Proof.
  apply (records_persist {[ "cat_noun_a1" := new_word_stats ]}).
  exists new_word_stats. reflexivity.
Defined.

(** X2.  [_initialize_new_words] leaves every record of the store as it
    is and gives a fresh record to exactly the row keys that had none;
    so every row has a record afterwards, and initialising a second time
    changes nothing. *)
Theorem initialize_new_words_adds_missing (data_df : list Row)
    (word_weights : gmap string WordStats) :
  (∀ key,
     _initialize_new_words data_df word_weights !! key =
     match word_weights !! key with
     | Some stats => Some stats
     | None =>
         if bool_decide (key ∈ map row_key data_df)
         then Some new_word_stats else None
     end) ∧
  (∀ row, row ∈ data_df →
     is_Some (_initialize_new_words data_df word_weights !! row_key row)) ∧
  _initialize_new_words data_df
    (_initialize_new_words data_df word_weights)
  = _initialize_new_words data_df word_weights.
Proof.
  split; [apply initialize_lookup|]. split.
  - intros row Hrow. rewrite initialize_lookup.
    destruct (word_weights !! row_key row); [eauto|].
    rewrite bool_decide_eq_true_2; [eauto|].
    apply list_elem_of_fmap. eauto.
  - apply map_eq. intros key. rewrite !initialize_lookup.
    destruct (word_weights !! key); [done|].
    by destruct (bool_decide _).
Qed.

(** X3.  [update_word_performance] and [reset_word_stats] touch the
    record of their own word only: what is stored under any other key is
    unchanged, however the update ends; and [reset_word_stats] for a
    word without a record leaves the store as it is (it creates no
    record). *)
Theorem other_words_untouched (word_weights : gmap string WordStats)
    (word word_class level : string) (is_correct : bool) (now key : string) :
  key ≠ word_key word word_class level →
  (update_word_performance word_weights word word_class level is_correct
     now).1 !! key = word_weights !! key ∧
  reset_word_stats word_weights word word_class level !! key
  = word_weights !! key ∧
  (word_weights !! word_key word word_class level = None →
   reset_word_stats word_weights word word_class level = word_weights).
Proof.
  intros Hne. split; [by apply update_lookup_ne|].
  split; [by apply reset_word_lookup_ne|].
  intros Hnone. unfold reset_word_stats. by rewrite Hnone.
Qed.

Lemma other_words_untouched_witness :
  (update_word_performance {[ "dog_noun_a1" := new_word_stats ]}
     "cat" "noun" "a1" true "t1").1 !! "dog_noun_a1"
  = ({[ "dog_noun_a1" := new_word_stats ]} : gmap string WordStats)
      !! "dog_noun_a1".
Proof.
  apply (other_words_untouched {[ "dog_noun_a1" := new_word_stats ]}
           "cat" "noun" "a1" true "t1" "dog_noun_a1").
  vm_compute. discriminate.
Defined.

(** X4.  A non-empty series of answers to a word that had no record
    returns, and afterwards the record counts them: [total_attempts] is
    their number,
    [correct_count] and [wrong_count] are the numbers of right and of
    wrong ones, and [consecutive_correct] and [consecutive_wrong] are the
    lengths of the runs of right, resp. wrong answers at the end of the
    series. *)
Theorem answers_counted (word_weights : gmap string WordStats)
    (word word_class level : string) (outcomes : list (bool * string)) :
  word_weights !! word_key word word_class level = None →
  outcomes ≠ [] →
  ∃ stored,
    (run word_weights (answers word word_class level outcomes)).2
    = Return tt ∧
    (run word_weights (answers word word_class level outcomes)).1
      !! word_key word word_class level = Some stored ∧
    total_attempts stored = N.of_nat (length outcomes) ∧
    correct_count stored = N.of_nat (tally true outcomes) ∧
    wrong_count stored = N.of_nat (tally false outcomes) ∧
    consecutive_correct stored = N.of_nat (streak true outcomes) ∧
    consecutive_wrong stored = N.of_nat (streak false outcomes).
Proof.
  intros Hnone Hne.
  pose proof (answers_record word_weights word word_class level outcomes
                Hnone) as H. cbn zeta in H.
  destruct H as [Hret H].
  destruct ((run word_weights (answers word word_class level outcomes)).1
              !! word_key word word_class level) as [stored|] eqn:E.
  - exists stored. split; [done|]. split; [done|]. exact H.
  - exfalso. destruct H as [H _]. cbn in H.
    destruct outcomes; [done|]. cbn [length] in H. lia.
Qed.

Lemma answers_counted_witness :
  ∃ stored,
    (run ∅ (answers "cat" "noun" "a1"
              [(true, "t1"); (false, "t2"); (true, "t3"); (true, "t4")])).2
    = Return tt ∧
    (run ∅ (answers "cat" "noun" "a1"
              [(true, "t1"); (false, "t2"); (true, "t3"); (true, "t4")])).1
      !! word_key "cat" "noun" "a1" = Some stored ∧
    total_attempts stored = 4%N ∧
    correct_count stored = 3%N ∧
    wrong_count stored = 1%N ∧
    consecutive_correct stored = 2%N ∧
    consecutive_wrong stored = 0%N.
Proof.
  apply (answers_counted ∅ "cat" "noun" "a1"
           [(true, "t1"); (false, "t2"); (true, "t3"); (true, "t4")]).
  - reflexivity.
  - discriminate.
Defined.

(** X5.  If the weight of every record of the store is the adaptive
    weight of the record's counters, this is so after any run of calls
    that returns; in particular a record without attempts then has
    weight 1.0.  (A run that does not return has ended with the
    [OverflowError] of the division; that does not happen when every
    record of the store has [correct_count <= total_attempts], the
    empty store in particular.) *)
Theorem weight_consistent_always (word_weights : gmap string WordStats)
    (calls : list call) :
  (∀ key stats, word_weights !! key = Some stats → weight_consistent stats) →
  ((∀ key stats, word_weights !! key = Some stats → counts_bounded stats) →
   (run word_weights calls).2 = Return tt) ∧
  (∀ e, (run word_weights calls).2 = Raise e → e = OverflowError) ∧
  ((run word_weights calls).2 = Return tt →
   ∀ key stats,
     (run word_weights calls).1 !! key = Some stats →
     _calculate_adaptive_weight stats = Return (weight stats) ∧
     (total_attempts stats = 0%N → weight stats = lit 1.0)).
Proof.
  intros Hall. split; [apply run_returns |].
  split; [apply run_raise |].
  intros Hret key stats Hk.
  assert (Hc : weight_consistent stats).
  { by eapply (run_consistent word_weights calls Hret Hall). }
  split; [exact Hc|]. intros H0. unfold weight_consistent in Hc.
  unfold _calculate_adaptive_weight in Hc. rewrite H0 in Hc.
  by injection Hc.
Qed.

Lemma weight_consistent_always_witness :
  (run ∅
     [InitializeNewWords [mkRow "cat" "noun" "a1"];
      UpdateWordPerformance "dog" "noun" "a1" false "t1"]).2 = Return tt ∧
  _calculate_adaptive_weight (mkWordStats (lit 2.4) 0 1 1 (Some "t1") 0 1)
  = Return (weight (mkWordStats (lit 2.4) 0 1 1 (Some "t1") 0 1)) ∧
  (total_attempts (mkWordStats (lit 2.4) 0 1 1 (Some "t1") 0 1) = 0%N →
   weight (mkWordStats (lit 2.4) 0 1 1 (Some "t1") 0 1) = lit 1.0).
Proof.
  assert (Hempty : ∀ key stats,
            (∅ : gmap string WordStats) !! key = Some stats →
            weight_consistent stats).
  { intros key stats H. rewrite lookup_empty in H. discriminate. }
  assert (Hbounded : ∀ key stats,
            (∅ : gmap string WordStats) !! key = Some stats →
            counts_bounded stats).
  { intros key stats H. rewrite lookup_empty in H. discriminate. }
  destruct (weight_consistent_always ∅
              [InitializeNewWords [mkRow "cat" "noun" "a1"];
               UpdateWordPerformance "dog" "noun" "a1" false "t1"] Hempty)
    as (Hreturns & _ & Hconsistent).
  split; [exact (Hreturns Hbounded) |].
  apply (Hconsistent (Hreturns Hbounded) "dog_noun_a1").
  vm_compute. reflexivity.
Defined.

(** X6.  From a store whose weights are binary64 numbers in
    [[0.1, 5.0]] (the empty store is one), every run of calls, also one
    that ends with an exception, leads to such a store; and there,
    whenever the requested level has rows,
    [random.choices] returns the word that [get_weighted_word] returns:
    the fall-back [random.choice] is not reached. *)
Theorem draw_after_run (word_weights : gmap string WordStats)
    (calls : list call) (data_df : list Row) (level : option string)
    (u : float) (k : nat) :
  (∀ key stats,
     word_weights !! key = Some stats → stored_weight (weight stats)) →
  filter_level data_df level ≠ [] →
  (∀ key stats,
     (run word_weights calls).1 !! key = Some stats →
     stored_weight (weight stats)) ∧
  ∃ selected_word,
    random_choices (words_data_of (filter_level data_df level))
      (weights_of (run word_weights calls).1 (filter_level data_df level)) u
    = Return selected_word ∧
    get_weighted_word data_df (run word_weights calls).1 level u k
    = Return (Some selected_word).
Proof.
  intros Hall Hne.
  assert (Hrun : ∀ key stats,
            (run word_weights calls).1 !! key = Some stats →
            stored_weight (weight stats)).
  { apply (run_preserved (λ stats, stored_weight (weight stats)));
      [apply new_word_stats_stored | | | exact Hall].
    - intros s b now Hs. by destruct b.
    - intros s w _ Hw. cbn [set_weight weight].
      by apply (calculate_adaptive_weight_stored s). }
  split; [exact Hrun|].
  destruct (random_choices_returns
              (words_data_of (filter_level data_df level))
              (weights_of (run word_weights calls).1
                 (filter_level data_df level)) u) as (x & Hx & _).
  - unfold words_data_of. destruct (filter_level data_df level); done.
  - unfold weights_of, words_data_of. by rewrite !length_map.
  - by apply weights_of_small.
  - exists x. split; [exact Hx|]. unfold get_weighted_word.
    destruct (filter_level data_df level) as [|row rest] eqn:E; [done|].
    cbn [words_data_of map] in *. by rewrite Hx.
Qed.

Lemma draw_after_run_witness :
  ∃ selected_word,
    get_weighted_word [mkRow "cat" "noun" "a1"; mkRow "dog" "noun" "a1"]
      (run ∅ [UpdateWordPerformance "cat" "noun" "a1" false "t1";
              UpdateWordPerformance "cat" "noun" "a1" false "t2"]).1
      (Some "A1") (lit 0.5) 7
    = Return (Some selected_word).
Proof.
  destruct (draw_after_run ∅
              [UpdateWordPerformance "cat" "noun" "a1" false "t1";
               UpdateWordPerformance "cat" "noun" "a1" false "t2"]
              [mkRow "cat" "noun" "a1"; mkRow "dog" "noun" "a1"]
              (Some "A1") (lit 0.5) 7) as [_ (w & _ & Hw)].
  - intros key stats H. rewrite lookup_empty in H. discriminate.
  - vm_compute. discriminate.
  - exists w. exact Hw.
Defined.

(** X7.  [reset_all_stats] keeps the keys of the store; after it, and
    after the initialisation of an empty store, the weights of the
    candidates of a draw are all 1.0; and resetting twice is resetting
    once. *)
Theorem reset_all_stats_uniform (word_weights : gmap string WordStats)
    (filtered_df : list Row) :
  (∀ key,
     is_Some (reset_all_stats word_weights !! key) ↔
     is_Some (word_weights !! key)) ∧
  weights_of (reset_all_stats word_weights) filtered_df
  = replicate (length filtered_df) (lit 1.0) ∧
  weights_of (_initialize_new_words filtered_df ∅) filtered_df
  = replicate (length filtered_df) (lit 1.0) ∧
  reset_all_stats (reset_all_stats word_weights)
  = reset_all_stats word_weights.
Proof.
  split; [|split; [|split]].
  - intros key. unfold reset_all_stats. rewrite lookup_fmap.
    by rewrite fmap_is_Some.
  - induction filtered_df as [|row rest IH]; [done|].
    cbn [weights_of map length replicate]. f_equal; [|exact IH].
    unfold lookup_weight, reset_all_stats. rewrite lookup_fmap.
    by destruct (word_weights !! row_key row).
  - assert (H : ∀ g' : gmap string WordStats,
              (∀ key stats, g' !! key = Some stats → stats = new_word_stats) →
              weights_of g' filtered_df
              = replicate (length filtered_df) (lit 1.0)).
    { intros g' Hg. induction filtered_df as [|row rest IH]; [done|].
      cbn [weights_of map length replicate]. f_equal; [|exact IH].
      unfold lookup_weight. destruct (g' !! row_key row) eqn:E; [|done].
      by rewrite (Hg _ _ E). }
    apply H. intros key stats Hk.
    rewrite initialize_lookup, lookup_empty in Hk.
    destruct (bool_decide _); congruence.
  - unfold reset_all_stats. rewrite <- map_fmap_compose. done.
Qed.

End StoreProps.

(** ** Word keys and the statistics *)

Module KeyFacts.
Import PyStr PyStrOps WordPicker WordPickerStats PyStrFacts ParseFacts.

Lemma split_on_from_none (sep : ascii) (cur s : string) :
  contains sep s = false → split_on_from sep cur s = [cur +:+ s].
Proof.
  revert cur. induction s as [|c s IH]; intros cur; cbn [contains split_on_from].
  - by rewrite app_empty_r.
  - intros [Hc Hs]%orb_false_iff. rewrite Hc, (IH _ Hs), app_assoc.
    reflexivity.
Qed.

Lemma split_on_from_app (sep : ascii) (cur a b : string) :
  contains sep a = false →
  split_on_from sep cur (a +:+ String sep b)
  = (cur +:+ a) :: split_on sep b.
Proof.
  revert cur. induction a as [|c a IH]; intros cur.
  - intros _. rewrite app_empty_l, app_empty_r. cbn [split_on_from].
    by rewrite Ascii.eqb_refl.
  - cbn [contains]. intros [Hc Ha]%orb_false_iff.
    rewrite app_cons. cbn [split_on_from]. rewrite Hc, (IH _ Ha), app_assoc.
    reflexivity.
Qed.

Lemma split_on_app (sep : ascii) (a b : string) :
  contains sep a = false →
  split_on sep (a +:+ String sep b) = a :: split_on sep b.
Proof.
  intros Ha. unfold split_on at 1. rewrite (split_on_from_app _ _ _ _ Ha).
  by rewrite app_empty_l.
Qed.

Lemma split_on_none (sep : ascii) (s : string) :
  contains sep s = false → split_on sep s = [s].
Proof.
  intros Hs. unfold split_on. rewrite (split_on_from_none _ _ _ Hs).
  by rewrite app_empty_l.
Qed.

Lemma split_on_nonempty (sep : ascii) (cur s : string) :
  ∃ piece rest, split_on_from sep cur s = piece :: rest.
Proof.
  revert cur. induction s as [|c s IH]; intros cur; cbn [split_on_from];
    [eauto|]. destruct (Ascii.eqb c sep); eauto.
Qed.

Lemma word_key_unfold (word word_class level : string) :
  word_key word word_class level
  = word +:+ String "_" (word_class +:+ String "_" level).
Proof. unfold word_key. by rewrite !app_cons, !app_empty_l. Qed.

Lemma split_word_key (word word_class level : string) :
  contains "_" word = false → contains "_" word_class = false →
  split_on "_" (word_key word word_class level)
  = word :: word_class :: split_on "_" level.
Proof.
  intros Hw Hc. rewrite word_key_unfold.
  rewrite (split_on_app _ _ _ Hw), (split_on_app _ _ _ Hc). reflexivity.
Qed.

Lemma app_inv_head (a b c : string) : a +:+ b = a +:+ c → b = c.
Proof.
  induction a as [|x a IH]; [by rewrite !app_empty_l|].
  rewrite !app_cons. intros [= H]. auto.
Qed.

Lemma endswith_refl (s : string) : endswith s s = true.
Proof. destruct s; cbn [endswith]; by rewrite String.eqb_refl. Qed.

Lemma endswith_app (a b : string) : endswith (a +:+ b) b = true.
Proof.
  induction a as [|c a IH]; [rewrite app_empty_l; apply endswith_refl|].
  rewrite app_cons. cbn [endswith]. rewrite IH.
  by destruct (String.eqb _ _).
Qed.

Lemma endswith_inv (s suffix : string) :
  endswith s suffix = true → ∃ a, s = a +:+ suffix.
Proof.
  induction s as [|c s IH]; cbn [endswith].
  - destruct (String.eqb_spec "" suffix) as [<- | _]; [|done].
    by exists "".
  - destruct (String.eqb_spec (String c s) suffix) as [<- | _].
    + by exists "".
    + intros [a ->]%IH. exists (String c a). by rewrite app_cons.
Qed.

Lemma endswith_word_key (word word_class level : string) :
  endswith (word_key word word_class level) ("_" +:+ level) = true.
Proof.
  unfold word_key.
  replace (word +:+ "_" +:+ word_class +:+ "_" +:+ level)
    with ((word +:+ "_" +:+ word_class) +:+ ("_" +:+ level))
    by (by rewrite !app_assoc).
  apply endswith_app.
Qed.

End KeyFacts.

Module StatsFacts.
Import PyStr PyStrOps PyExc PyFloat PyList WordPicker WordPickerStats.
Import WeightSpec.
Import StoreSpec PyStrFacts FloatFacts WeightFacts KeyFacts.

Lemma percent_or_zero_cases (a b : N) :
  percent_or_zero a b
  = if (0 <? b)%N then
      if isfinite (quotient a b)
      then Return (Float (times_100 (quotient a b)))
      else Raise OverflowError
    else Return (Int 0).
Proof.
  unfold percent_or_zero, truediv.
  destruct (N.ltb_spec 0 b) as [Hb | Hb]; [|done].
  destruct (N.eqb_spec b 0) as [|_]; [lia|].
  destruct (isfinite (quotient a b)); reflexivity.
Qed.

Lemma percent_or_zero_bounded (a b : N) :
  (a ≤ b)%N →
  percent_or_zero a b
  = Return (if (0 <? b)%N then Float (times_100 (quotient a b)) else Int 0).
Proof.
  intros Hle. rewrite percent_or_zero_cases.
  destruct (N.ltb_spec 0 b) as [Hb | Hb]; [|done].
  by rewrite quotient_finite by lia.
Qed.

Lemma is_mastered_cases (w : WordStats) :
  is_mastered w
  = if (3 <=? total_attempts w)%N then
      if isfinite (accuracy_of w)
      then Return (fleb (lit 0.8) (accuracy_of w))
      else Raise OverflowError
    else Return false.
Proof.
  unfold is_mastered, truediv, accuracy_of.
  destruct (N.leb_spec 3 (total_attempts w)) as [H | H]; [|done].
  destruct (N.eqb_spec (total_attempts w) 0) as [|_]; [lia|].
  destruct (isfinite _); reflexivity.
Qed.

Lemma is_mastered_bounded (w : WordStats) :
  counts_bounded w →
  is_mastered w
  = Return ((3 <=? total_attempts w)%N && fleb (lit 0.8) (accuracy_of w)).
Proof.
  intros Hle. rewrite is_mastered_cases.
  destruct (N.leb_spec 3 (total_attempts w)) as [H | H]; [|done].
  by rewrite accuracy_finite by (done || lia).
Qed.

Lemma is_mastered_raise (w : WordStats) (e : PyExn) :
  is_mastered w = Raise e → e = OverflowError.
Proof.
  rewrite is_mastered_cases. destruct (_ <=? _)%N; [|done].
  destruct (isfinite _); [done|]. by intros [= <-].
Qed.

Lemma is_mastered_new (w : WordStats) :
  total_attempts w = 0%N → is_mastered w = Return false.
Proof. intros H0. rewrite is_mastered_cases, H0. done. Qed.

Lemma count_mastered_return (level_words : list WordStats) (n : nat) :
  count_mastered level_words = Return n →
  (n ≤ length level_words)%nat ∧
  ((∀ w, w ∈ level_words → total_attempts w = 0%N) → n = O).
Proof.
  revert n. induction level_words as [|w rest IH]; intros n;
    cbn [count_mastered length].
  - by intros [= <-].
  - destruct (is_mastered w) as [b | e] eqn:Eb; [|done].
    destruct (count_mastered rest) as [m | e] eqn:Em; [|done].
    cbn. intros [= <-]. destruct (IH m eq_refl) as [Hle Hz]. split.
    + destruct b; lia.
    + intros H0. rewrite (is_mastered_new w) in Eb by (apply H0; left).
      injection Eb as <-. apply Hz. intros w' Hw'. apply H0. by right.
Qed.

Lemma count_mastered_returns (level_words : list WordStats) :
  (∀ w, w ∈ level_words → counts_bounded w) →
  ∃ n, count_mastered level_words = Return n.
Proof.
  induction level_words as [|w rest IH]; intros Hall; cbn [count_mastered];
    [by exists O|].
  rewrite is_mastered_bounded by (apply Hall; left).
  destruct IH as [n ->]; [intros w' Hw'; apply Hall; by right|].
  cbn. eauto.
Qed.

Lemma count_mastered_raise (level_words : list WordStats) (e : PyExn) :
  count_mastered level_words = Raise e → e = OverflowError.
Proof.
  induction level_words as [|w rest IH]; cbn [count_mastered]; [done|].
  destruct (is_mastered w) as [b | e'] eqn:Eb.
  - destruct (count_mastered rest) as [m | e'']; [done|].
    cbn. intros [= <-]. by apply IH.
  - cbn. intros [= <-]. by apply is_mastered_raise in Eb.
Qed.

(** What the loop has collected when it returns: every item returned,
    and the entries are the ones that the items gave, in their order. *)
Lemma collect_return {A B : Type} (body : A → PyResult (option B))
    (items : list A) (es : list B) :
  collect body items = Return es →
  (∀ item, item ∈ items → ∃ r, body item = Return r) ∧
  (∀ e, e ∈ es ↔ ∃ item, item ∈ items ∧ body item = Return (Some e)) ∧
  (length es ≤ length items)%nat.
Proof.
  revert es. induction items as [|item rest IH]; intros es; cbn [collect].
  - intros [= <-]. split; [intros item H; inversion H|].
    split; [|done]. intros e. split.
    + intros H. inversion H.
    + intros (item & H & _). inversion H.
  - destruct (body item) as [e | x] eqn:He; [|done].
    destruct (collect body rest) as [es' | x] eqn:Hes; [|done].
    cbn. intros [= <-]. destruct (IH es' eq_refl) as (Hret & Hmem & Hlen).
    split; [|split].
    + intros it [-> | Hit]%elem_of_cons; eauto.
    + intros e'. destruct e as [x|].
      * rewrite elem_of_cons, Hmem. split.
        -- intros [-> | (it & Hit & Hb)].
           ++ exists item. split; [left|done].
           ++ exists it. split; [by right|done].
        -- intros (it & [-> | Hit]%elem_of_cons & Hb).
           ++ left. congruence.
           ++ right. eauto.
      * rewrite Hmem. split.
        -- intros (it & Hit & Hb). exists it. split; [by right|done].
        -- intros (it & [-> | Hit]%elem_of_cons & Hb); [congruence|eauto].
    + destruct e; cbn [length]; lia.
Qed.

Lemma collect_returns {A B : Type} (body : A → PyResult (option B))
    (items : list A) :
  (∀ item, item ∈ items → ∃ r, body item = Return r) →
  ∃ es, collect body items = Return es.
Proof.
  induction items as [|item rest IH]; intros Hall; cbn [collect]; [eauto|].
  destruct (Hall item) as [r ->]; [left|].
  destruct IH as [es ->]; [intros it Hit; apply Hall; by right|].
  cbn. eauto.
Qed.

Lemma collect_raise {A B : Type} (body : A → PyResult (option B))
    (items : list A) (e : PyExn) :
  collect body items = Raise e →
  ∃ item, item ∈ items ∧ body item = Raise e.
Proof.
  induction items as [|item rest IH]; cbn [collect]; [done|].
  destruct (body item) as [r | e'] eqn:Hr.
  - destruct (collect body rest) as [es | e'']; [done|].
    cbn. intros [= <-]. destruct IH as (it & Hit & Hb); [done|].
    exists it. split; [by right | done].
  - cbn. intros [= <-]. exists item. split; [left | done].
Qed.

Lemma insert_desc_perm {A : Type} (lt : A → A → bool) (x : A) (l : list A) :
  insert_desc lt x l ≡ₚ x :: l.
Proof.
  induction l as [|y l IH]; cbn [insert_desc]; [done|].
  destruct (lt x y); [|done]. rewrite IH. apply Permutation_swap.
Qed.

Lemma sort_desc_perm {A : Type} (lt : A → A → bool) (l : list A) :
  sort_desc lt l ≡ₚ l.
Proof.
  induction l as [|x l IH]; [done|]. cbn [sort_desc foldr].
  rewrite insert_desc_perm. by apply Permutation_skip.
Qed.

Lemma insert_desc_sorted {A : Type} (lt : A → A → bool) (x : A)
    (l : list A) :
  (∀ a b, lt a b = true → lt b a = false) →
  Sorted (λ a b, lt a b = false) l →
  Sorted (λ a b, lt a b = false) (insert_desc lt x l).
Proof.
  intros Hasym. induction l as [|y l IH]; cbn [insert_desc]; intros Hs.
  - by repeat constructor.
  - destruct (lt x y) eqn:E.
    + apply Sorted_inv in Hs as [Hs Hhd]. constructor; [by apply IH|].
      destruct l as [|z l]; cbn [insert_desc].
      * constructor. by apply Hasym.
      * destruct (lt x z); constructor; [|by apply Hasym].
        by apply HdRel_inv in Hhd.
    + constructor; [done|]. by constructor.
Qed.

Lemma sort_desc_sorted {A : Type} (lt : A → A → bool) (l : list A) :
  (∀ a b, lt a b = true → lt b a = false) →
  Sorted (λ a b, lt a b = false) (sort_desc lt l).
Proof.
  intros Hasym. induction l as [|x l IH]; [constructor|].
  cbn [sort_desc foldr]. by apply insert_desc_sorted.
Qed.

Lemma take_sorted {A : Type} (R : A → A → Prop) (n : nat) (l : list A) :
  Sorted R l → Sorted R (take n l).
Proof.
  revert n. induction l as [|x l IH]; intros n Hs; [by destruct n|].
  destruct n as [|n]; [constructor|]. cbn [take].
  apply Sorted_inv in Hs as [Hs Hhd]. constructor; [by apply IH|].
  destruct l as [|y l]; [destruct n; constructor|].
  destruct n; [constructor|]. cbn [take]. constructor.
  by apply HdRel_inv in Hhd.
Qed.

Lemma slice_to_sorted {A : Type} (R : A → A → Prop) (limit : Z)
    (l : list A) :
  Sorted R l → Sorted R (slice_to l limit).
Proof. intros Hs. unfold slice_to. destruct (_ <=? _)%Z; by apply take_sorted. Qed.

Lemma slice_to_member {A : Type} (limit : Z) (l : list A) (x : A) :
  x ∈ slice_to l limit → x ∈ l.
Proof.
  unfold slice_to. destruct (_ <=? _)%Z; intros (i & H & _)%elem_of_take;
    by eapply list_elem_of_lookup_2.
Qed.

Lemma slice_to_length {A : Type} (limit : Z) (l : list A) :
  (length (slice_to l limit) ≤ length l)%nat ∧
  ((0 ≤ limit)%Z → (length (slice_to l limit) ≤ Z.to_nat limit)%nat) ∧
  ((Z.of_nat (length l) ≤ limit)%Z → slice_to l limit = l).
Proof.
  unfold slice_to. destruct (Z.leb_spec 0 limit) as [H | H];
    rewrite length_take; repeat split; try lia.
  intros Hl. apply take_ge. lia.
Qed.

Lemma fltb_asym (x y : float) : fltb x y = true → fltb y x = false.
Proof.
  unfold fltb, SFltb. rewrite (SFcompare_antisym x y).
  by destruct (SFcompare x y) as [[]|].
Qed.

Lemma fltb_false_fleb (x y : float) :
  x ≠ S754_nan → y ≠ S754_nan → fltb x y = false → fleb y x = true.
Proof.
  intros Hx Hy Hlt. destruct (fleb y x) eqn:E; [done|].
  rewrite (fleb_false_fltb _ _ Hy Hx E) in Hlt. done.
Qed.

(** A record whose weight is its adaptive weight and that counts as
    mastered weighs less than 1.5. *)
Lemma mastered_weight_low (stats : WordStats) :
  weight_consistent stats →
  (3 <=? total_attempts stats)%N = true →
  fleb (lit 0.8) (accuracy_of stats) = true →
  fleb (lit 1.5) (weight stats) = false.
Proof.
  unfold weight_consistent. intros Hc H3 Hacc.
  assert (total_attempts stats ≠ 0%N) as Htot.
  { intros H0. rewrite H0 in H3. done. }
  rewrite calculate_adaptive_weight_eq, truediv_accuracy in Hc by done.
  destruct (isfinite (accuracy_of stats)); [|done].
  injection Hc as <-. unfold base_weight. rewrite Hacc.
  unfold consecutive_modifier, attempt_modifier.
  repeat match goal with
         | |- context [if N.leb ?a ?b then _ else _] => destruct (N.leb a b)
         end; vm_compute; reflexivity.
Qed.

Lemma app_inv_length (a1 a2 b1 b2 : string) :
  String.length a1 = String.length a2 →
  a1 +:+ b1 = a2 +:+ b2 → b1 = b2.
Proof.
  revert a2. induction a1 as [|c a1 IH]; intros [|c' a2]; try done.
  cbn [String.length]. intros [= Hlen]. rewrite !app_cons.
  intros [= _ H]. eauto.
Qed.

Lemma endswith_lower (key suffix : string) :
  lower key = key → endswith key suffix = true → lower suffix = suffix.
Proof.
  intros Hkey [a ->]%endswith_inv. rewrite lower_app in Hkey.
  eapply app_inv_length; [|exact Hkey]. apply length_lower.
Qed.

Lemma sum_zero {A : Type} (f : A → N) (l : list A) (a : N) :
  foldl (λ acc w, acc + f w)%N a l = 0%N →
  a = 0%N ∧ ∀ w, w ∈ l → f w = 0%N.
Proof.
  revert a. induction l as [|x l IH]; intros a; cbn [foldl].
  - intros ->. split; [done|]. intros w H. inversion H.
  - intros [Ha Hl]%IH. split; [lia|].
    intros w [-> | Hw]%elem_of_cons; [lia|auto].
Qed.

Lemma sum_le {A : Type} (f g : A → N) (l : list A) (a b : N) :
  (a ≤ b)%N → (∀ w, w ∈ l → (f w ≤ g w)%N) →
  (foldl (λ acc w, acc + f w) a l ≤ foldl (λ acc w, acc + g w) b l)%N.
Proof.
  revert a b. induction l as [|x l IH]; intros a b Hab Hl; cbn [foldl];
    [done|]. apply IH.
  - specialize (Hl x (list_elem_of_here _ _)). lia.
  - intros w Hw. apply Hl. by right.
Qed.

Lemma sum_member {A : Type} (f : A → N) (l : list A) (a : N) (x : A) :
  x ∈ l → (f x ≤ foldl (λ acc w, acc + f w) a l)%N.
Proof.
  revert a. induction l as [|y l IH]; intros a Hx; [inversion Hx|].
  cbn [foldl]. apply elem_of_cons in Hx as [-> | Hx]; [|auto].
  transitivity (a + f y)%N; [lia|].
  clear IH. generalize (a + f y)%N. induction l as [|z l IH]; intros n;
    cbn [foldl]; [lia|]. etransitivity; [|apply IH]. lia.
Qed.

Lemma zero_percent (n : nat) :
  times_100 (quotient 0 (N.of_nat (S n))) = lit 0.0.
Proof.
  unfold quotient. destruct (N.of_nat (S n)) eqn:E; [lia|]. reflexivity.
Qed.

Lemma times_100_not_nan (x : float) :
  x ≠ S754_nan → times_100 x ≠ S754_nan.
Proof.
  intros Hx. unfold times_100.
  replace (quotient 100 1) with (S754_finite false 7036874417766400 (-46))
    by (vm_compute; reflexivity).
  destruct x as [s | s | | s m e]; try done.
  unfold fmul, SFmul. apply binary_round_aux_not_nan. lia.
Qed.

Lemma SFeqb_fleb (x y : float) : SFeqb x y = true → fleb y x = true.
Proof.
  unfold SFeqb, fleb, SFleb. rewrite (SFcompare_antisym x y).
  by destruct (SFcompare x y) as [[]|].
Qed.

Lemma sorted_weaken {A : Type} (R R' : A → A → Prop) (l : list A) :
  (∀ a b, a ∈ l → b ∈ l → R a b → R' a b) →
  Sorted R l → Sorted R' l.
Proof.
  induction l as [|x l IH]; intros Himp Hs; [constructor|].
  apply Sorted_inv in Hs as [Hs Hhd]. constructor.
  - apply IH; [|done]. intros a b Ha Hb. apply Himp; by right.
  - destruct l as [|y l]; constructor. apply HdRel_inv in Hhd.
    apply Himp; [left | right; left | done].
Qed.

Lemma other_level_false (level : option string) (word_level : string) :
  other_level level word_level = false →
  ∀ l, level = Some l → l ≠ "" → word_level = lower l.
Proof.
  intros H l -> Hl. cbn in H. destruct l; [done|]. cbn in H.
  apply negb_false_iff in H. by apply String.eqb_eq in H.
Qed.

Lemma other_level_true (level : option string) (word_level : string) :
  (∀ l, level = Some l → l ≠ "" → word_level = lower l) →
  other_level level word_level = false.
Proof.
  intros H. destruct level as [l|]; [|done]. cbn.
  destruct l as [|c l]; [done|]. cbn.
  rewrite (H (String c l)) by done. by rewrite String.eqb_refl.
Qed.

Lemma difficult_entry_inv (level : option string) (key : string)
    (stats : WordStats) (e : DifficultWord) :
  difficult_entry level (key, stats) = Return (Some e) →
  key_parts key
  = Some (difficult_word e, difficult_class e, difficult_level e) ∧
  other_level level (difficult_level e) = false ∧
  (2 ≤ total_attempts stats)%N ∧
  fleb (lit 1.5) (weight stats) = true ∧
  e = {| difficult_word := difficult_word e;
         difficult_class := difficult_class e;
         difficult_level := difficult_level e;
         difficult_weight := weight stats;
         difficult_accuracy := Float (times_100 (accuracy_of stats));
         difficult_attempts := total_attempts stats;
         difficult_consecutive_wrong := consecutive_wrong stats |}.
Proof.
  unfold difficult_entry. destruct (key_parts key) as [[[w c] l]|]; [|done].
  destruct (other_level level l) eqn:Eo; [done|].
  destruct (N.leb_spec 2 (total_attempts stats)) as [H2 | H2]; [|done].
  destruct (fleb (lit 1.5) (weight stats)) eqn:Ew; [|done].
  cbn [andb]. rewrite percent_or_zero_cases.
  destruct (N.ltb_spec 0 (total_attempts stats)) as [H0 | H0]; [|lia].
  destruct (isfinite _); [|done].
  cbn. intros [= <-]. cbn. done.
Qed.

(** The entry of a record that qualifies, when the body returns. *)
Lemma difficult_entry_qualifying (level : option string) (key : string)
    (stats : WordStats) (word word_class word_level : string)
    (r : option DifficultWord) :
  key_parts key = Some (word, word_class, word_level) →
  other_level level word_level = false →
  (2 ≤ total_attempts stats)%N →
  fleb (lit 1.5) (weight stats) = true →
  difficult_entry level (key, stats) = Return r →
  r = Some {| difficult_word := word;
              difficult_class := word_class;
              difficult_level := word_level;
              difficult_weight := weight stats;
              difficult_accuracy := Float (times_100 (accuracy_of stats));
              difficult_attempts := total_attempts stats;
              difficult_consecutive_wrong := consecutive_wrong stats |}.
Proof.
  intros Hk Ho H2 Hw. unfold difficult_entry. rewrite Hk, Ho.
  apply N.leb_le in H2 as H2'. rewrite H2', Hw. cbn [andb].
  rewrite percent_or_zero_cases.
  destruct (N.ltb_spec 0 (total_attempts stats)) as [H0 | H0]; [|lia].
  destruct (isfinite _); [|done].
  cbn. by intros [= <-].
Qed.

Lemma difficult_entry_returns (level : option string)
    (item : string * WordStats) :
  counts_bounded (snd item) → ∃ r, difficult_entry level item = Return r.
Proof.
  destruct item as [key stats]. cbn [snd]. intros Hle.
  unfold difficult_entry.
  destruct (key_parts key) as [[[w c] l]|]; [|eauto].
  destruct (other_level level l); [eauto|].
  destruct (_ && _); [|eauto]. rewrite percent_or_zero_bounded by done.
  cbn. eauto.
Qed.

Lemma difficult_entry_raise (level : option string)
    (item : string * WordStats) (e : PyExn) :
  difficult_entry level item = Raise e → e = OverflowError.
Proof.
  destruct item as [key stats]. unfold difficult_entry.
  destruct (key_parts key) as [[[w c] l]|]; [|done].
  destruct (other_level level l); [done|].
  destruct (_ && _); [|done]. rewrite percent_or_zero_cases.
  destruct (_ <? _)%N; [|done]. destruct (isfinite _); [done|].
  cbn. by intros [= <-].
Qed.

Lemma mastered_entry_inv (level : option string) (key : string)
    (stats : WordStats) (e : MasteredWord) :
  mastered_entry level (key, stats) = Return (Some e) →
  key_parts key
  = Some (mastered_word e, mastered_class e, mastered_level e) ∧
  other_level level (mastered_level e) = false ∧
  (3 ≤ total_attempts stats)%N ∧
  isfinite (accuracy_of stats) = true ∧
  fleb (lit 0.8) (accuracy_of stats) = true ∧
  e = {| mastered_word := mastered_word e;
         mastered_class := mastered_class e;
         mastered_level := mastered_level e;
         mastered_weight := weight stats;
         mastered_accuracy := times_100 (accuracy_of stats);
         mastered_attempts := total_attempts stats;
         mastered_consecutive_correct := consecutive_correct stats |}.
Proof.
  unfold mastered_entry. destruct (key_parts key) as [[[w c] l]|]; [|done].
  destruct (other_level level l) eqn:Eo; [done|].
  rewrite is_mastered_cases.
  destruct (N.leb_spec 3 (total_attempts stats)) as [H3 | H3]; [|done].
  rewrite truediv_accuracy by lia.
  destruct (isfinite (accuracy_of stats)); [|done].
  cbn [mbind PyResult_bind].
  destruct (fleb (lit 0.8) (accuracy_of stats)) eqn:Ea; [|done].
  intros [= <-]. cbn. done.
Qed.

Lemma mastered_entry_returns (level : option string)
    (item : string * WordStats) :
  counts_bounded (snd item) → ∃ r, mastered_entry level item = Return r.
Proof.
  destruct item as [key stats]. cbn [snd]. intros Hle.
  unfold mastered_entry.
  destruct (key_parts key) as [[[w c] l]|]; [|eauto].
  destruct (other_level level l); [eauto|].
  rewrite is_mastered_bounded by done. cbn.
  destruct (N.leb_spec 3 (total_attempts stats)) as [H3 | H3]; [|cbn; eauto].
  cbn [andb]. destruct (fleb _ _); [|eauto].
  rewrite truediv_bounded by (done || lia). cbn. eauto.
Qed.

Lemma mastered_entry_raise (level : option string)
    (item : string * WordStats) (e : PyExn) :
  mastered_entry level item = Raise e → e = OverflowError.
Proof.
  destruct item as [key stats]. unfold mastered_entry.
  destruct (key_parts key) as [[[w c] l]|]; [|done].
  destruct (other_level level l); [done|].
  rewrite is_mastered_cases.
  destruct (N.leb_spec 3 (total_attempts stats)) as [H3 | H3]; [|done].
  rewrite truediv_accuracy by lia.
  destruct (isfinite (accuracy_of stats)); [|by intros [= <-]].
  cbn [mbind PyResult_bind]. by destruct (fleb _ _).
Qed.

End StatsFacts.

Module StatsProps.
Import PyStr PyStrOps PyExc PyFloat PyList WordPicker WordPickerStats.
Import WeightSpec.
Import StoreSpec PyStrFacts FloatFacts WeightFacts KeyFacts StatsFacts.

(** X8.  When neither the word nor the class contains an underscore,
    [word_key.split('_')] is the word, the class and then the parts of
    the level: [parts[0]] and [parts[1]] are the word and the class, and
    [parts[2]] is the level when the level has no underscore either.  On
    such words the key determines word, class and level. *)
Theorem word_key_parts (word word_class level : string) :
  contains "_" word = false → contains "_" word_class = false →
  split_on "_" (word_key word word_class level)
  = word :: word_class :: split_on "_" level ∧
  (∃ word_level,
     key_parts (word_key word word_class level)
     = Some (word, word_class, word_level)) ∧
  (contains "_" level = false →
   key_parts (word_key word word_class level)
   = Some (word, word_class, level)) ∧
  (∀ word' word_class' level',
     contains "_" word' = false → contains "_" word_class' = false →
     word_key word' word_class' level' = word_key word word_class level →
     word' = word ∧ word_class' = word_class ∧ level' = level).
Proof.
  intros Hw Hc. pose proof (split_word_key word word_class level Hw Hc) as Hs.
  split; [exact Hs|]. split; [|split].
  - unfold key_parts. rewrite Hs.
    destruct (split_on_nonempty "_" "" level) as (p & rest & Hp).
    unfold split_on at 1. rewrite Hp. eauto.
  - intros Hl. unfold key_parts. rewrite Hs, (split_on_none _ _ Hl). done.
  - intros w' c' l' Hw' Hc' Heq.
    pose proof (split_word_key w' c' l' Hw' Hc') as Hs'.
    rewrite Heq, Hs in Hs'. injection Hs' as -> -> _.
    repeat split. rewrite !word_key_unfold in Heq.
    apply app_inv_head in Heq. injection Heq as Heq.
    apply app_inv_head in Heq. by injection Heq.
Qed.

Lemma word_key_parts_witness :
  key_parts (word_key "cat" "noun" "a1") = Some ("cat", "noun", "a1").
Proof.
  apply (word_key_parts "cat" "noun" "a1"); reflexivity.
Defined.

(** X9.  [get_level_statistics] raises no [ZeroDivisionError]: the only
    exception it can end with is the [OverflowError] of a division whose
    quotient is no float, and it returns whenever every record has
    [correct_count <= total_attempts].  When no key ends with
    ["_" + level], it returns the five results zero, the two percentages
    being the float 0.0; when it returns and records are counted but
    none has an attempt, [average_accuracy] is the integer 0 and
    [mastery_level] the float 0.0; with attempts, [average_accuracy] is
    [total_correct / total_attempts * 100]. *)
Theorem level_statistics_defined (items : list (string * WordStats))
    (level : string) :
  (∀ e, get_level_statistics items level = Raise e → e = OverflowError) ∧
  ((∀ item, item ∈ items → counts_bounded (snd item)) →
   ∃ r, get_level_statistics items level = Return r) ∧
  ((∀ item, item ∈ items →
      endswith (fst item) ("_" +:+ level) = false) →
   get_level_statistics items level
   = Return {| level_total_words := 0;
               level_total_attempts := 0;
               level_total_correct := 0;
               average_accuracy := Float (lit 0.0);
               mastery_level := Float (lit 0.0) |}) ∧
  (∀ r,
     get_level_statistics items level = Return r →
     (level_total_words r ≠ O → level_total_attempts r = 0%N →
      average_accuracy r = Int 0 ∧ mastery_level r = Float (lit 0.0)) ∧
     ((0 < level_total_attempts r)%N →
      average_accuracy r
      = Float (times_100 (quotient (level_total_correct r)
                            (level_total_attempts r))))).
Proof.
  unfold get_level_statistics.
  set (level_words :=
         map snd (List.filter
                    (λ item, endswith (fst item) ("_" +:+ level)) items)).
  assert (Hmem : ∀ w, w ∈ level_words →
            ∃ key, (key, w) ∈ items ∧ endswith key ("_" +:+ level) = true).
  { intros w (item & -> & Hin)%list_elem_of_fmap.
    apply list_elem_of_In, filter_In in Hin as [Hin Hend].
    apply list_elem_of_In in Hin. destruct item as [key w]. eauto. }
  destruct level_words as [|w rest] eqn:E.
  { split; [done|]. split; [eauto|]. split; [done|].
    intros r [= <-]. cbn. split; [done|lia]. }
  set (attempts := foldl (λ acc w, acc + total_attempts w)%N 0%N (w :: rest)).
  set (correct := foldl (λ acc w, acc + correct_count w)%N 0%N (w :: rest)).
  rewrite (percent_or_zero_cases correct attempts).
  split; [|split; [|split]].
  - intros e.
    destruct (0 <? attempts)%N;
      [destruct (isfinite (quotient correct attempts));
       [|by intros [= <-]]|];
      cbn [mbind PyResult_bind];
      (destruct (count_mastered (w :: rest)) as [n | e'] eqn:En;
       [|cbn [mbind PyResult_bind]; intros [= <-];
         by apply count_mastered_raise in En]);
      cbn [mbind PyResult_bind];
      (rewrite percent_or_zero_bounded
         by (apply count_mastered_return in En as [Hle _]; lia));
      done.
  - intros Hall.
    assert (Hle : ∀ w', w' ∈ w :: rest → counts_bounded w').
    { intros w' Hw'. destruct (Hmem _ Hw') as (key & Hin & _).
      exact (Hall _ Hin). }
    assert (correct ≤ attempts)%N as Hsum.
    { apply sum_le; [lia|]. exact Hle. }
    destruct (count_mastered_returns (w :: rest) Hle) as [n Hn].
    rewrite Hn.
    assert (isfinite (quotient correct attempts) = true ∨
            (0 <? attempts)%N = false) as [-> | ->].
    { destruct (N.ltb_spec 0 attempts); [left|by right].
      apply quotient_finite; lia. }
    + destruct (0 <? attempts)%N; cbn [mbind PyResult_bind];
        (rewrite percent_or_zero_bounded
           by (apply count_mastered_return in Hn as [Hn _]; lia)); eauto.
    + cbn [mbind PyResult_bind].
      rewrite percent_or_zero_bounded
        by (apply count_mastered_return in Hn as [Hn _]; lia).
      eauto.
  - intros Hnone. exfalso.
    destruct (Hmem w) as (key & Hin & Hend); [left|].
    specialize (Hnone _ Hin). cbn in Hnone. congruence.
  - intros r Hr.
    assert (∃ n avg,
              count_mastered (w :: rest) = Return n ∧
              (if (0 <? attempts)%N
               then avg = Float (times_100 (quotient correct attempts))
               else avg = Int 0) ∧
              r = {| level_total_words := length (w :: rest);
                     level_total_attempts := attempts;
                     level_total_correct := correct;
                     average_accuracy := avg;
                     mastery_level :=
                       Float (times_100
                                (quotient (N.of_nat n)
                                   (N.of_nat (length (w :: rest))))) |})
      as (n & avg & Hn & Havg & ->).
    { destruct (count_mastered (w :: rest)) as [n | e'] eqn:En.
      - assert (percent_or_zero (N.of_nat n) (N.of_nat (length (w :: rest)))
                = Return (Float (times_100
                                   (quotient (N.of_nat n)
                                      (N.of_nat (length (w :: rest)))))))
          as Hm.
        { rewrite percent_or_zero_bounded
            by (apply count_mastered_return in En as [Hle _]; lia).
          cbn [length]. by rewrite (proj2 (N.ltb_lt 0 _)) by lia. }
        destruct (0 <? attempts)%N;
          [destruct (isfinite (quotient correct attempts)); [|done]|];
          cbn [mbind PyResult_bind] in Hr; rewrite Hm in Hr;
          cbn [mbind PyResult_bind] in Hr; injection Hr as <-; eauto.
      - destruct (0 <? attempts)%N;
          [destruct (isfinite (quotient correct attempts))|]; done. }
    cbn [level_total_words level_total_attempts level_total_correct
         average_accuracy mastery_level]. split.
    + intros _ H0. rewrite H0 in Havg. cbn in Havg. split; [done|].
      unfold attempts in H0. apply sum_zero in H0 as [_ H0].
      apply count_mastered_return in Hn as [_ Hz]. rewrite (Hz H0).
      f_equal; apply zero_percent.
    + intros Hpos. by rewrite (proj2 (N.ltb_lt 0 _) Hpos) in Havg.
Qed.

(** X10.  When the counts of every record add up, the number of correct
    answers of a level is at most its number of attempts; the number of
    words counted is at most the size of the store; and a record stored
    under [word_key word word_class level] is counted for [level], its
    attempts and its correct answers being part of the totals. *)
Theorem level_statistics_totals (items : list (string * WordStats))
    (level : string) (r : LevelStatistics) :
  (∀ item, item ∈ items → counts_add_up (snd item)) →
  get_level_statistics items level = Return r →
  (level_total_correct r ≤ level_total_attempts r)%N ∧
  (level_total_words r ≤ length items)%nat ∧
  (∀ word word_class stats,
     (word_key word word_class level, stats) ∈ items →
     (1 ≤ level_total_words r)%nat ∧
     (total_attempts stats ≤ level_total_attempts r)%N ∧
     (correct_count stats ≤ level_total_correct r)%N).
Proof.
  intros Hall. unfold get_level_statistics.
  set (level_words :=
         map snd (List.filter
                    (λ item, endswith (fst item) ("_" +:+ level)) items)).
  assert (Hmem : ∀ w, w ∈ level_words →
            ∃ key, (key, w) ∈ items ∧ endswith key ("_" +:+ level) = true).
  { intros w (item & -> & Hin)%list_elem_of_fmap.
    apply list_elem_of_In, filter_In in Hin as [Hin Hend].
    apply list_elem_of_In in Hin. destruct item as [key w]. eauto. }
  assert (Hlen : (length level_words ≤ length items)%nat).
  { unfold level_words. rewrite length_map.
    apply List.filter_length_le. }
  assert (Hkey : ∀ word word_class stats,
            (word_key word word_class level, stats) ∈ items →
            stats ∈ level_words).
  { intros word word_class stats Hin. unfold level_words.
    apply list_elem_of_fmap. exists (word_key word word_class level, stats).
    split; [done|]. apply list_elem_of_In, filter_In.
    split; [by apply list_elem_of_In|]. apply endswith_word_key. }
  destruct level_words as [|w rest] eqn:E.
  - intros [= <-]. cbn. split; [done|]. split; [lia|].
    intros word word_class stats Hin. apply Hkey in Hin. inversion Hin.
  - intros Hr.
    assert (level_total_words r = length (w :: rest) ∧
            level_total_attempts r
            = foldl (λ acc w, acc + total_attempts w)%N 0%N (w :: rest) ∧
            level_total_correct r
            = foldl (λ acc w, acc + correct_count w)%N 0%N (w :: rest))
      as (-> & -> & ->).
    { destruct (percent_or_zero _ _) as [avg | e1]; [|done].
      cbn [mbind PyResult_bind] in Hr.
      destruct (count_mastered (w :: rest)) as [n | e2]; [|done].
      cbn [mbind PyResult_bind] in Hr.
      destruct (percent_or_zero _ _) as [m | e3]; [|done].
      cbn [mbind PyResult_bind] in Hr. by injection Hr as <-. }
    split; [|split; [exact Hlen|]].
    + assert (Hle : ∀ w', w' ∈ w :: rest →
                (correct_count w' ≤ total_attempts w')%N).
      { intros w' Hw'. destruct (Hmem _ Hw') as (key & Hin & _).
        specialize (Hall _ Hin). unfold counts_add_up in Hall.
        cbn in Hall. lia. }
      apply sum_le; [lia|]. exact Hle.
    + intros word word_class stats Hin. apply Hkey in Hin.
      split; [cbn [length]; lia|].
      split; [exact (sum_member total_attempts _ 0%N _ Hin)|].
      exact (sum_member correct_count _ 0%N _ Hin).
Qed.

Lemma level_statistics_totals_witness :
  (level_total_correct
     (mkLevelStatistics 2 8 5 (Float (lit 62.5)) (Float (lit 50.0)))
   ≤ level_total_attempts
       (mkLevelStatistics 2 8 5 (Float (lit 62.5)) (Float (lit 50.0))))%N.
Proof.
  apply (level_statistics_totals
           [("cat_noun_a1", mkWordStats (lit 3.0) 2 3 5 None 0 2);
            ("dog_noun_a1", mkWordStats (lit 0.36) 3 0 3 None 3 0)] "a1").
  - intros item Hin. repeat apply elem_of_cons in Hin as [-> | Hin];
      [reflexivity | reflexivity | inversion Hin].
  - vm_compute. reflexivity.
Defined.

(** X11.  [get_level_statistics] compares the level as it is written:
    when all keys are in lower case and the level is not, no key matches
    and the result is the all-zero one. *)
Theorem level_statistics_case_sensitive (items : list (string * WordStats))
    (level : string) :
  (∀ item, item ∈ items → lower (fst item) = fst item) →
  lower level ≠ level →
  get_level_statistics items level
  = Return {| level_total_words := 0;
            level_total_attempts := 0;
            level_total_correct := 0;
            average_accuracy := Float (lit 0.0);
            mastery_level := Float (lit 0.0) |}.
Proof.
  intros Hkeys Hlevel. unfold get_level_statistics.
  assert (Hnone : List.filter
            (λ item, endswith (fst item) ("_" +:+ level)) items = []).
  { induction items as [|item rest IH]; [done|]. cbn [List.filter].
    destruct (endswith (fst item) ("_" +:+ level)) eqn:E.
    - exfalso. apply Hlevel.
      pose proof (endswith_lower _ _ (Hkeys item (list_elem_of_here _ _)) E)
        as H.
      rewrite lower_app in H. by apply app_inv_head in H.
    - apply IH. intros item' Hin. apply Hkeys. by right. }
  by rewrite Hnone.
Qed.

Lemma level_statistics_case_sensitive_witness :
  get_level_statistics
    [("cat_noun_a1", mkWordStats (lit 3.0) 2 3 5 None 0 2)] "A1"
  = Return {| level_total_words := 0;
            level_total_attempts := 0;
            level_total_correct := 0;
            average_accuracy := Float (lit 0.0);
            mastery_level := Float (lit 0.0) |}.
Proof.
  apply (level_statistics_case_sensitive
           [("cat_noun_a1", mkWordStats (lit 3.0) 2 3 5 None 0 2)] "A1").
  - intros item Hin. apply elem_of_cons in Hin as [-> | Hin];
      [reflexivity | inversion Hin].
  - vm_compute. discriminate.
Defined.

(** X12.  [get_difficult_words] raises no [ZeroDivisionError]: the
    only exception it can end with is the [OverflowError] of a division
    whose quotient is no float, and it returns whenever every record has
    [correct_count <= total_attempts].  Every entry that it returns comes
    from a record with at least 2 attempts and a weight of at least 1.5,
    whose key splits into the entry's word, class and level; the entry
    carries the record's weight, attempts, wrong streak and accuracy in
    percent, and has the requested level in lower case when a non-empty
    level is given.  There are at most [limit] entries (for
    [0 <= limit]) and at most as many as records. *)
Theorem difficult_words_sound (items : list (string * WordStats))
    (level : option string) (limit : Z) :
  (∀ e, get_difficult_words items level limit = Raise e →
        e = OverflowError) ∧
  ((∀ item, item ∈ items → counts_bounded (snd item)) →
   ∃ r, get_difficult_words items level limit = Return r) ∧
  (∀ r,
     get_difficult_words items level limit = Return r →
     Forall
       (λ e,
          (2 ≤ difficult_attempts e)%N ∧
          fleb (lit 1.5) (difficult_weight e) = true ∧
          (∀ l, level = Some l → l ≠ "" → difficult_level e = lower l) ∧
          ∃ key stats,
            (key, stats) ∈ items ∧
            key_parts key
            = Some (difficult_word e, difficult_class e,
                    difficult_level e) ∧
            difficult_weight e = weight stats ∧
            difficult_attempts e = total_attempts stats ∧
            difficult_consecutive_wrong e = consecutive_wrong stats ∧
            difficult_accuracy e
            = Float (times_100 (quotient (correct_count stats)
                                  (total_attempts stats)))) r ∧
     (length r ≤ length items)%nat ∧
     ((0 ≤ limit)%Z → (length r ≤ Z.to_nat limit)%nat)).
Proof.
  unfold get_difficult_words. split; [|split].
  - intros e.
    destruct (collect (difficult_entry level) items) as [es | e'] eqn:Hes;
      [done|].
    cbn [mbind PyResult_bind]. intros [= <-].
    apply collect_raise in Hes as (item & _ & Hraise).
    by apply difficult_entry_raise in Hraise.
  - intros Hall.
    destruct (collect_returns (difficult_entry level) items) as [es ->];
      [|cbn; eauto].
    intros item Hin. apply difficult_entry_returns. by apply Hall.
  - intros r.
    destruct (collect (difficult_entry level) items) as [es | e'] eqn:Hes;
      [|done].
    cbn [mbind PyResult_bind]. intros [= <-].
    apply collect_return in Hes as (_ & Hmem & Hlen).
    pose proof (sort_desc_perm
                  (λ x y, fltb (difficult_weight x) (difficult_weight y)) es)
      as Hperm.
    split; [|split].
    + apply Forall_forall. intros e He%slice_to_member.
      rewrite Hperm in He. apply Hmem in He as ([key stats] & Hin & Hentry).
      apply difficult_entry_inv in Hentry as (Hk & Ho & H2 & Hw & He).
      rewrite He. cbn. split; [done|]. split; [done|].
      split; [by apply other_level_false|].
      exists key, stats. by rewrite He in Hk.
    + destruct (slice_to_length limit
                  (sort_desc
                     (λ x y, fltb (difficult_weight x) (difficult_weight y))
                     es)) as (H1 & _).
      pose proof (Permutation_length Hperm). lia.
    + intros Hl. by apply slice_to_length.
Qed.

(** X13.  When no weight is nan, the entries that [get_difficult_words]
    returns are in descending order of weight; and when [limit] is at
    least the number of records, the entries are exactly those of the
    records that qualify: every record with at least 2 attempts and a
    weight of at least 1.5 whose key splits into a word, a class and a
    level that passes the level filter (in particular the record stored
    under [word_key word word_class word_level] for a word, a class and
    a level without underscore) has its entry in the result, with the
    record's weight, accuracy in percent, attempts and wrong streak; and
    every entry of the result is the entry of such a record. *)
Theorem difficult_words_sorted (items : list (string * WordStats))
    (level : option string) (limit : Z) (r : list DifficultWord) :
  (∀ item, item ∈ items → weight (snd item) ≠ S754_nan) →
  get_difficult_words items level limit = Return r →
  Sorted (λ a b, fleb (difficult_weight b) (difficult_weight a) = true) r ∧
  ((Z.of_nat (length items) ≤ limit)%Z →
   (∀ key stats word word_class word_level,
      (key, stats) ∈ items →
      key_parts key = Some (word, word_class, word_level) →
      (∀ l, level = Some l → l ≠ "" → word_level = lower l) →
      (2 ≤ total_attempts stats)%N →
      fleb (lit 1.5) (weight stats) = true →
      {| difficult_word := word;
         difficult_class := word_class;
         difficult_level := word_level;
         difficult_weight := weight stats;
         difficult_accuracy :=
           Float (times_100 (quotient (correct_count stats)
                               (total_attempts stats)));
         difficult_attempts := total_attempts stats;
         difficult_consecutive_wrong := consecutive_wrong stats |} ∈ r) ∧
   (∀ stats word word_class word_level,
      (word_key word word_class word_level, stats) ∈ items →
      contains "_" word = false → contains "_" word_class = false →
      contains "_" word_level = false →
      (∀ l, level = Some l → l ≠ "" → word_level = lower l) →
      (2 ≤ total_attempts stats)%N →
      fleb (lit 1.5) (weight stats) = true →
      {| difficult_word := word;
         difficult_class := word_class;
         difficult_level := word_level;
         difficult_weight := weight stats;
         difficult_accuracy :=
           Float (times_100 (quotient (correct_count stats)
                               (total_attempts stats)));
         difficult_attempts := total_attempts stats;
         difficult_consecutive_wrong := consecutive_wrong stats |} ∈ r) ∧
   (∀ e, e ∈ r →
      ∃ key stats,
        (key, stats) ∈ items ∧
        key_parts key
        = Some (difficult_word e, difficult_class e, difficult_level e) ∧
        (∀ l, level = Some l → l ≠ "" → difficult_level e = lower l) ∧
        (2 ≤ total_attempts stats)%N ∧
        fleb (lit 1.5) (weight stats) = true ∧
        e = {| difficult_word := difficult_word e;
               difficult_class := difficult_class e;
               difficult_level := difficult_level e;
               difficult_weight := weight stats;
               difficult_accuracy :=
                 Float (times_100 (quotient (correct_count stats)
                                     (total_attempts stats)));
               difficult_attempts := total_attempts stats;
               difficult_consecutive_wrong := consecutive_wrong stats |})).
Proof.
  intros Hnan. unfold get_difficult_words.
  destruct (collect (difficult_entry level) items) as [es | e'] eqn:Hes;
    [|done].
  cbn [mbind PyResult_bind]. intros [= <-].
  apply collect_return in Hes as (Hret & Hmem & Hlen).
  pose proof (sort_desc_perm
                (λ x y, fltb (difficult_weight x) (difficult_weight y)) es)
    as Hperm.
  assert (Hw : ∀ e, e ∈ es → difficult_weight e ≠ S754_nan).
  { intros e ([key stats] & Hin & Hentry)%Hmem.
    apply difficult_entry_inv in Hentry as (_ & _ & _ & _ & He).
    rewrite He. cbn. exact (Hnan _ Hin). }
  split.
  - apply (sorted_weaken
             (λ a b, fltb (difficult_weight a) (difficult_weight b) = false)).
    + intros a b Ha%slice_to_member Hb%slice_to_member Hab.
      rewrite Hperm in Ha, Hb. apply fltb_false_fleb; auto.
    + apply slice_to_sorted.
      apply (sort_desc_sorted
               (λ x y, fltb (difficult_weight x) (difficult_weight y))).
      intros a b. apply fltb_asym.
  - intros Hl.
    destruct (slice_to_length limit
                (sort_desc
                   (λ x y, fltb (difficult_weight x) (difficult_weight y))
                   es)) as (_ & _ & Hall).
    rewrite Hall by (pose proof (Permutation_length Hperm); lia).
    assert (Hcomplete : ∀ key stats word word_class word_level,
              (key, stats) ∈ items →
              key_parts key = Some (word, word_class, word_level) →
              (∀ l, level = Some l → l ≠ "" → word_level = lower l) →
              (2 ≤ total_attempts stats)%N →
              fleb (lit 1.5) (weight stats) = true →
              {| difficult_word := word;
                 difficult_class := word_class;
                 difficult_level := word_level;
                 difficult_weight := weight stats;
                 difficult_accuracy :=
                   Float (times_100 (quotient (correct_count stats)
                                       (total_attempts stats)));
                 difficult_attempts := total_attempts stats;
                 difficult_consecutive_wrong := consecutive_wrong stats |}
              ∈ sort_desc
                  (λ x y, fltb (difficult_weight x) (difficult_weight y))
                  es).
    { intros key stats word word_class word_level Hin Hk Hlevel H2 H15.
      rewrite Hperm. apply Hmem. exists (key, stats). split; [done|].
      destruct (Hret _ Hin) as [entry Hentry]. rewrite Hentry. f_equal.
      by apply (difficult_entry_qualifying level key stats word word_class
                  word_level entry Hk (other_level_true _ _ Hlevel) H2 H15). }
    split; [exact Hcomplete|]. split.
    + intros stats word word_class word_level Hin Hw1 Hw2 Hw3.
      apply (Hcomplete _ _ _ _ _ Hin).
      unfold key_parts.
      rewrite (split_word_key _ _ _ Hw1 Hw2), (split_on_none _ _ Hw3). done.
    + intros e He. rewrite Hperm in He.
      apply Hmem in He as ([key stats] & Hin & Hentry).
      apply difficult_entry_inv in Hentry as (Hk & Ho & H2 & H15 & He).
      exists key, stats. split; [done|]. split; [done|].
      split; [by apply other_level_false|]. done.
Qed.

Lemma difficult_words_sorted_witness :
  Sorted (λ a b, fleb (difficult_weight b) (difficult_weight a) = true)
    [mkDifficultWord "keen" "adjective" "b2" (lit 5.0)
       (Float (S754_zero false)) 2 2;
     mkDifficultWord "cat" "noun" "a1" (lit 3.0)
       (Float (times_100 (quotient 2 5))) 5 2] ∧
  mkDifficultWord "cat" "noun" "a1" (lit 3.0)
    (Float (times_100 (quotient 2 5))) 5 2
  ∈ [mkDifficultWord "keen" "adjective" "b2" (lit 5.0)
       (Float (S754_zero false)) 2 2;
     mkDifficultWord "cat" "noun" "a1" (lit 3.0)
       (Float (times_100 (quotient 2 5))) 5 2].
Proof.
  destruct (difficult_words_sorted
              [("cat_noun_a1", mkWordStats (lit 3.0) 2 3 5 None 0 2);
               ("dog_noun_a1", mkWordStats (lit 0.36) 3 0 3 None 3 0);
               ("keen_adjective_b2", mkWordStats (lit 5.0) 0 2 2 None 0 2)]
              None 10
              [mkDifficultWord "keen" "adjective" "b2" (lit 5.0)
                 (Float (S754_zero false)) 2 2;
               mkDifficultWord "cat" "noun" "a1" (lit 3.0)
                 (Float (times_100 (quotient 2 5))) 5 2])
    as [Hsorted Hexact].
  - intros item Hin. repeat apply elem_of_cons in Hin as [-> | Hin];
      [vm_compute; discriminate .. | inversion Hin].
  - vm_compute. reflexivity.
  - split; [exact Hsorted|].
    destruct (Hexact ltac:(vm_compute; discriminate)) as (_ & Hkey & _).
    apply (Hkey (mkWordStats (lit 3.0) 2 3 5 None 0 2) "cat" "noun" "a1").
    + apply list_elem_of_here.
    + reflexivity.
    + reflexivity.
    + reflexivity.
    + intros l Hl. discriminate.
    + vm_compute. discriminate.
    + vm_compute. reflexivity.
Defined.

(** X14.  [get_mastered_words] raises no [ZeroDivisionError]: the only
    exception it can end with is the [OverflowError] of a division whose
    quotient is no float, and it returns whenever every record has
    [correct_count <= total_attempts].  Every entry that it returns
    comes from a record with at least 3 attempts whose accuracy is at
    least 0.8, and carries the record's weight, attempts, streak and
    accuracy in percent; it has the requested level in lower case when a
    non-empty level is given.  The entries are in descending order of
    accuracy and, where the accuracy is equal, of
    [consecutive_correct]; there are at most [limit] of them (for
    [0 <= limit]) and at most as many as records. *)
Theorem mastered_words_sound (items : list (string * WordStats))
    (level : option string) (limit : Z) :
  (∀ e, get_mastered_words items level limit = Raise e →
        e = OverflowError) ∧
  ((∀ item, item ∈ items → counts_bounded (snd item)) →
   ∃ r, get_mastered_words items level limit = Return r) ∧
  (∀ r,
     get_mastered_words items level limit = Return r →
     Forall
       (λ e,
          (3 ≤ mastered_attempts e)%N ∧
          (∀ l, level = Some l → l ≠ "" → mastered_level e = lower l) ∧
          ∃ key stats,
            (key, stats) ∈ items ∧
            key_parts key
            = Some (mastered_word e, mastered_class e, mastered_level e) ∧
            mastered_weight e = weight stats ∧
            mastered_attempts e = total_attempts stats ∧
            mastered_consecutive_correct e = consecutive_correct stats ∧
            fleb (lit 0.8)
              (quotient (correct_count stats) (total_attempts stats))
            = true ∧
            mastered_accuracy e
            = times_100 (quotient (correct_count stats)
                           (total_attempts stats))) r ∧
     Sorted
       (λ a b,
          fleb (mastered_accuracy b) (mastered_accuracy a) = true ∧
          (SFeqb (mastered_accuracy a) (mastered_accuracy b) = true →
           (mastered_consecutive_correct b
            ≤ mastered_consecutive_correct a)%N)) r ∧
     (length r ≤ length items)%nat ∧
     ((0 ≤ limit)%Z → (length r ≤ Z.to_nat limit)%nat)).
Proof.
  unfold get_mastered_words. split; [|split].
  - intros e.
    destruct (collect (mastered_entry level) items) as [es | e'] eqn:Hes;
      [done|].
    cbn [mbind PyResult_bind]. intros [= <-].
    apply collect_raise in Hes as (item & _ & Hraise).
    by apply mastered_entry_raise in Hraise.
  - intros Hall.
    destruct (collect_returns (mastered_entry level) items) as [es ->];
      [|cbn; eauto].
    intros item Hin. apply mastered_entry_returns. by apply Hall.
  - intros r.
    destruct (collect (mastered_entry level) items) as [es | e'] eqn:Hes;
      [|done].
    cbn [mbind PyResult_bind]. intros [= <-].
    apply collect_return in Hes as (_ & Hmem & Hlen).
    pose proof (sort_desc_perm mastered_lt es) as Hperm.
    assert (Hacc : ∀ e, e ∈ es → mastered_accuracy e ≠ S754_nan).
    { intros e ([key stats] & Hin & Hentry)%Hmem.
      apply mastered_entry_inv in Hentry as (_ & _ & H3 & _ & _ & He).
      rewrite He. cbn. apply times_100_not_nan, quotient_not_nan. lia. }
    split; [|split; [|split]].
    + apply Forall_forall. intros e He%slice_to_member.
      rewrite Hperm in He. apply Hmem in He as ([key stats] & Hin & Hentry).
      apply mastered_entry_inv in Hentry as (Hk & Ho & H3 & _ & Ha & He).
      rewrite He. cbn. split; [done|].
      split; [by apply other_level_false|].
      exists key, stats. by rewrite He in Hk.
    + apply (sorted_weaken (λ a b, mastered_lt a b = false)).
      * intros a b Ha%slice_to_member Hb%slice_to_member Hab.
        rewrite Hperm in Ha, Hb. unfold mastered_lt in Hab.
        destruct (SFeqb (mastered_accuracy a) (mastered_accuracy b)) eqn:E.
        -- split; [by apply SFeqb_fleb|]. intros _.
           apply N.ltb_ge in Hab. exact Hab.
        -- split; [|done]. apply fltb_false_fleb; auto.
      * apply slice_to_sorted, sort_desc_sorted.
        intros a b. unfold mastered_lt.
        assert (Hsym : SFeqb (mastered_accuracy b) (mastered_accuracy a)
                       = SFeqb (mastered_accuracy a) (mastered_accuracy b)).
        { unfold SFeqb.
          rewrite (SFcompare_antisym (mastered_accuracy a)
                     (mastered_accuracy b)).
          by destruct (SFcompare _ _) as [[]|]. }
        rewrite Hsym.
        destruct (SFeqb (mastered_accuracy a) (mastered_accuracy b)).
        -- intros H%N.ltb_lt. apply N.ltb_ge. lia.
        -- apply fltb_asym.
    + destruct (slice_to_length limit (sort_desc mastered_lt es))
        as (H1 & _).
      pose proof (Permutation_length Hperm). lia.
    + intros Hl. by apply slice_to_length.
Qed.

(** X15.  A record whose weight is the adaptive weight of its counters
    and that gives an entry of [get_mastered_words] weighs less than 1.5:
    it gives no entry of [get_difficult_words], whatever level is asked
    for. *)
Theorem mastered_never_difficult (level : option string) (key : string)
    (stats : WordStats) (m : MasteredWord) :
  weight_consistent stats →
  mastered_entry level (key, stats) = Return (Some m) →
  fleb (lit 1.5) (weight stats) = false ∧
  ∀ level', difficult_entry level' (key, stats) = Return None.
Proof.
  intros Hc Hm. apply mastered_entry_inv in Hm as (_ & _ & H3 & _ & Ha & _).
  assert (Hlow : fleb (lit 1.5) (weight stats) = false).
  { apply mastered_weight_low; [done| |done]. by apply N.leb_le. }
  split; [exact Hlow|]. intros level'. unfold difficult_entry.
  destruct (key_parts key) as [[[w c] l]|]; [|done].
  destruct (other_level level' l); [done|].
  by rewrite Hlow, andb_false_r.
Qed.

Lemma mastered_never_difficult_witness :
  difficult_entry (Some "a1")
    ("dog_noun_a1",
     mkWordStats (fmul (fmul (lit 0.3) (lit 0.5)) (lit 1.2)) 3 0 3 None 3 0)
  = Return None.
Proof.
  apply (mastered_never_difficult None "dog_noun_a1"
           (mkWordStats (fmul (fmul (lit 0.3) (lit 0.5)) (lit 1.2))
              3 0 3 None 3 0)
           (mkMasteredWord "dog" "noun" "a1"
              (fmul (fmul (lit 0.3) (lit 0.5)) (lit 1.2))
              (times_100 (quotient 3 3)) 3 3)).
  - vm_compute. reflexivity.
  - vm_compute. reflexivity.
Defined.

End StatsProps.

(** ** The translator *)

Module TranslatorFacts.
Import PyStr PyStrOps Utils UtilsParse Translator TranslatorSpec.
Import PyStrFacts UtilsFacts ParseFacts.

Lemma dict_literal_forall {V : Type} (P : V → Prop)
    (pairs : list (string * V)) :
  Forall (λ pair, P (snd pair)) pairs →
  map_Forall (λ _, P) (dict_literal pairs).
Proof.
  unfold dict_literal.
  assert (H : ∀ d : gmap string V,
            map_Forall (λ _, P) d →
            Forall (λ pair, P (snd pair)) pairs →
            map_Forall (λ _, P)
              (foldl (λ d pair, <[fst pair := snd pair]> d) d pairs)).
  { induction pairs as [|pair pairs IH]; intros d Hd Hp; [done|].
    cbn [foldl]. apply Forall_cons in Hp as [Hp Hps].
    apply IH; [|done]. by apply map_Forall_insert_2. }
  apply H. apply map_Forall_empty.
Qed.

Lemma usableb_usable (meanings : list string) :
  usableb meanings = true → usable meanings.
Proof.
  unfold usableb, usable. destruct meanings as [|m ms]; [done|].
  intros H. split; [done|]. apply Forall_forall. intros x Hx.
  rewrite forallb_forall in H. apply negb_true_iff, H.
  by apply list_elem_of_In.
Qed.

Lemma fallback_dict_usable : map_Forall (λ _, usable) fallback_dict.
Proof.
  apply dict_literal_forall. apply Forall_forall. intros pair Hin.
  apply usableb_usable.
  assert (H : forallb (λ pair, usableb (snd pair)) fallback_pairs = true)
    by (vm_compute; reflexivity).
  rewrite forallb_forall in H. apply H. by apply list_elem_of_In.
Qed.

Lemma fallback_usable (word word_class : string) :
  usable (_get_fallback_translation word word_class).
Proof.
  unfold _get_fallback_translation.
  destruct (fallback_dict !! lower word) as [meanings|] eqn:E.
  - exact (fallback_dict_usable _ _ E).
  - split; [done|]. by repeat constructor.
Qed.

Lemma parse_usable (response : string) :
  parse_llm_response response ≠ [] → usable (parse_llm_response response).
Proof.
  intros Hne. split; [done|]. apply Forall_forall. intros m Hm.
  by destruct (parse_llm_response_good _ _ Hm) as (_ & _ & H & _).
Qed.

Lemma attempts_some (api : nat → api_result) (attempt remaining : nat)
    (meanings : list string) :
  attempts api attempt remaining = Some meanings →
  ∃ i content,
    (attempt ≤ i < attempt + remaining)%nat ∧
    api i = ApiContent content ∧
    meanings = parse_llm_response (strip content) ∧ meanings ≠ [] ∧
    ∀ j, (attempt ≤ j < i)%nat →
         api j = ApiError ∨
         ∃ content', api j = ApiContent content' ∧
                     parse_llm_response (strip content') = [].
Proof.
  revert attempt. induction remaining as [|remaining IH]; intros attempt;
    cbn [attempts]; [done|].
  destruct (api attempt) as [|content] eqn:E.
  - intros (i & c & Hi & Hc & Hm & Hne & Hbefore)%IH.
    exists i, c. split; [lia|]. repeat split; try done.
    intros j Hj. destruct (decide (j = attempt)) as [-> | Hneq]; [by left|].
    apply Hbefore. lia.
  - destruct (parse_llm_response (strip content)) as [|m ms] eqn:Ep.
    + intros (i & c & Hi & Hc & Hm & Hne & Hbefore)%IH.
      exists i, c. split; [lia|]. repeat split; try done.
      intros j Hj. destruct (decide (j = attempt)) as [-> | Hneq];
        [right; eauto|]. apply Hbefore. lia.
    + intros [= <-]. exists attempt, content. split; [lia|].
      rewrite Ep. repeat split; try done. intros j Hj. lia.
Qed.

Lemma attempts_none (api : nat → api_result) (attempt remaining : nat) :
  (∀ i, (attempt ≤ i < attempt + remaining)%nat →
        api i = ApiError ∨
        ∃ content, api i = ApiContent content ∧
                   parse_llm_response (strip content) = []) →
  attempts api attempt remaining = None.
Proof.
  revert attempt. induction remaining as [|remaining IH]; intros attempt H;
    cbn [attempts]; [done|].
  destruct (H attempt) as [-> | (content & -> & ->)]; [lia| |];
    apply IH; intros i Hi; apply H; lia.
Qed.

Lemma attempts_first (api : nat → api_result) (attempt remaining i : nat)
    (content : string) :
  (attempt ≤ i < attempt + remaining)%nat →
  api i = ApiContent content →
  parse_llm_response (strip content) ≠ [] →
  (∀ j, (attempt ≤ j < i)%nat →
        api j = ApiError ∨
        ∃ content', api j = ApiContent content' ∧
                    parse_llm_response (strip content') = []) →
  attempts api attempt remaining = Some (parse_llm_response (strip content)).
Proof.
  revert attempt. induction remaining as [|remaining IH];
    intros attempt Hi Hc Hne Hbefore; [lia|].
  cbn [attempts]. destruct (decide (attempt = i)) as [-> | Hneq].
  - rewrite Hc. by destruct (parse_llm_response (strip content)).
  - destruct (Hbefore attempt) as [-> | (c' & -> & ->)]; [lia| |];
      apply IH; try done; try lia; intros j Hj; apply Hbefore; lia.
Qed.

Lemma cache_key_lower (word word_class word' word_class' : string) :
  lower word' = lower word → lower word_class' = lower word_class →
  cache_key word' word_class' = cache_key word word_class.
Proof. unfold cache_key. by intros -> ->. Qed.

Lemma translate_word_keeps_usable
    (translation_cache : gmap string (list string)) (max_retries : Z)
    (api : nat → api_result) (word word_class : string) :
  usable_cache translation_cache →
  usable (fst (translate_word translation_cache max_retries api word
                 word_class)) ∧
  usable_cache (snd (translate_word translation_cache max_retries api word
                       word_class)).
Proof.
  intros Hcache. unfold translate_word.
  destruct (translation_cache !! cache_key word word_class) as [ms|] eqn:E.
  - split; [exact (Hcache _ _ E)|exact Hcache].
  - destruct (attempts api 0 (Z.to_nat max_retries)) as [ms|] eqn:Ea.
    + apply attempts_some in Ea as (i & c & _ & _ & -> & Hne & _).
      cbn [fst snd]. split; [by apply parse_usable|].
      apply map_Forall_insert_2; [by apply parse_usable|exact Hcache].
    + cbn [fst snd]. split; [apply fallback_usable|exact Hcache].
Qed.

Lemma placeholder_clean (word : string) :
  lower (strip ("[Terjemahan untuk '" +:+ word +:+ "']"))
  = "[terjemahan" +:+ String " " ("untuk" +:+ String " "
      ("'" +:+ lower word +:+ "']")).
Proof.
  assert (Hs : strip ("[Terjemahan untuk '" +:+ word +:+ "']")
               = "[Terjemahan untuk '" +:+ word +:+ "']").
  { unfold strip.
    assert (Hl : lstrip ("[Terjemahan untuk '" +:+ word +:+ "']")
                 = "[Terjemahan untuk '" +:+ word +:+ "']") by reflexivity.
    rewrite Hl. rewrite <- app_assoc. apply rstrip_app_fixed; [done|].
    reflexivity. }
  rewrite Hs, !lower_app. reflexivity.
Qed.

Lemma placeholder_tokens (word : string) :
  "untuk" ∈ split (lower (strip ("[Terjemahan untuk '" +:+ word +:+ "']"))).
Proof.
  rewrite placeholder_clean. unfold split at 1.
  rewrite split_from_app_space by reflexivity.
  unfold split at 1. rewrite split_from_app_space by reflexivity.
  change (split_from "" "untuk") with ["untuk"].
  apply elem_of_app. right. apply elem_of_app. left. left.
Qed.

End TranslatorFacts.

Module TranslatorProps.
Import PyStr PyStrOps Utils UtilsParse Translator TranslatorSpec.
Import PyStrFacts UtilsFacts ParseFacts TranslatorFacts.

(** X20.  If every list of the translation cache is non-empty and holds no
    blank meaning, then [translate_word] returns such a list, be it from
    the cache, the API or the fallback, and leaves such a cache; and
    [validate_user_input] rejects every blank answer against the list
    returned. *)
Theorem translate_word_usable (translation_cache : gmap string (list string))
    (max_retries : Z) (api : nat → api_result) (word word_class : string) :
  usable_cache translation_cache →
  usable (fst (translate_word translation_cache max_retries api word
                 word_class)) ∧
  usable_cache (snd (translate_word translation_cache max_retries api word
                       word_class)) ∧
  ∀ user_input,
    all_space user_input = true →
    validate_user_input user_input
      (fst (translate_word translation_cache max_retries api word
              word_class)) = false.
Proof.
  intros Hcache.
  destruct (translate_word_keeps_usable translation_cache max_retries api
              word word_class Hcache) as [Hu Hc].
  split; [exact Hu|]. split; [exact Hc|].
  intros user_input Hblank.
  destruct (validate_user_input user_input _) eqn:E; [|done]. exfalso.
  apply validate_user_input_iff in E as (_ & meaning & Hin & Hm).
  apply strip_empty_iff in Hblank. rewrite Hblank in Hm. cbn [lower] in Hm.
  destruct Hu as [_ Hu]. rewrite Forall_forall in Hu.
  specialize (Hu _ Hin). unfold meaning_matches in Hm.
  destruct (lower (strip meaning)) eqn:El; [|done].
  apply lower_eq_empty, strip_empty_iff in El. congruence.
Qed.

Lemma translate_word_usable_witness :
  usable (fst (translate_word ∅ 3
                 (λ attempt,
                    match attempt with
                    | O => ApiError
                    | _ => ApiContent "rumah, tempat tinggal"
                    end) "house" "noun")).
Proof.
  apply (translate_word_usable ∅ 3
           (λ attempt,
              match attempt with
              | O => ApiError
              | _ => ApiContent "rumah, tempat tinggal"
              end) "house" "noun").
  apply map_Forall_empty.
Defined.

(** X21.  On a cache miss, when attempt [i] (below [max_retries]) is the
    first whose response parses to some meanings, [translate_word]
    returns these meanings and stores them under the key of the word and
    class; any later call for the same word and class, in any letter
    case, returns them from the cache, whatever the API would answer, and
    leaves the cache as it is. *)
Theorem translate_word_cached (translation_cache : gmap string (list string))
    (max_retries : Z) (api : nat → api_result) (word word_class : string)
    (i : nat) (content : string) :
  translation_cache !! cache_key word word_class = None →
  (i < Z.to_nat max_retries)%nat →
  api i = ApiContent content →
  parse_llm_response (strip content) ≠ [] →
  (∀ j, (j < i)%nat →
        api j = ApiError ∨
        ∃ content', api j = ApiContent content' ∧
                    parse_llm_response (strip content') = []) →
  let meanings := parse_llm_response (strip content) in
  let cached := <[cache_key word word_class := meanings]> translation_cache in
  translate_word translation_cache max_retries api word word_class
  = (meanings, cached) ∧
  ∀ max_retries' api' word' word_class',
    lower word' = lower word → lower word_class' = lower word_class →
    translate_word cached max_retries' api' word' word_class'
    = (meanings, cached).
Proof.
  intros Hmiss Hi Hc Hne Hbefore. cbn zeta. split.
  - unfold translate_word. rewrite Hmiss.
    rewrite (attempts_first api 0 (Z.to_nat max_retries) i content);
      [done|lia|done|done|]. intros j Hj. apply Hbefore. lia.
  - intros max_retries' api' word' word_class' Hw Hcl. unfold translate_word.
    rewrite (cache_key_lower _ _ _ _ Hw Hcl). by rewrite lookup_insert_eq.
Qed.

Lemma translate_word_cached_witness :
  translate_word ∅ 3
    (λ attempt,
       match attempt with
       | O => ApiError
       | _ => ApiContent "rumah, tempat tinggal"
       end) "house" "noun"
  = (["rumah"; "tempat tinggal"],
     {[ "house_noun" := ["rumah"; "tempat tinggal"] ]}).
Proof.
  apply (translate_word_cached ∅ 3
           (λ attempt,
              match attempt with
              | O => ApiError
              | _ => ApiContent "rumah, tempat tinggal"
              end) "house" "noun" 1 "rumah, tempat tinggal").
  - reflexivity.
  - vm_compute. lia.
  - reflexivity.
  - vm_compute. discriminate.
  - intros j Hj. left. destruct j; [reflexivity|lia].
Defined.

(** X22.  On a cache miss, when every attempt raises or gets a response
    that parses to no meaning, [translate_word] returns the fallback
    translation and stores nothing.  The fallback translation is never
    empty, and for a word outside the fallback dictionary it is the
    single placeholder. *)
Theorem translate_word_fallback (translation_cache : gmap string (list string))
    (max_retries : Z) (api : nat → api_result) (word word_class : string) :
  translation_cache !! cache_key word word_class = None →
  (∀ i, (i < Z.to_nat max_retries)%nat →
        api i = ApiError ∨
        ∃ content, api i = ApiContent content ∧
                   parse_llm_response (strip content) = []) →
  translate_word translation_cache max_retries api word word_class
  = (_get_fallback_translation word word_class, translation_cache) ∧
  _get_fallback_translation word word_class ≠ [] ∧
  (fallback_dict !! lower word = None →
   _get_fallback_translation word word_class
   = ["[Terjemahan untuk '" +:+ word +:+ "']"]).
Proof.
  intros Hmiss Hfail. split; [|split].
  - unfold translate_word. rewrite Hmiss.
    rewrite attempts_none; [done|]. intros i Hi.
    destruct (Hfail i) as [H | (content & Hc & Hs)]; [lia|by left|].
    right. eauto.
  - by destruct (fallback_usable word word_class).
  - intros Hnone. unfold _get_fallback_translation. by rewrite Hnone.
Qed.

Lemma translate_word_fallback_witness :
  translate_word ∅ 3
    (λ attempt,
       match attempt with
       | O => ApiError
       | _ => ApiContent " , ; "
       end) "zeal" "noun"
  = (_get_fallback_translation "zeal" "noun", ∅).
Proof.
  apply (translate_word_fallback ∅ 3
           (λ attempt,
              match attempt with
              | O => ApiError
              | _ => ApiContent " , ; "
              end) "zeal" "noun").
  - reflexivity.
  - intros i Hi. destruct i; [by left|]. right.
    exists " , ; ". split; reflexivity.
Defined.

(** X23.  For a word outside the fallback dictionary the fallback
    translation is the placeholder ["[Terjemahan untuk '<word>']"], and
    [validate_user_input] accepts the answer ["untuk"] against it: the
    answer is a complete word of the placeholder and has at least 3
    characters. *)
Theorem placeholder_accepts_untuk (word word_class : string) :
  fallback_dict !! lower word = None →
  _get_fallback_translation word word_class
  = ["[Terjemahan untuk '" +:+ word +:+ "']"] ∧
  validate_user_input "untuk" (_get_fallback_translation word word_class)
  = true ∧
  validate_user_input word (_get_fallback_translation word word_class)
  = validate_user_input word ["[Terjemahan untuk '" +:+ word +:+ "']"].
Proof.
  intros Hnone.
  assert (Hf : _get_fallback_translation word word_class
               = ["[Terjemahan untuk '" +:+ word +:+ "']"]).
  { unfold _get_fallback_translation. by rewrite Hnone. }
  split; [exact Hf|]. rewrite Hf. split; [|done].
  apply validate_user_input_iff. split; [done|].
  exists ("[Terjemahan untuk '" +:+ word +:+ "']"). split; [left|].
  apply (meaning_matches_single _ _ "untuk"); [reflexivity|].
  right. split; [cbn; lia|]. apply placeholder_tokens.
Qed.

Lemma placeholder_accepts_untuk_witness :
  validate_user_input "untuk" (_get_fallback_translation "zeal" "noun")
  = true.
Proof.
  apply (placeholder_accepts_untuk "zeal" "noun").
  vm_compute. reflexivity.
Defined.

End TranslatorProps.

(** ** History, session statistics and high scores *)

Module GameFacts.
Import PyStr PyList Game GameSpec.

Lemma truncate_take {A : Type} (n : nat) (l : list A) :
  (if (n <? length l)%nat then take n l else l) = take n l.
Proof.
  destruct (Nat.ltb_spec n (length l)) as [H | H]; [done|].
  symmetry. apply take_ge. lia.
Qed.

Lemma total_of_empty (f : LevelStat → N) : total_of f ∅ = 0%N.
Proof. unfold total_of. apply map_fold_empty. Qed.

Lemma total_of_insert (f : LevelStat → N) (level_stats : gmap string LevelStat)
    (level : string) (level_stat : LevelStat) :
  level_stats !! level = None →
  total_of f (<[level := level_stat]> level_stats)
  = (f level_stat + total_of f level_stats)%N.
Proof.
  intros Hnone. unfold total_of.
  rewrite map_fold_insert_L; [done| |done]. intros. lia.
Qed.

Lemma total_of_lookup (f : LevelStat → N) (level_stats : gmap string LevelStat)
    (level : string) (level_stat : LevelStat) :
  level_stats !! level = Some level_stat →
  total_of f level_stats
  = (f level_stat + total_of f (delete level level_stats))%N.
Proof.
  intros Hsome. unfold total_of.
  rewrite (map_fold_delete_L _ _ level level_stat); [done| |done].
  intros. lia.
Qed.

Lemma total_of_update (f : LevelStat → N) (level_stats : gmap string LevelStat)
    (level : string) (old new : LevelStat) :
  level_stats !! level = Some old →
  (total_of f (<[level := new]> level_stats) + f old
   = total_of f level_stats + f new)%N.
Proof.
  intros Hsome. rewrite (total_of_lookup f level_stats level old Hsome).
  rewrite <- (insert_delete_eq level_stats).
  rewrite total_of_insert by apply lookup_delete_eq. lia.
Qed.

Lemma last_drop {A : Type} (n : nat) (l : list A) :
  (n < length l)%nat → last (drop n l) = last l.
Proof.
  revert n. induction l as [|x l IH]; intros n Hn; [cbn in Hn; lia|].
  destruct n as [|n]; [done|]. cbn [drop]. cbn [length] in Hn.
  rewrite IH by lia. destruct l; [cbn in Hn; lia|done].
Qed.

Lemma slice_last_length {A : Type} (l : list A) (n : nat) :
  length (slice_last l n) = Nat.min n (length l).
Proof. unfold slice_last. rewrite length_drop. lia. Qed.

Lemma record_score_lookup (scores : gmap string Z) (key : string)
    (current_score : Z) :
  default 0%Z (record_score scores key current_score !! key)
  = Z.max (default 0%Z (scores !! key)) current_score ∧
  ∀ other, other ≠ key →
           record_score scores key current_score !! other = scores !! other.
Proof.
  unfold record_score.
  destruct (Z.ltb_spec (default 0%Z (scores !! key)) current_score) as [H | H].
  - rewrite lookup_insert_eq. cbn. split; [lia|].
    intros other Hne. by rewrite lookup_insert_ne.
  - split; [lia|done].
Qed.

Lemma update_session_stats_spec (session_stats : SessionStats)
    (word_level : string) (is_correct : bool) :
  words_attempted (_update_session_stats session_stats word_level is_correct)
  = (words_attempted session_stats + 1)%N ∧
  words_correct (_update_session_stats session_stats word_level is_correct)
  = (words_correct session_stats + if is_correct then 1 else 0)%N ∧
  current_streak (_update_session_stats session_stats word_level is_correct)
  = current_streak session_stats ∧
  best_streak (_update_session_stats session_stats word_level is_correct)
  = best_streak session_stats.
Proof.
  unfold _update_session_stats.
  destruct (level_stats session_stats !! word_level) as [old|] eqn:E.
  - rewrite E. destruct is_correct; cbn; repeat split; lia.
  - rewrite lookup_insert_eq. destruct is_correct; cbn; repeat split; lia.
Qed.

Lemma update_session_stats_keeps (session_stats : SessionStats)
    (word_level : string) (is_correct : bool) :
  session_consistent session_stats →
  session_consistent
    (_update_session_stats session_stats word_level is_correct).
Proof.
  intros (Ha & Hc & Hle). unfold _update_session_stats.
  destruct (level_stats session_stats !! word_level) as [old|] eqn:E.
  - rewrite E.
    pose proof (total_of_update attempted (level_stats session_stats)
                  word_level old) as Hua.
    pose proof (total_of_update correct (level_stats session_stats)
                  word_level old) as Huc.
    pose proof (Hle _ _ E) as Hold. cbn in Hold.
    destruct is_correct; unfold session_consistent;
      cbn [set_counts words_attempted words_correct level_stats].
    + specialize (Hua {| attempted := attempted old + 1;
                         correct := correct old + 1 |} E).
      specialize (Huc {| attempted := attempted old + 1;
                         correct := correct old + 1 |} E).
      cbn in Hua, Huc. split; [lia|]. split; [lia|].
      apply map_Forall_insert_2; [cbn; lia|done].
    + specialize (Hua {| attempted := attempted old + 1;
                         correct := correct old |} E).
      specialize (Huc {| attempted := attempted old + 1;
                         correct := correct old |} E).
      cbn in Hua, Huc. split; [lia|]. split; [lia|].
      apply map_Forall_insert_2; [cbn; lia|done].
  - rewrite lookup_insert_eq.
    destruct is_correct; unfold session_consistent;
      cbn [set_counts words_attempted words_correct level_stats
           attempted correct];
      rewrite insert_insert_eq, !total_of_insert by done; cbn;
      (split; [lia|]); (split; [lia|]);
      (apply map_Forall_insert_2; [cbn; lia|done]).
Qed.

Lemma session_consistent_le (session_stats : SessionStats) :
  session_consistent session_stats →
  (words_correct session_stats ≤ words_attempted session_stats)%N.
Proof.
  intros (Ha & Hc & Hle). rewrite Ha, Hc. clear Ha Hc.
  induction (level_stats session_stats)
    as [|level ls m Hnone Hfold IH] using map_first_key_ind.
  - rewrite !total_of_empty. lia.
  - rewrite !total_of_insert by done.
    apply map_Forall_insert in Hle as [H Hm]; [|done]. cbn in H.
    specialize (IH Hm). lia.
Qed.

End GameFacts.

Module GameProps.
Import PyStr PyList Game GameSpec GameFacts.

(** X24.  [_add_word_to_history] puts the new entry first and keeps the
    50 newest recent words, so that this list never has more than 50
    entries.  The wrong words are unchanged by a correct answer;
    otherwise they get the entry first and are cut to the 100 newest, and
    a list of at most 100 wrong words stays one. *)
Theorem add_word_to_history_bounded (word_history : WordHistory)
    (word word_class level : string) (is_correct : bool)
    (meanings : list string) (now : string) :
  recent_words
    (_add_word_to_history word_history word word_class level is_correct
       meanings now)
  = take 50 (mkWordEntry word word_class level meanings now
             :: recent_words word_history) ∧
  (length (recent_words
             (_add_word_to_history word_history word word_class level
                is_correct meanings now)) ≤ 50)%nat ∧
  wrong_words
    (_add_word_to_history word_history word word_class level is_correct
       meanings now)
  = (if is_correct then wrong_words word_history
     else take 100 (mkWordEntry word word_class level meanings now
                    :: wrong_words word_history)) ∧
  ((length (wrong_words word_history) ≤ 100)%nat →
   (length (wrong_words
              (_add_word_to_history word_history word word_class level
                 is_correct meanings now)) ≤ 100)%nat).
Proof.
  unfold _add_word_to_history. cbn [recent_words wrong_words].
  rewrite !truncate_take. split; [done|]. split.
  - rewrite length_take. lia.
  - destruct is_correct; cbn [negb].
    + split; [done|]. done.
    + split; [done|]. intros _. rewrite length_take. lia.
Qed.

(** X25.  [_update_session_stats] keeps a session consistent: the overall
    counters remain the sums of the counters by level, and no level has
    more correct answers than attempts.  The number of attempts grows by
    one, the number of correct answers by one exactly for a correct
    answer, and it does not exceed the number of attempts. *)
Theorem update_session_stats_consistent (session_stats : SessionStats)
    (word_level : string) (is_correct : bool) :
  session_consistent session_stats →
  session_consistent
    (_update_session_stats session_stats word_level is_correct) ∧
  words_attempted (_update_session_stats session_stats word_level is_correct)
  = (words_attempted session_stats + 1)%N ∧
  words_correct (_update_session_stats session_stats word_level is_correct)
  = (words_correct session_stats + if is_correct then 1 else 0)%N ∧
  (words_correct (_update_session_stats session_stats word_level is_correct)
   ≤ words_attempted
       (_update_session_stats session_stats word_level is_correct))%N.
Proof.
  intros Hcons.
  pose proof (update_session_stats_keeps session_stats word_level is_correct
                Hcons) as Hkept.
  destruct (update_session_stats_spec session_stats word_level is_correct)
    as (H1 & H2 & _).
  split; [exact Hkept|]. split; [exact H1|]. split; [exact H2|].
  by apply session_consistent_le.
Qed.

Lemma update_session_stats_consistent_witness :
  words_attempted
    (_update_session_stats (new_session "t0" "custom" (Some "a1")) "a1" true)
  = (words_attempted (new_session "t0" "custom" (Some "a1")) + 1)%N.
Proof.
  apply (update_session_stats_consistent
           (new_session "t0" "custom" (Some "a1")) "a1" true).
  split; [|split].
  - cbn. by rewrite total_of_empty.
  - cbn. by rewrite total_of_empty.
  - apply map_Forall_empty.
Defined.

(** X26.  After [_end_game] the overall high score is the larger of the
    old one and the current score (a missing key counting as 0), and so is
    the high score of the mode, the other modes keeping theirs; in custom
    mode with a non-empty level the same holds of the level's high
    score, and otherwise the scores by level are untouched.  At most 20
    sessions are kept, the last of them being the session that ended,
    which carries the final score and the end time. *)
Theorem end_game_scores (top_scores : TopScores) (current_score : Z)
    (session_stats : SessionStats) (mode : string) (level : option string)
    (now : string) :
  let ended :=
    _end_game top_scores current_score session_stats mode level now in
  default 0%Z (overall (fst ended))
  = Z.max (default 0%Z (overall top_scores)) current_score ∧
  (∃ mode_scores,
     by_mode (fst ended) = Some mode_scores ∧
     default 0%Z (mode_scores !! mode)
     = Z.max (default 0%Z (default ∅ (by_mode top_scores) !! mode))
         current_score ∧
     ∀ other, other ≠ mode →
              mode_scores !! other = default ∅ (by_mode top_scores) !! other) ∧
  (∀ l, level = Some l → l ≠ "" → mode = "custom" →
     ∃ level_scores,
       by_level (fst ended) = Some level_scores ∧
       default 0%Z (level_scores !! l)
       = Z.max (default 0%Z (default ∅ (by_level top_scores) !! l))
           current_score ∧
       ∀ other, other ≠ l →
                level_scores !! other
                = default ∅ (by_level top_scores) !! other) ∧
  ((mode ≠ "custom" ∨ level = None ∨ level = Some "") →
   by_level (fst ended) = by_level top_scores) ∧
  (∃ kept,
     sessions (fst ended) = Some kept ∧
     (length kept ≤ 20)%nat ∧
     last kept = Some (snd ended) ∧
     kept `suffix_of` default [] (sessions top_scores) ++ [snd ended]) ∧
  final_score (snd ended) = Some current_score ∧
  end_time (snd ended) = Some now.
Proof.
  cbn zeta. unfold _end_game. cbn [fst snd overall by_mode by_level sessions
    final_score end_time]. split; [|split; [|split; [|split; [|split]]]].
  - destruct (Z.ltb_spec (default 0%Z (overall top_scores)) current_score);
      cbn; lia.
  - eexists. split; [reflexivity|]. apply record_score_lookup.
  - intros l -> Hl ->. destruct l as [|c l]; [done|].
    change (String.eqb "custom" "custom" && truthy (String c l)) with true.
    cbv iota.
    eexists. split; [reflexivity|]. apply record_score_lookup.
  - intros [Hm | [-> | ->]]; [|done|].
    + destruct level as [l|]; [|done].
      destruct (String.eqb_spec mode "custom"); [done|done].
    + cbn [truthy]. by rewrite andb_false_r.
  - eexists. split; [reflexivity|].
    set (ss := mkSessionStats _ _ _ _ _ _ _ _ _ _ _).
    set (all := default [] (sessions top_scores) ++ [ss]).
    destruct (Nat.ltb_spec 20 (length all)) as [H | H].
    + split; [rewrite slice_last_length; lia|]. split.
      * unfold slice_last. rewrite last_drop.
        -- unfold all. by rewrite last_snoc.
        -- lia.
      * unfold slice_last. apply suffix_drop.
    + split; [lia|]. split; [unfold all; by rewrite last_snoc|done].
  - done.
Qed.

End GameProps.

(** ** The game loop *)

Module GamePlayFacts.
Import PyStr PyExc PyFloat PyRandom WordPicker WeightSpec Utils Translator.
Import Game.
Import GamePlay TranslatorSpec GameSpec GamePlaySpec.
Import PyStrFacts UtilsFacts StoreFacts RandomFacts TranslatorFacts GameFacts.

Lemma select_word_returns (g : GameState) (mode : string)
    (level : option string) (t : Turn) :
  ∃ r, select_word g mode level t = Return r.
Proof.
  unfold select_word. destruct (String.eqb mode "adventure").
  - destruct (random_choice_returns ["a1"; "a2"; "b1"; "b2"] (level_index t))
      as (l & -> & _); [done|].
    destruct (get_weighted_word_cases (data_df g) (word_weights g) (Some l)
                (u t) (k t)) as [[_ ->] | [_ (w & -> & _)]]; eauto.
  - destruct (get_weighted_word_cases (data_df g) (word_weights g) level
                (u t) (k t)) as [[_ ->] | [_ (w & -> & _)]]; eauto.
Qed.

Lemma init_level_spec (session_stats : SessionStats) (word_level : string) :
  words_attempted (init_level session_stats word_level)
  = words_attempted session_stats ∧
  words_correct (init_level session_stats word_level)
  = words_correct session_stats ∧
  current_streak (init_level session_stats word_level)
  = current_streak session_stats ∧
  best_streak (init_level session_stats word_level)
  = best_streak session_stats.
Proof.
  unfold init_level. by destruct (level_stats session_stats !! word_level).
Qed.

(** The three calls after a failure: the exception of the update, or
    the state with the failure recorded. *)
Lemma record_failure_spec (g : GameState)
    (word word_class word_level : string) (possible_meanings : list string)
    (t : Turn) :
  let updated :=
    update_word_performance (word_weights g) word word_class word_level
      false (now_seen t) in
  match updated.2 with
  | Raise e =>
      record_failure g word word_class word_level possible_meanings t
      = Raise e
  | Return _ =>
      ∃ g',
        record_failure g word word_class word_level possible_meanings t
        = Return g' ∧
        current_score g' = current_score g ∧
        session_stats g'
        = _update_session_stats (session_stats g) word_level false ∧
        word_weights g' = updated.1 ∧
        data_df g' = data_df g
  end.
Proof.
  cbn zeta. unfold record_failure. cbn zeta.
  destruct (update_word_performance _ _ _ _ _ _).2; [|done].
  eexists. split; [reflexivity|]. done.
Qed.

Lemma record_success_spec (g : GameState)
    (word word_class word_level : string) (possible_meanings : list string)
    (t : Turn) :
  let updated :=
    update_word_performance (word_weights g) word word_class word_level
      true (now_seen t) in
  match updated.2 with
  | Raise e =>
      record_success g word word_class word_level possible_meanings t
      = Raise e
  | Return _ =>
      ∃ g',
        record_success g word word_class word_level possible_meanings t
        = Return g' ∧
        current_score g' = (current_score g + 1)%Z ∧
        words_correct (session_stats g')
        = (words_correct (session_stats g) + 1)%N ∧
        words_attempted (session_stats g')
        = (words_attempted (session_stats g) + 1)%N ∧
        current_streak (session_stats g')
        = (current_streak (session_stats g) + 1)%N ∧
        best_streak (session_stats g')
        = N.max (best_streak (session_stats g))
            (current_streak (session_stats g) + 1) ∧
        word_weights g' = updated.1 ∧
        data_df g' = data_df g
  end.
Proof.
  cbn zeta. unfold record_success.
  set (s1 := set_streaks (session_stats g)
               (current_streak (session_stats g) + 1)
               (best_streak (session_stats g))).
  cbn [set_score set_session session_stats current_score data_df
       word_weights max_retries translation_cache top_scores word_history].
  fold s1.
  destruct (update_session_stats_spec s1 word_level true)
    as (Ha & Hc & Hs & Hb).
  set (s2 := _update_session_stats s1 word_level true) in *.
  assert (Hs1 : current_streak s1 = (current_streak (session_stats g) + 1)%N)
    by done.
  assert (Hb1 : best_streak s1 = best_streak (session_stats g)) by done.
  assert (Hc1 : words_correct s1 = words_correct (session_stats g)) by done.
  assert (Ha1 : words_attempted s1 = words_attempted (session_stats g))
    by done.
  destruct (N.ltb_spec (best_streak s2) (current_streak s2)) as [Hlt | Hge];
    cbn [set_score set_session set_picker set_history session_stats
         current_score data_df word_weights set_streaks words_correct
         words_attempted current_streak best_streak];
    (destruct (update_word_performance _ _ _ _ _ _).2; [|done]);
    (eexists; split; [reflexivity|]);
    cbn [set_score set_session set_picker set_history session_stats
         current_score data_df word_weights set_streaks words_correct
         words_attempted current_streak best_streak];
    repeat split; try done; lia.
Qed.

Lemma end_game_spec (g : GameState) (mode : string) (level : option string)
    (now : string) :
  let g' := end_game g mode level now in
  current_score g' = current_score g ∧
  words_correct (session_stats g') = words_correct (session_stats g) ∧
  words_attempted (session_stats g') = words_attempted (session_stats g) ∧
  current_streak (session_stats g') = current_streak (session_stats g) ∧
  best_streak (session_stats g') = best_streak (session_stats g) ∧
  final_score (session_stats g') = Some (current_score g) ∧
  end_time (session_stats g') = Some now ∧
  word_weights g' = word_weights g ∧
  data_df g' = data_df g ∧
  (current_score g ≤ default 0%Z (overall (top_scores g')))%Z ∧
  ∃ mode_scores,
    by_mode (top_scores g') = Some mode_scores ∧
    (current_score g ≤ default 0%Z (mode_scores !! mode))%Z.
Proof.
  cbn zeta. unfold end_game, _end_game.
  cbn [fst snd set_session set_top_scores current_score session_stats
       top_scores word_weights data_df words_correct words_attempted
       current_streak best_streak final_score end_time overall by_mode].
  repeat split; try done.
  - destruct (Z.ltb_spec (default 0%Z (overall (top_scores g)))
                (current_score g)); cbn; lia.
  - eexists. split; [reflexivity|].
    destruct (record_score_lookup (default ∅ (by_mode (top_scores g))) mode
                (current_score g)) as [H _]. lia.
Qed.

Ltac no_call Hww :=
  exists []; rewrite ?Hww; split; [reflexivity|]; split; [reflexivity|];
  split; [constructor | cbn; lia].

Ltac one_call c :=
  exists [c]; rewrite run_single; cbn [exec]; split; [done|];
  split; [done|]; split; [by repeat constructor | cbn; lia].

(** What a round does to the counters and to the picker.  The only
    exception that leaves a round is the one of
    [update_word_performance]. *)
Lemma turn_spec (g : GameState) (mode : string) (level : option string)
    (t : Turn) :
  match turn g mode level t with
  | Continue g' =>
      (∃ calls, (run (word_weights g) calls).2 = Return tt ∧
                word_weights g' = (run (word_weights g) calls).1 ∧
                Forall is_update calls ∧ (length calls ≤ 1)%nat) ∧
      data_df g' = data_df g ∧
      ((current_score g' = current_score g ∧
        words_correct (session_stats g') = words_correct (session_stats g) ∧
        current_streak (session_stats g')
        = current_streak (session_stats g) ∧
        best_streak (session_stats g') = best_streak (session_stats g)) ∨
       (current_score g' = (current_score g + 1)%Z ∧
        words_correct (session_stats g')
        = (words_correct (session_stats g) + 1)%N ∧
        current_streak (session_stats g')
        = (current_streak (session_stats g) + 1)%N ∧
        best_streak (session_stats g')
        = N.max (best_streak (session_stats g))
            (current_streak (session_stats g) + 1)))
  | Stopped g' => g' = g
  | Ended g' =>
      (∃ calls, (run (word_weights g) calls).2 = Return tt ∧
                word_weights g' = (run (word_weights g) calls).1 ∧
                Forall is_update calls ∧ (length calls ≤ 1)%nat) ∧
      data_df g' = data_df g ∧
      current_score g' = current_score g ∧
      words_correct (session_stats g') = words_correct (session_stats g) ∧
      best_streak (session_stats g') = best_streak (session_stats g) ∧
      (current_streak (session_stats g')
       ≤ current_streak (session_stats g))%N ∧
      final_score (session_stats g') = Some (current_score g') ∧
      end_time (session_stats g') = Some (now_end t) ∧
      (current_score g' ≤ default 0%Z (overall (top_scores g')))%Z ∧
      ∃ mode_scores,
        by_mode (top_scores g') = Some mode_scores ∧
        (current_score g' ≤ default 0%Z (mode_scores !! mode))%Z
  | Raised e =>
      ∃ word word_class word_level is_correct now,
        (update_word_performance (word_weights g) word word_class
           word_level is_correct now).2 = Raise e
  end.
Proof.
  unfold turn. destruct (select_word_returns g mode level t) as (r & ->).
  destruct r as [[[word word_class] word_level]|]; [|done].
  destruct (init_level_spec (session_stats g) word_level)
    as (Hia & Hic & His & Hib).
  set (g1 := set_session g (init_level (session_stats g) word_level)).
  set (translated := translate_word (translation_cache g1) (max_retries g1)
                       (api t) word word_class).
  set (g2 := set_cache g1 (snd translated)).
  assert (Hg2 : current_score g2 = current_score g ∧
                words_correct (session_stats g2)
                = words_correct (session_stats g) ∧
                current_streak (session_stats g2)
                = current_streak (session_stats g) ∧
                best_streak (session_stats g2)
                = best_streak (session_stats g) ∧
                word_weights g2 = word_weights g ∧
                data_df g2 = data_df g) by done.
  destruct Hg2 as (Hsc & Hwc & Hcs & Hbs & Hww & Hdf).
  cbn zeta. destruct (fst translated) as [|m ms] eqn:Em.
  { split; [no_call Hww|]. split; [done|]. left. done. }
  destruct (String.eqb (lower (strip (first_line t))) "quit").
  { destruct (end_game_spec g2 mode level (now_end t))
      as (E1 & E2 & E3 & E4 & E5 & E6 & E7 & E8 & E9 & E10 & E11).
    split; [rewrite E8; no_call Hww|].
    rewrite E9, E1, E2, E5, E4, E6, E7, Hdf, Hsc, Hwc, Hbs, Hcs.
    repeat split; try done; try lia. }
  destruct (String.eqb (lower (strip (first_line t))) "skip").
  { match goal with
    | |- context [record_failure ?g0 word word_class word_level ?pm t] =>
        pose proof (record_failure_spec g0 word word_class word_level pm t)
          as Hf;
        destruct (update_session_stats_spec (session_stats g0) word_level
                    false) as (U1 & U2 & U3 & U4)
    end.
    cbn zeta in Hf. cbn [set_session word_weights] in Hf. rewrite Hww in Hf.
    destruct (update_word_performance (word_weights g) word word_class
                word_level false (now_seen t)).2 as [[] | e] eqn:Eu.
    - destruct Hf as (g' & -> & F1 & F2 & F3 & F4).
      rewrite F3, F4. cbn [set_session word_weights data_df]. split.
      + one_call (UpdateWordPerformance word word_class word_level false
                    (now_seen t)).
      + split; [done|]. left. rewrite F1, F2, U2, U3, U4. cbn.
        rewrite ?Hic, ?His, ?Hib. repeat split; lia.
    - rewrite Hf. eauto 10. }
  match goal with
  | |- context [validate_user_input ?a ?pm] =>
      destruct (validate_user_input a pm)
  end.
  { match goal with
    | |- context [record_success ?g0 word word_class word_level ?pm t] =>
        pose proof (record_success_spec g0 word word_class word_level pm t)
          as Hs
    end.
    cbn zeta in Hs. rewrite Hww in Hs.
    destruct (update_word_performance (word_weights g) word word_class
                word_level true (now_seen t)).2 as [[] | e] eqn:Eu.
    - destruct Hs as (g' & -> & S1 & S2 & S3 & S4 & S5 & S6 & S7).
      rewrite S6, S7. split.
      + one_call (UpdateWordPerformance word word_class word_level true
                    (now_seen t)).
      + split; [done|]. right. rewrite S1, S2, S4, S5. cbn.
        rewrite ?Hic, ?His, ?Hib. done.
    - rewrite Hs. eauto 10. }
  match goal with
  | |- context [record_failure ?g0 word word_class word_level ?pm t] =>
      pose proof (record_failure_spec g0 word word_class word_level pm t)
        as Hf;
      destruct (update_session_stats_spec (session_stats g0) word_level
                  false) as (U1 & U2 & U3 & U4)
  end.
  cbn zeta in Hf. cbn [set_session word_weights] in Hf. rewrite Hww in Hf.
  destruct (update_word_performance (word_weights g) word word_class
              word_level false (now_seen t)).2 as [[] | e] eqn:Eu;
    [| rewrite Hf; eauto 10].
  destruct Hf as (g' & -> & F1 & F2 & F3 & F4).
  destruct (end_game_spec g' mode level (now_end t))
    as (E1 & E2 & E3 & E4 & E5 & E6 & E7 & E8 & E9 & E10 & E11).
  rewrite E8, E9, E1, E2, E5, E4, E6, E7, F3, F4, F1.
  rewrite F1 in E10, E11. rewrite F2, U2, U3, U4.
  cbn [set_session word_weights data_df current_score session_stats
       append_wrong_answer set_streaks words_correct current_streak
       best_streak] in *.
  split.
  - one_call (UpdateWordPerformance word word_class word_level false
                (now_seen t)).
  - rewrite ?Hic, ?His, ?Hib in *. repeat split; try done; lia.
Qed.





(** The picker along the rounds of a game. *)
Lemma play_picker (g : GameState) (mode : string) (level : option string)
    (turns : list Turn) (g' : GameState) :
  state_of (play g mode level turns) = Some g' →
  ∃ calls,
    (run (word_weights g) calls).2 = Return tt ∧
    word_weights g' = (run (word_weights g) calls).1 ∧
    Forall is_update calls ∧ (length calls ≤ length turns)%nat ∧
    data_df g' = data_df g.
Proof.
  revert g. induction turns as [|t rest IH]; intros g; cbn [play].
  - intros [= <-]. exists []. repeat split; [constructor|done].
  - pose proof (turn_spec g mode level t) as Ht.
    destruct (turn g mode level t) as [g1 | g1 | g1 | e]; [| | |done].
    + destruct Ht as ((calls & Hr & Hw & Hu & Hl) & Hd & _).
      intros (calls' & Hr' & Hw' & Hu' & Hl' & Hd')%IH.
      exists (calls ++ calls'). rewrite run_app, Hr, <- Hw.
      split; [done|]. split; [done|]. split; [by apply Forall_app|].
      split; [rewrite length_app; cbn [length]; lia|congruence].
    + subst g1. intros [= <-]. exists [].
      repeat split; [constructor|cbn; lia].
    + destruct Ht as ((calls & Hr & Hw & Hu & Hl) & Hd & _).
      intros [= <-]. exists calls. repeat split; try done. cbn [length]. lia.
Qed.

Lemma blank_not_command (line : string) :
  all_space line = true →
  strip line = "" ∧
  String.eqb (lower (strip line)) "quit" = false ∧
  String.eqb (lower (strip line)) "skip" = false ∧
  String.eqb (lower (strip line)) "hint" = false.
Proof. intros ->%strip_empty_iff. done. Qed.

End GamePlayFacts.

Module GamePlayProps.
Import PyStr PyExc PyFloat PyRandom WordPicker WeightSpec Utils Translator.
Import Game GamePlay TranslatorSpec GameSpec GamePlaySpec.
Import PyStrFacts UtilsFacts StoreFacts RandomFacts TranslatorFacts GameFacts.
Import GamePlayFacts.


(** X28.  All that a game does to the word picker is a run of calls of
    [update_word_performance] that return, at most one for each round;
    the rows are unchanged, and the invariant of the records is kept. *)
Theorem play_game_picker (g : GameState) (mode : string)
    (level : option string) (now : string) (turns : list Turn)
    (g' : GameState) :
  state_of (_play_game g mode level now turns) = Some g' →
  (∃ calls,
     (run (word_weights g) calls).2 = Return tt ∧
     word_weights g' = (run (word_weights g) calls).1 ∧
     Forall is_update calls ∧ (length calls ≤ length turns)%nat) ∧
  data_df g' = data_df g ∧
  (map_Forall (λ _, record_invariant) (word_weights g) →
   map_Forall (λ _, record_invariant) (word_weights g')).
Proof.
  unfold _play_game. intros (calls & Hr & Hw & Hu & Hl & Hd)%play_picker.
  split; [by exists calls|]. split; [done|].
  intros Hinv. rewrite Hw. by apply run_invariant.
Qed.

Lemma play_game_picker_witness :
  ∃ g',
    state_of
      (_play_game (first_run [mkRow "cat" "noun" "a1"] 3) "custom"
         (Some "a1") "t0"
         [mkTurn 0 (lit 0.5) 0 (λ _, ApiContent "kucing") "kucing" "" "t1"
            "t2" "t3"])
    = Some g' ∧
    data_df g' = data_df (first_run [mkRow "cat" "noun" "a1"] 3).
Proof.
  eexists. split; [vm_compute; reflexivity|].
  eapply (play_game_picker (first_run [mkRow "cat" "noun" "a1"] 3)
            "custom" (Some "a1") "t0"
            [mkTurn 0 (lit 0.5) 0 (λ _, ApiContent "kucing") "kucing" ""
               "t1" "t2" "t3"]).
  vm_compute. reflexivity.
Defined.

(** X29.  With a cache of usable lists, a round in which the player types
    nothing, or whitespace only, counts the answer as a wrong one: when
    the update of the word's record returns, as it does for a record
    with [correct_count <= total_attempts] and for a word without a
    record, the game ends; the score and the number of correct answers
    are unchanged, the number of attempts grows by one, the streak is
    reset and the record of the word is updated as for a failure.
    Otherwise the exception of the update leaves the round. *)
Theorem blank_answer_ends_game (g : GameState) (mode : string)
    (level : option string) (t : Turn) (word word_class word_level : string) :
  usable_cache (translation_cache g) →
  select_word g mode level t = Return (Some (word, word_class, word_level)) →
  all_space (first_line t) = true →
  let updated :=
    update_word_performance (word_weights g) word word_class word_level
      false (now_seen t) in
  (counts_bounded
     (default new_word_stats
        (word_weights g !! word_key word word_class word_level)) →
   updated.2 = Return tt) ∧
  match updated.2 with
  | Return _ =>
      ∃ g',
        turn g mode level t = Ended g' ∧
        current_score g' = current_score g ∧
        final_score (session_stats g') = Some (current_score g) ∧
        words_correct (session_stats g') = words_correct (session_stats g) ∧
        words_attempted (session_stats g')
        = (words_attempted (session_stats g) + 1)%N ∧
        current_streak (session_stats g') = 0%N ∧
        word_weights g' = updated.1
  | Raise e => turn g mode level t = Raised e
  end.
Proof.
  intros Hcache Hsel Hblank. cbn zeta. split; [apply update_returns|].
  unfold turn. rewrite Hsel.
  destruct (init_level_spec (session_stats g) word_level)
    as (Hia & Hic & His & Hib).
  set (g1 := set_session g (init_level (session_stats g) word_level)).
  destruct (translate_word_keeps_usable (translation_cache g1)
              (max_retries g1) (api t) word word_class Hcache)
    as [[Hne _] _].
  set (translated := translate_word (translation_cache g1) (max_retries g1)
                       (api t) word word_class) in *.
  cbn zeta. destruct (fst translated) as [|m ms] eqn:Em; [done|].
  destruct (blank_not_command _ Hblank) as (-> & _).
  cbn [lower String.eqb].
  change (validate_user_input "" (m :: ms)) with false. cbv iota.
  match goal with
  | |- context [record_failure ?g0 word word_class word_level ?pm t] =>
      pose proof (record_failure_spec g0 word word_class word_level pm t)
        as Hf;
      cbn zeta in Hf;
      change (word_weights g0) with (word_weights g) in Hf;
      destruct (update_session_stats_spec (session_stats g0) word_level
                  false) as (U1 & U2 & U3 & U4)
  end.
  destruct (update_word_performance (word_weights g) word word_class
              word_level false (now_seen t)).2 as [[] | e] eqn:Eu;
    [| by rewrite Hf].
  destruct Hf as (g' & -> & F1 & F2 & F3 & F4).
  eexists. split; [reflexivity|].
  destruct (end_game_spec g' mode level (now_end t))
    as (E1 & E2 & E3 & E4 & E5 & E6 & E7 & E8 & E9 & _).
  rewrite E1, E2, E3, E4, E6, E8, F1, F2, F3, U1, U2, U3.
  cbn. rewrite ?Hia, ?Hic. repeat split; try done; lia.
Qed.

Lemma blank_answer_ends_game_witness :
  ∃ g',
    turn (first_run [mkRow "cat" "noun" "a1"] 3) "custom" (Some "a1")
      (mkTurn 0 (lit 0.5) 0 (λ _, ApiContent "kucing") "  " "" "t1" "t2" "t3")
    = Ended g' ∧
    current_score g' = 0%Z.
Proof.
  destruct (blank_answer_ends_game
              (first_run [mkRow "cat" "noun" "a1"] 3) "custom" (Some "a1")
              (mkTurn 0 (lit 0.5) 0 (λ _, ApiContent "kucing") "  " ""
                 "t1" "t2" "t3") "cat" "noun" "a1")
    as (Hreturns & Hturn).
  - apply map_Forall_empty.
  - vm_compute. reflexivity.
  - reflexivity.
  - rewrite Hreturns in Hturn by (vm_compute; discriminate).
    destruct Hturn as (g' & H1 & H2 & _).
    exists g'. split; [exact H1|exact H2].
Defined.

(** X30.  With a cache of usable lists, the command [skip], in any letter
    case and with whitespace around it, counts as a failure of the word:
    when the update of the word's record returns, as it does for a
    record with [correct_count <= total_attempts] and for a word without
    a record, the game goes on; the word is noted as a wrong answer
    ["[SKIPPED]"] and counts as an attempt, and the score and the
    current streak stay as they are.  Otherwise the exception of the
    update leaves the round. *)
Theorem skipped_word_continues (g : GameState) (mode : string)
    (level : option string) (t : Turn) (word word_class word_level : string) :
  usable_cache (translation_cache g) →
  select_word g mode level t = Return (Some (word, word_class, word_level)) →
  lower (strip (first_line t)) = "skip" →
  let updated :=
    update_word_performance (word_weights g) word word_class word_level
      false (now_seen t) in
  (counts_bounded
     (default new_word_stats
        (word_weights g !! word_key word word_class word_level)) →
   updated.2 = Return tt) ∧
  match updated.2 with
  | Return _ =>
      ∃ g',
        turn g mode level t = Continue g' ∧
        current_score g' = current_score g ∧
        words_correct (session_stats g') = words_correct (session_stats g) ∧
        words_attempted (session_stats g')
        = (words_attempted (session_stats g) + 1)%N ∧
        current_streak (session_stats g')
        = current_streak (session_stats g) ∧
        (∃ meanings,
           last (wrong_answers (session_stats g'))
           = Some (mkWrongAnswer word word_class word_level "[SKIPPED]"
                     meanings)) ∧
        word_weights g' = updated.1
  | Raise e => turn g mode level t = Raised e
  end.
Proof.
  intros Hcache Hsel Hskip. cbn zeta. split; [apply update_returns|].
  unfold turn. rewrite Hsel.
  destruct (init_level_spec (session_stats g) word_level)
    as (Hia & Hic & His & Hib).
  set (g1 := set_session g (init_level (session_stats g) word_level)).
  destruct (translate_word_keeps_usable (translation_cache g1)
              (max_retries g1) (api t) word word_class Hcache)
    as [[Hne _] _].
  set (translated := translate_word (translation_cache g1) (max_retries g1)
                       (api t) word word_class) in *.
  cbn zeta. destruct (fst translated) as [|m ms] eqn:Em; [done|].
  rewrite Hskip. cbn [String.eqb Ascii.eqb Bool.eqb]. cbv iota.
  match goal with
  | |- context [record_failure ?g0 word word_class word_level ?pm t] =>
      pose proof (record_failure_spec g0 word word_class word_level pm t)
        as Hf;
      cbn zeta in Hf;
      change (word_weights g0) with (word_weights g) in Hf;
      destruct (update_session_stats_spec (session_stats g0) word_level
                  false) as (U1 & U2 & U3 & U4);
      assert (Hwa : wrong_answers
                      (_update_session_stats (session_stats g0) word_level
                         false) = wrong_answers (session_stats g0))
  end.
  { unfold _update_session_stats.
    match goal with
    | |- context [level_stats ?s !! word_level] =>
        destruct (level_stats s !! word_level) eqn:E
    end.
    - rewrite E. done.
    - rewrite lookup_insert_eq. done. }
  destruct (update_word_performance (word_weights g) word word_class
              word_level false (now_seen t)).2 as [[] | e] eqn:Eu;
    [| by rewrite Hf].
  destruct Hf as (g' & -> & F1 & F2 & F3 & F4).
  eexists. split; [reflexivity|].
  rewrite F1, F2, F3, U1, U2, U3, Hwa. cbn.
  rewrite ?Hia, ?Hic, ?His. repeat split; try done; try lia.
  exists (m :: ms).
  assert (Hw : wrong_answers (init_level (session_stats g) word_level)
               = wrong_answers (session_stats g)).
  { unfold init_level. by destruct (level_stats (session_stats g) !! _). }
  by rewrite last_snoc.
Qed.

Lemma skipped_word_continues_witness :
  ∃ g',
    turn (first_run [mkRow "cat" "noun" "a1"] 3) "custom" (Some "a1")
      (mkTurn 0 (lit 0.5) 0 (λ _, ApiContent "kucing") " Skip " "" "t1" "t2"
         "t3")
    = Continue g' ∧
    current_score g' = 0%Z.
Proof.
  destruct (skipped_word_continues
              (first_run [mkRow "cat" "noun" "a1"] 3) "custom" (Some "a1")
              (mkTurn 0 (lit 0.5) 0 (λ _, ApiContent "kucing") " Skip " ""
                 "t1" "t2" "t3") "cat" "noun" "a1")
    as (Hreturns & Hturn).
  - apply map_Forall_empty.
  - vm_compute. reflexivity.
  - reflexivity.
  - rewrite Hreturns in Hturn by (vm_compute; discriminate).
    destruct Hturn as (g' & H1 & H2 & _).
    exists g'. split; [exact H1|exact H2].
Defined.

End GamePlayProps.
